(** * NSE-Profitinator: option-chain builder and strategy metrics

    A shallow embedding of [nse_api.py] ([NSEDataFetcher.get_options_data],
    [get_stock_price], [get_lot_size]) and of the two strategy passes of
    [streamlit_app.py] (Strategy 1: Short Straddle, Strategy 2: Covered
    Call), followed by the properties of the specification that concern
    them.  The lot-size cache of [nse_api.py] ([_load_lot_sizes],
    [_cleanup_old_cache]) is embedded as well, with the directory listing
    and the rows of the CSV as inputs; further properties of the code close
    the file.

    Numbers.  A Python [float] is an IEEE-754 binary64 value; it is modelled
    by Rocq's primitive [float], whose operations are the same binary64
    operations (round to nearest, ties to even).  A Python [int] is a [Z].

    Strings.  A Python [str] is modelled by the string of its UTF-8 bytes;
    [strip], [float], [isdigit] and [int] read it character by character,
    with the whitespace and the digits of Unicode.

    The feed.  A record of the feed is read with the JSON types NSE sends:
    text for the instrument type, the option type, the expiry date and the
    strike, floats for the prices and premiums, ints for the volumes and the
    open interest; any of them may be absent.  A record that holds a number
    or [null] where text is expected is outside the model.

    Exceptions.  A Python call that may raise returns a [result]; a loop
    that appends to a list and may be left by an exception returns the
    records appended so far together with its [outcome]. *)

From Stdlib Require Import ZArith QArith Qabs List String Ascii Bool Lia Floats.
Import ListNotations.

Set Warnings "-inexact-float".

Local Open Scope Z_scope.

(** ** Python exceptions and results *)

Inductive exn : Type :=
| ValueError
| ZeroDivisionError
| OverflowError.

Inductive result (A : Type) : Type :=
| Ok (a : A)
| Raise (e : exn).

Arguments Ok {A} a.
Arguments Raise {A} e.

Definition bind {A B : Type} (r : result A) (k : A -> result B) : result B :=
  match r with
  | Ok a => k a
  | Raise e => Raise e
  end.

Notation "x <- c1 ;; c2" := (bind c1 (fun x => c2))
  (at level 61, c1 at next level, right associativity).

(** How a block that appends to a list ended: it ran to its end, or an
    exception left it (the records appended before stay in the list). *)
Inductive outcome : Type :=
| Done
| Raised (e : exn).

(** ** Python floats *)

Module PyFloat.

Local Open Scope float_scope.

(** [float(n)] for an int [n], also the implicit conversion of an int
    operand in mixed arithmetic: correctly rounded, [OverflowError] when the
    int is too large. *)
Definition of_int (n : Z) : result float :=
  let f := SF2Prim (binary_normalize prec emax n 0 false) in
  if is_infinity f then Raise OverflowError else Ok f.

(** [int(x)]: truncation toward zero; [ValueError] on NaN, [OverflowError]
    on an infinity. *)
Definition to_int (x : float) : result Z :=
  match Prim2SF x with
  | S754_zero _ => Ok 0%Z
  | S754_infinity _ => Raise OverflowError
  | S754_nan => Raise ValueError
  | S754_finite s m e =>
      Ok (cond_Zopp s (if (0 <=? e)%Z then Z.pos m * 2 ^ e
                       else Z.pos m / 2 ^ (- e)))%Z
  end.

(** [x / y]: Python raises on a zero divisor instead of returning an
    infinity or NaN. *)
Definition truediv (x y : float) : result float :=
  if y =? 0 then Raise ZeroDivisionError else Ok (x / y).

(** The integer nearest to [a * 2^e], ties to the even integer. *)
Definition nearest_even (a e : Z) : Z :=
  if (0 <=? e)%Z then (a * 2 ^ e)%Z
  else
    let d := (2 ^ (- e))%Z in
    let q := (a / d)%Z in
    let r := (a mod d)%Z in
    if (2 * r <? d)%Z then q
    else if (d <? 2 * r)%Z then (q + 1)%Z
    else if Z.even q then q else (q + 1)%Z.

(** [round(x, 2)]: the exact binary value of [x] is rounded to two decimals
    (ties to even) and the decimal [n / 100] obtained is converted back to
    the nearest float; NaN and the infinities round to themselves. *)
Definition round2 (x : float) : float :=
  match Prim2SF x with
  | S754_finite s m e =>
      match nearest_even (100 * Z.pos m) e with
      | Z.pos n =>
          SF2Prim (SF64div (S754_finite s n 0) (S754_finite false 100 0))
      | _ => if s then (- 0) else 0
      end
  | _ => x
  end.

End PyFloat.

(** ** Python strings *)

Module PyStr.

Local Open Scope string_scope.

(** A Python [str] is a sequence of code points.  It is modelled by the
    string of its UTF-8 bytes: [chars] cuts a string into its characters and
    [ord] gives the code point of a character.  A byte that belongs to no
    well-formed character stands alone, above every code point. *)

Definition byte (c : ascii) : N := N_of_ascii c.

(** A continuation byte, [10xxxxxx]. *)
Definition continuation (c : ascii) : bool :=
  ((0x80 <=? byte c) && (byte c <? 0xC0))%N.

(** The bytes of a character of two, three and four bytes. *)
Definition is2 (c1 c2 : ascii) : bool :=
  ((0xC2 <=? byte c1) && (byte c1 <? 0xE0))%N && continuation c2.

Definition is3 (c1 c2 c3 : ascii) : bool :=
  ((0xE0 <=? byte c1) && (byte c1 <? 0xF0))%N
  && continuation c2 && continuation c3
  && (negb (byte c1 =? 0xE0)%N || (0xA0 <=? byte c2)%N).

Definition is4 (c1 c2 c3 c4 : ascii) : bool :=
  ((0xF0 <=? byte c1) && (byte c1 <? 0xF5))%N
  && continuation c2 && continuation c3 && continuation c4
  && (negb (byte c1 =? 0xF0)%N || (0x90 <=? byte c2)%N)
  && (negb (byte c1 =? 0xF4)%N || (byte c2 <? 0x90)%N).

(** The characters of a string, each with its bytes. *)
Fixpoint chars (s : string) : list string :=
  match s with
  | EmptyString => []
  | String c1 s1 =>
      match s1 with
      | String c2 s2 =>
          if is2 c1 c2 then String c1 (String c2 "") :: chars s2
          else
            match s2 with
            | String c3 s3 =>
                if is3 c1 c2 c3
                then String c1 (String c2 (String c3 "")) :: chars s3
                else
                  match s3 with
                  | String c4 s4 =>
                      if is4 c1 c2 c3 c4
                      then String c1 (String c2 (String c3 (String c4 "")))
                           :: chars s4
                      else String c1 "" :: chars s1
                  | EmptyString => String c1 "" :: chars s1
                  end
            | EmptyString => String c1 "" :: chars s1
            end
      | EmptyString => [String c1 ""]
      end
  end.

(** [ord(ch)] for a character [ch] of [chars]. *)
Definition ord (ch : string) : N :=
  match ch with
  | String c1 EmptyString =>
      if (byte c1 <? 0x80)%N then byte c1 else (0x110000 + byte c1)%N
  | String c1 (String c2 EmptyString) =>
      ((byte c1 - 0xC0) * 0x40 + (byte c2 - 0x80))%N
  | String c1 (String c2 (String c3 EmptyString)) =>
      ((byte c1 - 0xE0) * 0x1000 + (byte c2 - 0x80) * 0x40
       + (byte c3 - 0x80))%N
  | String c1 (String c2 (String c3 (String c4 EmptyString))) =>
      ((byte c1 - 0xF0) * 0x40000 + (byte c2 - 0x80) * 0x1000
       + (byte c3 - 0x80) * 0x40 + (byte c4 - 0x80))%N
  | _ => 0x110000%N
  end.

(** [ch.isspace()] for the character of code point [c]: the whitespace of
    Unicode, which is what [str.strip] removes. *)
Definition isspace (c : N) : bool :=
  ((0x09 <=? c) && (c <=? 0x0D) || (0x1C <=? c) && (c <=? 0x20)
   || (c =? 0x85) || (c =? 0xA0) || (c =? 0x1680)
   || (0x2000 <=? c) && (c <=? 0x200A)
   || (c =? 0x2028) || (c =? 0x2029) || (c =? 0x202F) || (c =? 0x205F)
   || (c =? 0x3000))%N.

Fixpoint drop_spaces (l : list string) : list string :=
  match l with
  | ch :: l' => if isspace (ord ch) then drop_spaces l' else l
  | [] => []
  end.

Definition lstrip (s : string) : string :=
  String.concat "" (drop_spaces (chars s)).

Definition rstrip (s : string) : string :=
  String.concat "" (rev (drop_spaces (rev (chars s)))).

(** [s.strip()] *)
Definition strip (s : string) : string :=
  String.concat "" (rev (drop_spaces (rev (drop_spaces (chars s))))).

(** [sep in s] for a one-character [sep] of ASCII. *)
Fixpoint contains (sep : ascii) (s : string) : bool :=
  match s with
  | String c s' => Ascii.eqb c sep || contains sep s'
  | EmptyString => false
  end.

(** [s.split(sep)] for a one-character [sep] of ASCII: never the empty
    list. *)
Fixpoint split (sep : ascii) (s : string) : list string :=
  match s with
  | EmptyString => [EmptyString]
  | String c s' =>
      match split sep s' with
      | w :: ws => if Ascii.eqb c sep then EmptyString :: w :: ws
                   else String c w :: ws
      | [] => [String c EmptyString]
      end
  end.

(** [sep.join(ws)] *)
Fixpoint join (sep : string) (ws : list string) : string :=
  match ws with
  | [] => EmptyString
  | [w] => w
  | w :: ws' => w ++ sep ++ join sep ws'
  end.

End PyStr.

(** ** [float(s)] for a string *)

Module PyParse.

Import PyStr.
Local Open Scope char_scope.

(** The decimal digits of Unicode (general category Nd), in runs of
    consecutive code points that count 0 to 9: the first code point of a run
    and its length.  The table is the one of the Unicode Character Database
    14.0.0, which CPython 3.11 carries. *)
Definition decimal_runs : list (N * N) :=
  [
    (0x30, 10); (0x660, 10); (0x6F0, 10); (0x7C0, 10); (0x966, 10);
    (0x9E6, 10); (0xA66, 10); (0xAE6, 10); (0xB66, 10); (0xBE6, 10);
    (0xC66, 10); (0xCE6, 10); (0xD66, 10); (0xDE6, 10); (0xE50, 10);
    (0xED0, 10); (0xF20, 10); (0x1040, 10); (0x1090, 10); (0x17E0, 10);
    (0x1810, 10); (0x1946, 10); (0x19D0, 10); (0x1A80, 10); (0x1A90, 10);
    (0x1B50, 10); (0x1BB0, 10); (0x1C40, 10); (0x1C50, 10); (0xA620, 10);
    (0xA8D0, 10); (0xA900, 10); (0xA9D0, 10); (0xA9F0, 10); (0xAA50, 10);
    (0xABF0, 10); (0xFF10, 10); (0x104A0, 10); (0x10D30, 10); (0x11066, 10);
    (0x110F0, 10); (0x11136, 10); (0x111D0, 10); (0x112F0, 10); (0x11450, 10);
    (0x114D0, 10); (0x11650, 10); (0x116C0, 10); (0x11730, 10); (0x118E0, 10);
    (0x11950, 10); (0x11C50, 10); (0x11D50, 10); (0x11DA0, 10); (0x16A60, 10);
    (0x16AC0, 10); (0x16B50, 10); (0x1D7CE, 50); (0x1E140, 10); (0x1E2F0, 10);
    (0x1E950, 10); (0x1FBF0, 10)
  ]%N.

(** The value of the decimal digit of code point [c]. *)
Definition decimal_value (c : N) : option N :=
  match find (fun run => (fst run <=? c) && (c <? fst run + snd run))%N
             decimal_runs with
  | Some run => Some ((c - fst run) mod 10)%N
  | None => None
  end.

(** What [float] and [int] make of a string before they parse it: a
    character of ASCII stays, whitespace outside ASCII becomes a space and a
    decimal digit of any script becomes its ASCII digit; [None] when another
    character occurs, which no numeral holds. *)
Fixpoint to_ascii (l : list string) : option string :=
  match l with
  | [] => Some EmptyString
  | ch :: l' =>
      let c := ord ch in
      let a :=
        if (c <? 0x80)%N then Some (ascii_of_N c)
        else if isspace c then Some " "
        else option_map (fun d => ascii_of_N (0x30 + d)) (decimal_value c) in
      match a, to_ascii l' with
      | Some x, Some t => Some (String x t)
      | _, _ => None
      end
  end.

(** The whitespace the parser of numerals skips at both ends: the one of
    C. *)
Definition isspace_c (c : ascii) : bool :=
  let n := nat_of_ascii c in
  ((9 <=? n) && (n <=? 13) || (n =? 32))%nat.

Fixpoint lstrip_c (s : string) : string :=
  match s with
  | String c s' => if isspace_c c then lstrip_c s' else s
  | EmptyString => EmptyString
  end.

Fixpoint rstrip_c (s : string) : string :=
  match s with
  | String c s' =>
      match rstrip_c s' with
      | EmptyString =>
          if isspace_c c then EmptyString else String c EmptyString
      | t => String c t
      end
  | EmptyString => EmptyString
  end.

Definition strip_c (s : string) : string := rstrip_c (lstrip_c s).

Definition is_digit (c : ascii) : bool :=
  let n := nat_of_ascii c in ((48 <=? n) && (n <=? 57))%nat.

Definition digit (c : ascii) : Z := Z.of_nat (nat_of_ascii c) - 48.

(** ASCII lower case of a letter. *)
Definition lower (c : ascii) : ascii :=
  let n := nat_of_ascii c in
  if ((65 <=? n) && (n <=? 90))%nat then ascii_of_nat (n + 32) else c.

Fixpoint lower_string (s : string) : string :=
  match s with
  | String c s' => String (lower c) (lower_string s')
  | EmptyString => EmptyString
  end.

(** PEP 515: an underscore may stand only between two digits. *)
Fixpoint underscores_ok (prev : ascii) (s : string) : bool :=
  match s with
  | EmptyString => negb (Ascii.eqb prev "_")
  | String c s' =>
      (if Ascii.eqb c "_" then is_digit prev
       else negb (Ascii.eqb prev "_") || is_digit c)
      && underscores_ok c s'
  end.

Fixpoint remove_underscores (s : string) : string :=
  match s with
  | EmptyString => EmptyString
  | String c s' =>
      if Ascii.eqb c "_" then remove_underscores s'
      else String c (remove_underscores s')
  end.

(** A run of decimal digits: the number read so far, how many digits were
    read, and the rest of the string. *)
Fixpoint read_digits (s : string) (acc k : Z) : Z * Z * string :=
  match s with
  | String c s' =>
      if is_digit c then read_digits s' (10 * acc + digit c) (k + 1)
      else (acc, k, s)
  | EmptyString => (acc, k, s)
  end.

Definition read_sign (s : string) : bool * string :=
  match s with
  | String "-" s' => (true, s')
  | String "+" s' => (false, s')
  | _ => (false, s)
  end.

(** An exponent part [e], [E] with an optional sign and at least one digit;
    a malformed one is not consumed. *)
Definition read_exponent (s : string) : Z * string :=
  match s with
  | String c s' =>
      if Ascii.eqb (lower c) "e" then
        let (sg, s'') := read_sign s' in
        let '(v, k, rest) := read_digits s'' 0 0 in
        if (k =? 0)%Z then (0, s) else (cond_Zopp sg v, rest)
      else (0, s)
  | EmptyString => (0, s)
  end.

(** A decimal numeral [digits [. digits] [exponent]] with at least one
    digit: its digits as an integer [m] and the power of ten [e] with value
    [m * 10^e], and the rest of the string. *)
Definition read_decimal (s : string) : option (Z * Z * string) :=
  let '(i, ki, s1) := read_digits s 0 0 in
  let '(m, kf, s2) :=
    match s1 with
    | String "." s1' => read_digits s1' i 0
    | _ => (i, 0, s1)
    end in
  if (ki + kf =? 0)%Z then None
  else let (e, s3) := read_exponent s2 in Some (m, e - kf, s3).

Local Open Scope float_scope.

(** The float nearest to [m * 10^e] (ties to even), with the sign [sg];
    an infinity on overflow, a zero on underflow. *)
Definition of_decimal (sg : bool) (m e : Z) : float :=
  match m with
  | Z.pos p =>
      if (0 <=? e)%Z
      then SF2Prim (binary_normalize prec emax
                      (cond_Zopp sg (Z.pos p * 10 ^ e)) 0 false)
      else SF2Prim (SF64div (S754_finite sg p 0)
                      (S754_finite false (Z.to_pos (10 ^ (- e))) 0))
  | _ => if sg then (- 0) else 0
  end.

Local Open Scope string_scope.

(** [float(s)]: [ValueError] when [s] is not a numeral. *)
Definition to_float (s : string) : result float :=
  match to_ascii (chars s) with
  | None => Raise ValueError
  | Some t =>
      if negb (underscores_ok "000"%char t) then Raise ValueError
      else
        let (sg, u) := read_sign (strip_c (remove_underscores t)) in
        match read_decimal u with
        | Some (m, e, EmptyString) => Ok (of_decimal sg m e)
        | Some _ => Raise ValueError
        | None =>
            let w := lower_string u in
            if String.eqb w "inf" || String.eqb w "infinity"
            then Ok (if sg then neg_infinity else infinity)
            else if String.eqb w "nan" then Ok nan
            else Raise ValueError
        end
  end.

End PyParse.

(** A Python [for] loop whose body appends records to a list and may raise:
    the records of the iterations that ran, in order, and how it ended. *)
Fixpoint for_each {A R : Type} (body : A -> list R * outcome) (l : list A)
  : list R * outcome :=
  match l with
  | [] => ([], Done)
  | a :: l' =>
      match body a with
      | (rs, Done) => let (rs', o) := for_each body l' in (rs ++ rs', o)
      | (rs, Raised e) => (rs, Raised e)
      end
  end.

(** The body of an iteration that appends at most one record: [Ok None] is
    [continue]. *)
Definition appending {R : Type} (r : result (option R)) : list R * outcome :=
  match r with
  | Ok (Some x) => ([x], Done)
  | Ok None => ([], Done)
  | Raise e => ([], Raised e)
  end.

(** ** nse_api.py *)

Module NseApi.

Import PyStr.
Local Open Scope string_scope.

(** One record of the feed's [data] list, with the types of NSE's JSON.  A
    field is [None] when its key is absent from the JSON object. *)
Record RawItem : Type := {
  instrumentType : option string;
  optionType : option string;
  expiryDate : option string;
  strikePrice : option string;
  lastPrice : option float;
  totalTradedVolume : option Z;
  openInterest : option Z;
  underlyingValue : option float
}.

(** The dictionaries [get_options_data] returns.  [option_type] is the
    feed's [optionType] as it came ('CE', 'PE', anything else, or [None]
    when absent). *)
Record OptionEntry : Type := {
  symbol : string;
  expiry_date : string;
  expiry_month : string;
  option_type : option string;
  strike : float;
  last_price : float;
  volume : Z;
  open_interest : Z;
  underlying_value : float
}.

(** [d.get(key, default)] *)
Definition get {A : Type} (field : option A) (default : A) : A :=
  match field with
  | Some v => v
  | None => default
  end.

(** [v == s] for a field [v] that is a string or [None]. *)
Definition eq_str (v : option string) (s : string) : bool :=
  match v with
  | Some t => String.eqb t s
  | None => false
  end.

(** What the session holds: the JSON answer per symbol ([None] when the
    request failed or the answer has no [data]) and the dictionary of lot
    sizes read from the CSV ([None]: the symbol is not a key). *)
Record NSEDataFetcher : Type := {
  get_derivatives_data : string -> option (list RawItem);
  lot_sizes : string -> option Z
}.

Definition get_stock_price (self : NSEDataFetcher) (sym : string) : float :=
  match get_derivatives_data self sym with
  | Some (item :: _) => get (underlyingValue item) 0%float
  | _ => 0%float
  end.

(** [expiry_date.split('-')[1] if '-' in expiry_date else ''] *)
Definition month_of (expiry_date : string) : string :=
  if contains "-" expiry_date then nth 1 (split "-" expiry_date) ""
  else "".

(** The strike of a record: the field is stripped, then parsed; an empty
    field is 0. *)
Definition parse_strike (item : RawItem) : result float :=
  let strike_str := strip (get (strikePrice item) "0") in
  if String.eqb strike_str "" then Ok 0%float
  else PyParse.to_float strike_str.

(** One iteration of the loop of [get_options_data]: [Ok None] when the
    record is skipped. *)
Definition option_of_item (sym : string) (expiry_month : option string)
    (item : RawItem) : result (option OptionEntry) :=
  if eq_str (instrumentType item) "OPTSTK" then
    let option_type := optionType item in
    let expiry_date := get (expiryDate item) "" in
    let month := month_of expiry_date in
    let skip :=
      match expiry_month with
      | Some m => negb (String.eqb m "") && negb (String.eqb month m)
      | None => false
      end in
    if skip then Ok None
    else
      strike <- parse_strike item ;;
      Ok (Some {| symbol := sym;
                  expiry_date := expiry_date;
                  expiry_month := month;
                  option_type := option_type;
                  strike := strike;
                  last_price := get (lastPrice item) 0%float;
                  volume := get (totalTradedVolume item) 0;
                  open_interest := get (openInterest item) 0;
                  underlying_value := get (underlyingValue item) 0%float |})
  else Ok None.

(** The loop over [data['data']]: an exception leaves the function, and the
    entries built so far are lost with it. *)
Fixpoint options_of_items (sym : string) (expiry_month : option string)
    (items : list RawItem) : result (list OptionEntry) :=
  match items with
  | [] => Ok []
  | item :: items' =>
      o <- option_of_item sym expiry_month item ;;
      options <- options_of_items sym expiry_month items' ;;
      Ok (match o with
          | Some opt => opt :: options
          | None => options
          end)
  end.

Definition get_options_data (self : NSEDataFetcher) (sym : string)
    (expiry_month : option string) : result (list OptionEntry) :=
  match get_derivatives_data self sym with
  | None => Ok []
  | Some items => options_of_items sym expiry_month items
  end.

(** [ValueError] when the symbol is not in the lot-size table. *)
Definition get_lot_size (self : NSEDataFetcher) (sym : string) : result Z :=
  match lot_sizes self sym with
  | Some n => Ok n
  | None => Raise ValueError
  end.

End NseApi.

(** ** nse_api.py: the lot-size table and its cache files *)

Module NseApiCache.

Import PyStr.
Local Open Scope string_scope.

(** The characters [str.isdigit] accepts: the decimal digits and the other
    digits of Unicode (superscripts, circled digits and the like), as ranges
    of code points of the Unicode Character Database 14.0.0. *)
Definition digit_ranges : list (N * N) :=
  [
    (0x30, 0x39); (0xB2, 0xB3); (0xB9, 0xB9); (0x660, 0x669);
    (0x6F0, 0x6F9); (0x7C0, 0x7C9); (0x966, 0x96F); (0x9E6, 0x9EF);
    (0xA66, 0xA6F); (0xAE6, 0xAEF); (0xB66, 0xB6F); (0xBE6, 0xBEF);
    (0xC66, 0xC6F); (0xCE6, 0xCEF); (0xD66, 0xD6F); (0xDE6, 0xDEF);
    (0xE50, 0xE59); (0xED0, 0xED9); (0xF20, 0xF29); (0x1040, 0x1049);
    (0x1090, 0x1099); (0x1369, 0x1371); (0x17E0, 0x17E9); (0x1810, 0x1819);
    (0x1946, 0x194F); (0x19D0, 0x19DA); (0x1A80, 0x1A89); (0x1A90, 0x1A99);
    (0x1B50, 0x1B59); (0x1BB0, 0x1BB9); (0x1C40, 0x1C49); (0x1C50, 0x1C59);
    (0x2070, 0x2070); (0x2074, 0x2079); (0x2080, 0x2089); (0x2460, 0x2468);
    (0x2474, 0x247C); (0x2488, 0x2490); (0x24EA, 0x24EA); (0x24F5, 0x24FD);
    (0x24FF, 0x24FF); (0x2776, 0x277E); (0x2780, 0x2788); (0x278A, 0x2792);
    (0xA620, 0xA629); (0xA8D0, 0xA8D9); (0xA900, 0xA909); (0xA9D0, 0xA9D9);
    (0xA9F0, 0xA9F9); (0xAA50, 0xAA59); (0xABF0, 0xABF9); (0xFF10, 0xFF19);
    (0x104A0, 0x104A9); (0x10A40, 0x10A43); (0x10D30, 0x10D39); (0x10E60, 0x10E68);
    (0x11052, 0x1105A); (0x11066, 0x1106F); (0x110F0, 0x110F9); (0x11136, 0x1113F);
    (0x111D0, 0x111D9); (0x112F0, 0x112F9); (0x11450, 0x11459); (0x114D0, 0x114D9);
    (0x11650, 0x11659); (0x116C0, 0x116C9); (0x11730, 0x11739); (0x118E0, 0x118E9);
    (0x11950, 0x11959); (0x11C50, 0x11C59); (0x11D50, 0x11D59); (0x11DA0, 0x11DA9);
    (0x16A60, 0x16A69); (0x16AC0, 0x16AC9); (0x16B50, 0x16B59); (0x1D7CE, 0x1D7FF);
    (0x1E140, 0x1E149); (0x1E2F0, 0x1E2F9); (0x1E950, 0x1E959); (0x1F100, 0x1F10A);
    (0x1FBF0, 0x1FBF9)
  ]%N.

Definition is_digit_char (c : N) : bool :=
  existsb (fun range => (fst range <=? c) && (c <=? snd range))%N digit_ranges.

(** [value.isdigit()]: at least one character, all of them digits. *)
Definition isdigit (s : string) : bool :=
  negb (String.eqb s "")
  && forallb (fun ch => is_digit_char (ord ch)) (chars s).

(** The values of the characters of a numeral, [None] when one of them is
    no decimal digit. *)
Fixpoint digits (l : list string) : option (list Z) :=
  match l with
  | [] => Some []
  | ch :: l' =>
      match PyParse.decimal_value (ord ch), digits l' with
      | Some d, Some ds => Some (Z.of_N d :: ds)
      | _, _ => None
      end
  end.

(** The number a list of decimal digits writes. *)
Fixpoint decimal (ds : list Z) (acc : Z) : Z :=
  match ds with
  | [] => acc
  | d :: ds' => decimal ds' (10 * acc + d)
  end.

(** [sys.get_int_max_str_digits()], CPython's default. *)
Definition int_max_str_digits : nat := 4300.

(** [int(value)] for a string that [isdigit] accepts: [ValueError] when a
    character of it is a digit but no decimal digit, and when it has more
    digits than the interpreter's limit for int conversions. *)
Definition int_of_digits (value : string) : result Z :=
  match digits (chars value) with
  | Some ds =>
      if (int_max_str_digits <? List.length ds)%nat then Raise ValueError
      else Ok (decimal ds 0)
  | None => Raise ValueError
  end.

(** The loop over the month columns of a row, with its [break]: the first
    cell that is not empty once stripped and is all digits. *)
Fixpoint first_lot_size (cells : list string) : result (option Z) :=
  match cells with
  | [] => Ok None
  | cell :: rest =>
      let value := strip cell in
      if negb (String.eqb value "") && isdigit value
      then n <- int_of_digits value ;; Ok (Some n)
      else first_lot_size rest
  end.

(** The dictionary [lot_sizes]: its items in insertion order. *)
Definition lot_dict : Type := list (string * Z).

(** [lot_sizes[symbol] = lot_size] *)
Fixpoint dict_set (lot_sizes : lot_dict) (symbol : string) (lot_size : Z)
  : lot_dict :=
  match lot_sizes with
  | [] => [(symbol, lot_size)]
  | (k, v) :: rest =>
      if String.eqb k symbol then (k, lot_size) :: rest
      else (k, v) :: dict_set rest symbol lot_size
  end.

(** [lot_sizes[symbol]], [None] when [symbol not in lot_sizes]. *)
Fixpoint dict_get (lot_sizes : lot_dict) (symbol : string) : option Z :=
  match lot_sizes with
  | [] => None
  | (k, v) :: rest =>
      if String.eqb k symbol then Some v else dict_get rest symbol
  end.

(** The body of the loop over the rows after the header: column 1 is the
    symbol, the columns from 2 on are the lot sizes of the months. *)
Definition parse_row (lot_sizes : lot_dict) (row : list string)
  : result lot_dict :=
  if (1 <? List.length row)%nat then
    let symbol := strip (nth 1 row "") in
    if String.eqb symbol "" || String.eqb symbol "Symbol" then Ok lot_sizes
    else
      lot_size <- first_lot_size (skipn 2 row) ;;
      match lot_size with
      | Some n => if (n =? 0)%Z then Ok lot_sizes
                  else Ok (dict_set lot_sizes symbol n)
      | None => Ok lot_sizes
      end
  else Ok lot_sizes.

(** The loop over [rows[1:]] inside the [try]: an exception leaves it, and
    the lot sizes stored before stay in the dictionary. *)
Fixpoint parse_rows (lot_sizes : lot_dict) (rows : list (list string))
  : lot_dict * outcome :=
  match rows with
  | [] => (lot_sizes, Done)
  | row :: rest =>
      match parse_row lot_sizes row with
      | Ok lot_sizes' => parse_rows lot_sizes' rest
      | Raise e => (lot_sizes, Raised e)
      end
  end.

(** What reading the chosen cache file gives: there is no file to read
    ([cache_file] is [None] or does not exist), opening or reading it
    raised, or [list(csv.reader(f))]. *)
Inductive cache_read : Type :=
| NoFile
| Unreadable
| Rows (rows : list (list string)).

(** The result of [_load_lot_sizes]: the dictionary, or [RuntimeError]
    when it is empty. *)
Inductive loaded : Type :=
| Loaded (lot_sizes : lot_dict)
| RuntimeError.

(** The second half of [_load_lot_sizes], from the file chosen. *)
Definition parse_lot_sizes (file : cache_read) : loaded :=
  let lot_sizes :=
    match file with
    | Rows rows => fst (parse_rows [] (tl rows))
    | _ => []
    end in
  match lot_sizes with
  | [] => RuntimeError
  | _ => Loaded lot_sizes
  end.

(** [f.startswith(prefix)] and [f.endswith(suffix)] *)
Definition startswith (f pre : string) : bool := String.prefix pre f.

Definition endswith (f suffix : string) : bool :=
  (String.length suffix <=? String.length f)%nat
  && String.eqb
       (String.substring (String.length f - String.length suffix)
                         (String.length suffix) f)
       suffix.

(** The files of the cache directory that hold lot sizes. *)
Definition is_lot_file (f : string) : bool :=
  startswith f "fo_mktlots_" && endswith f ".csv".

(** A directory listing: the names [os.listdir] returns, each with its
    modification time ([datetime.fromtimestamp(os.path.getmtime(...))], a
    point on the time line, here in microseconds). *)
Definition listing : Type := list (string * Z).

(** The names [_cleanup_old_cache] passes to [os.remove]; [cutoff_date] is
    [datetime.now() - timedelta(days=7)]. *)
Definition _cleanup_old_cache (dir_exists : bool) (files : listing)
    (cutoff_date : Z) : list string :=
  if negb dir_exists then []
  else
    map fst
        (filter (fun ft => is_lot_file (fst ft) && (snd ft <? cutoff_date)%Z)
                files).

(** The list [cache_files] of [_load_lot_sizes]: the lot-size files less
    than 7 days old. *)
Definition recent_cache_files (files : listing) (cutoff_date : Z) : listing :=
  filter (fun ft => is_lot_file (fst ft) && (cutoff_date <=? snd ft)%Z) files.

(** [cache_files.sort(key=lambda x: x[1], reverse=True)]: the sort is
    stable, so files of the same time keep their order. *)
Fixpoint insert_desc (x : string * Z) (sorted : listing) : listing :=
  match sorted with
  | [] => [x]
  | y :: rest =>
      if (snd y <? snd x)%Z then x :: y :: rest
      else y :: insert_desc x rest
  end.

Definition sort_desc (files : listing) : listing :=
  fold_left (fun sorted x => insert_desc x sorted) files [].

(** Where [_load_lot_sizes] takes the CSV from: today's cache file, the
    most recent cache file less than 7 days old, or a download. *)
Inductive source : Type :=
| Today
| Cached (f : string)
| Download.

(** The first half of [_load_lot_sizes]: [today_exists] is
    [os.path.exists(cache_file)] for today's file, [dir_exists] is
    [os.path.exists(self.cache_dir)]. *)
Definition select_cache (today_exists dir_exists : bool) (files : listing)
    (cutoff_date : Z) : source :=
  if negb today_exists then
    if dir_exists then
      match sort_desc (recent_cache_files files cutoff_date) with
      | (f, _) :: _ => Cached f
      | [] => Download
      end
    else Download
  else Today.

(** [_load_lot_sizes], given what reading each source gives. *)
Definition _load_lot_sizes (today_exists dir_exists : bool) (files : listing)
    (cutoff_date : Z) (read : source -> cache_read) : loaded :=
  parse_lot_sizes (read (select_cache today_exists dir_exists files cutoff_date)).

(** The fetcher [__init__] builds once the lot sizes are loaded. *)
Definition fetcher_of (feed : string -> option (list NseApi.RawItem))
    (lot_sizes : lot_dict) : NseApi.NSEDataFetcher :=
  {| NseApi.get_derivatives_data := feed;
     NseApi.lot_sizes := dict_get lot_sizes |}.

End NseApiCache.

(** ** streamlit_app.py *)

Module StreamlitApp.

Import NseApi.
Local Open Scope string_scope.
Local Open Scope float_scope.

(** The sidebar's numbers. *)
Record Config : Type := {
  atm_lower : float;
  atm_upper : float;
  margin : float
}.

(** [DEFAULT_PREFERENCES] *)
Definition default_config : Config :=
  {| atm_lower := 0.98; atm_upper := 1.05; margin := 0.25 |}.

(** The chained comparison [lo <= x <= hi]. *)
Definition between (lo x hi : float) : bool := (lo <=? x) && (x <=? hi).

(** ['-'.join(expiry_full.split('-')[:2]) if expiry_full else ''] *)
Definition format_expiry (expiry_full : string) : string :=
  if String.eqb expiry_full "" then ""
  else PyStr.join "-" (firstn 2 (PyStr.split "-" expiry_full)).

(** *** Strategy 1: Short Straddle *)

Module Strategy1.

(** A row of [all_opportunities]; [C_plus_P] is the column 'C+P'. *)
Record Opportunity : Type := {
  Symbol : string;
  Current : float;
  Strike : float;
  Expiry : string;
  CALL : float;
  PUT : float;
  C_plus_P : float;
  Investment : Z;
  MAX_Profit : Z;
  MAX_ROI_pct : float;
  Short_Safety : float;
  Long_Safety : float;
  CALL_Vol : Z;
  PUT_Vol : Z
}.

(** A value of the [strikes] dictionary: the slots 'CE' and 'PE'.  Another
    option type is stored under a key of its own that nothing reads. *)
Record OptionsPair : Type := {
  CE : option OptionEntry;
  PE : option OptionEntry
}.

Definition empty_pair : OptionsPair := {| CE := None; PE := None |}.

(** [options_pair[opt_type] = opt] *)
Definition set_slot (options_pair : OptionsPair) (opt_type : option string)
    (opt : OptionEntry) : OptionsPair :=
  if eq_str opt_type "CE" then {| CE := Some opt; PE := PE options_pair |}
  else if eq_str opt_type "PE" then {| CE := CE options_pair; PE := Some opt |}
  else options_pair.

(** The [defaultdict] [strikes]: its items in insertion order.  Keys are
    compared as Python compares floats ([==]). *)
Definition strikes_dict : Type := list (float * OptionsPair).

(** [strikes[strike][opt_type] = opt] *)
Fixpoint assign (strikes : strikes_dict) (strike : float)
    (opt_type : option string) (opt : OptionEntry) : strikes_dict :=
  match strikes with
  | [] => [(strike, set_slot empty_pair opt_type opt)]
  | (k, options_pair) :: rest =>
      if k =? strike then (k, set_slot options_pair opt_type opt) :: rest
      else (k, options_pair) :: assign rest strike opt_type opt
  end.

(** The grouping loop: only strikes within the ATM range enter [strikes]. *)
Definition group_by_strike (cfg : Config) (current_price : float)
    (options : list OptionEntry) : strikes_dict :=
  fold_left
    (fun strikes opt =>
       if between (atm_lower cfg * current_price) (strike opt)
                  (atm_upper cfg * current_price)
       then assign strikes (strike opt) (option_type opt) opt
       else strikes)
    options [].

(** The body of the loop over [strikes.items()]. *)
Definition straddle_of (cfg : Config) (sym : string) (current_price : float)
    (lot_size : Z) (item : float * OptionsPair)
    : result (option Opportunity) :=
  let (strike, options_pair) := item in
  match CE options_pair, PE options_pair with
  | Some ce_opt, Some pe_opt =>
      let call_premium := last_price ce_opt in
      let put_premium := last_price pe_opt in
      let call_volume := volume ce_opt in
      let put_volume := volume pe_opt in
      let expiry := format_expiry (expiry_date ce_opt) in
      if (call_premium =? 0) || (put_premium =? 0) then Ok None
      else
        lot <- PyFloat.of_int lot_size ;;
        let combined_premium := call_premium + put_premium in
        let investment := margin cfg * 2 * lot * current_price in
        let max_profit := combined_premium * lot in
        ratio <- PyFloat.truediv max_profit investment ;;
        let max_roi := ratio * 100 in
        let short_safety := strike - combined_premium in
        let long_safety := strike + combined_premium in
        investment_int <- PyFloat.to_int investment ;;
        max_profit_int <- PyFloat.to_int max_profit ;;
        Ok (Some {| Symbol := sym;
                    Current := current_price;
                    Strike := strike;
                    Expiry := expiry;
                    CALL := call_premium;
                    PUT := put_premium;
                    C_plus_P := PyFloat.round2 combined_premium;
                    Investment := investment_int;
                    MAX_Profit := max_profit_int;
                    MAX_ROI_pct := PyFloat.round2 max_roi;
                    Short_Safety := PyFloat.round2 short_safety;
                    Long_Safety := PyFloat.round2 long_safety;
                    CALL_Vol := call_volume;
                    PUT_Vol := put_volume |})
  | _, _ => Ok None
  end.

(** The body of the loop over the months, from the options fetched for one
    month. *)
Definition straddles_of_options (cfg : Config) (sym : string)
    (current_price : float) (lot_size : Z) (options : list OptionEntry)
    : list Opportunity * outcome :=
  for_each (fun item => appending (straddle_of cfg sym current_price lot_size item))
           (group_by_strike cfg current_price options).

(** What the [try] block does for one symbol once the price and the lot
    size are known; [fetch month] is [get_options_data(symbol, month)]. *)
Definition evaluate_short_straddle (cfg : Config) (sym : string)
    (current_price : float) (lot_size : Z)
    (fetch : string -> result (list OptionEntry)) (months : list string)
    : list Opportunity * outcome :=
  if current_price =? 0 then ([], Done)
  else
    for_each
      (fun month =>
         match fetch month with
         | Ok options =>
             straddles_of_options cfg sym current_price lot_size options
         | Raise e => ([], Raised e)
         end)
      months.

(** The [try] block for one symbol. *)
Definition short_straddle_symbol (cfg : Config) (fetcher : NSEDataFetcher)
    (months : list string) (sym : string) : list Opportunity * outcome :=
  let current_price := get_stock_price fetcher sym in
  match get_lot_size fetcher sym with
  | Ok lot_size =>
      evaluate_short_straddle cfg sym current_price lot_size
        (fun month => get_options_data fetcher sym (Some month)) months
  | Raise e => ([], Raised e)
  end.

(** The list [all_opportunities] after the loop over the stocks: an
    exception is caught per symbol and reported as a warning. *)
Definition all_opportunities (cfg : Config) (fetcher : NSEDataFetcher)
    (selected_stocks selected_months : list string) : list Opportunity :=
  flat_map (fun sym => fst (short_straddle_symbol cfg fetcher selected_months sym))
           selected_stocks.

End Strategy1.

(** *** Strategy 2: Covered Call *)

Module Strategy2.

(** A row of [all_opportunities2]. *)
Record Opportunity : Type := {
  Symbol : string;
  Current : float;
  Strike : float;
  Expiry : string;
  CALL : float;
  Investment : Z;
  MAX_Profit : Z;
  MAX_ROI_pct : float;
  Safety_Point : float;
  Safety_pct : float;
  CALL_Vol : Z
}.

(** The body of the loop over the options. *)
Definition covered_call_of (cfg : Config) (sym : string)
    (current_price : float) (lot_size : Z) (opt : OptionEntry)
    : result (option Opportunity) :=
  if negb (eq_str (option_type opt) "CE") then Ok None
  else
    let strike := strike opt in
    if negb (between (0.999 * current_price) strike
                     (atm_upper cfg * current_price))
    then Ok None
    else
      let call_premium := last_price opt in
      let call_volume := volume opt in
      let expiry := format_expiry (expiry_date opt) in
      if call_premium =? 0 then Ok None
      else
        lot <- PyFloat.of_int lot_size ;;
        investment <- PyFloat.to_int (margin cfg * lot * current_price) ;;
        let interest :=
          PyFloat.round2 (0.01 * margin cfg * lot * current_price) in
        let profit := (strike - current_price + call_premium) * lot - interest in
        max_profit <- PyFloat.to_int profit ;;
        divisor <- PyFloat.of_int investment ;;
        roi <- PyFloat.truediv (100 * profit) divisor ;;
        let max_roi := PyFloat.round2 roi in
        let safety_point :=
          PyFloat.round2 (1.003 * current_price - call_premium) in
        cushion <- PyFloat.truediv (call_premium - 0.003 * current_price)
                                   current_price ;;
        let safety_pct := PyFloat.round2 (cushion * 100) in
        Ok (Some {| Symbol := sym;
                    Current := current_price;
                    Strike := strike;
                    Expiry := expiry;
                    CALL := call_premium;
                    Investment := investment;
                    MAX_Profit := max_profit;
                    MAX_ROI_pct := max_roi;
                    Safety_Point := safety_point;
                    Safety_pct := safety_pct;
                    CALL_Vol := call_volume |}).

Definition covered_calls_of_options (cfg : Config) (sym : string)
    (current_price : float) (lot_size : Z) (options : list OptionEntry)
    : list Opportunity * outcome :=
  for_each (fun opt => appending (covered_call_of cfg sym current_price lot_size opt))
           options.

(** What the [try] block does for one symbol once the price and the lot
    size are known. *)
Definition evaluate_covered_call (cfg : Config) (sym : string)
    (current_price : float) (lot_size : Z)
    (fetch : string -> result (list OptionEntry)) (months : list string)
    : list Opportunity * outcome :=
  if current_price =? 0 then ([], Done)
  else
    for_each
      (fun month =>
         match fetch month with
         | Ok options =>
             covered_calls_of_options cfg sym current_price lot_size options
         | Raise e => ([], Raised e)
         end)
      months.

Definition covered_call_symbol (cfg : Config) (fetcher : NSEDataFetcher)
    (months : list string) (sym : string) : list Opportunity * outcome :=
  let current_price := get_stock_price fetcher sym in
  match get_lot_size fetcher sym with
  | Ok lot_size =>
      evaluate_covered_call cfg sym current_price lot_size
        (fun month => get_options_data fetcher sym (Some month)) months
  | Raise e => ([], Raised e)
  end.

Definition all_opportunities2 (cfg : Config) (fetcher : NSEDataFetcher)
    (selected_stocks selected_months : list string) : list Opportunity :=
  flat_map (fun sym => fst (covered_call_symbol cfg fetcher selected_months sym))
           selected_stocks.

End Strategy2.

End StreamlitApp.

(** * Properties *)

(** ** What the rows are stated to satisfy *)

Module Rows.

Import NseApi StreamlitApp.
Local Open Scope string_scope.
Local Open Scope float_scope.

(** An entry of the feed for PNB, expiring 30-Dec-2025. *)
Definition pnb (option_type : string) (strike last_price : float)
  : OptionEntry :=
  {| symbol := "PNB";
     expiry_date := "30-Dec-2025";
     expiry_month := "Dec";
     option_type := Some option_type;
     strike := strike;
     last_price := last_price;
     volume := 10;
     open_interest := 5;
     underlying_value := 120 |}.

(** A leg found in a slot of [strikes]: an entry of the month's options, of
    that type, whose strike equals the key. *)
Definition leg_of (options : list OptionEntry) (k : float) (ty : string)
    (slot : option OptionEntry) : Prop :=
  forall o, slot = Some o ->
    In o options /\ option_type o = Some ty /\ (k =? strike o) = true.

Definition bucket_ok (cfg : Config) (current_price : float)
    (options : list OptionEntry) (item : float * Strategy1.OptionsPair)
  : Prop :=
  between (atm_lower cfg * current_price) (fst item)
          (atm_upper cfg * current_price) = true /\
  leg_of options (fst item) "CE" (Strategy1.CE (snd item)) /\
  leg_of options (fst item) "PE" (Strategy1.PE (snd item)).

(** The metrics of a short-straddle row, as the metrics block computes them,
    in terms of the row's own premiums, strike and price. *)
Definition straddle_metrics (cfg : Config) (lot_size : Z)
    (r : Strategy1.Opportunity) : Prop :=
  exists lot : float,
    PyFloat.of_int lot_size = Ok lot /\
    let combined_premium := Strategy1.CALL r + Strategy1.PUT r in
    let investment := margin cfg * 2 * lot * Strategy1.Current r in
    let max_profit := combined_premium * lot in
    Strategy1.C_plus_P r = PyFloat.round2 combined_premium /\
    PyFloat.to_int investment = Ok (Strategy1.Investment r) /\
    PyFloat.to_int max_profit = Ok (Strategy1.MAX_Profit r) /\
    (investment =? 0) = false /\
    Strategy1.MAX_ROI_pct r = PyFloat.round2 (max_profit / investment * 100) /\
    Strategy1.Short_Safety r =
      PyFloat.round2 (Strategy1.Strike r - combined_premium) /\
    Strategy1.Long_Safety r =
      PyFloat.round2 (Strategy1.Strike r + combined_premium).

(** The legs of a short-straddle row among the month's options. *)
Definition straddle_legs (options : list OptionEntry)
    (r : Strategy1.Opportunity) : Prop :=
  exists ce pe : OptionEntry,
    In ce options /\ In pe options /\
    option_type ce = Some "CE" /\ option_type pe = Some "PE" /\
    (Strategy1.Strike r =? strike ce) = true /\
    (Strategy1.Strike r =? strike pe) = true /\
    Strategy1.CALL r = last_price ce /\
    Strategy1.PUT r = last_price pe.

(** The holding cost of a covered call. *)
Definition interest_of (cfg : Config) (lot current_price : float) : float :=
  PyFloat.round2 (0.01 * margin cfg * lot * current_price).

(** The profit of a covered call before it is cast to an int. *)
Definition profit_of (cfg : Config) (lot : float) (r : Strategy2.Opportunity)
  : float :=
  (Strategy2.Strike r - Strategy2.Current r + Strategy2.CALL r) * lot
  - interest_of cfg lot (Strategy2.Current r).

(** The metrics of a covered-call row, as the metrics block computes them,
    in terms of the row's own premium, strike and price. *)
Definition covered_call_metrics (cfg : Config) (lot_size : Z)
    (r : Strategy2.Opportunity) : Prop :=
  exists lot divisor : float,
    PyFloat.of_int lot_size = Ok lot /\
    PyFloat.to_int (margin cfg * lot * Strategy2.Current r)
      = Ok (Strategy2.Investment r) /\
    PyFloat.to_int (profit_of cfg lot r) = Ok (Strategy2.MAX_Profit r) /\
    PyFloat.of_int (Strategy2.Investment r) = Ok divisor /\
    (divisor =? 0) = false /\
    Strategy2.MAX_ROI_pct r
      = PyFloat.round2 (100 * profit_of cfg lot r / divisor) /\
    Strategy2.Safety_Point r
      = PyFloat.round2 (1.003 * Strategy2.Current r - Strategy2.CALL r) /\
    (Strategy2.Current r =? 0) = false /\
    Strategy2.Safety_pct r
      = PyFloat.round2 ((Strategy2.CALL r - 0.003 * Strategy2.Current r)
                        / Strategy2.Current r * 100).

(** The entries a covered-call pass makes a row of. *)
Definition qualifies (cfg : Config) (current_price : float)
    (opt : OptionEntry) : bool :=
  eq_str (option_type opt) "CE"
  && between (0.999 * current_price) (strike opt)
             (atm_upper cfg * current_price)
  && negb (last_price opt =? 0).

(** A feed record: a stock option for PNB expiring 30-Dec-2025. *)
Definition raw (option_type strike_price : string) (last_price : float)
  : RawItem :=
  {| instrumentType := Some "OPTSTK";
     optionType := Some option_type;
     expiryDate := Some "30-Dec-2025";
     strikePrice := Some strike_price;
     lastPrice := Some last_price;
     totalTradedVolume := Some 10%Z;
     openInterest := Some 5%Z;
     underlyingValue := Some 120 |}.

(** A session whose feed is the same list of records for every symbol. *)
Definition session (items : list RawItem) : NSEDataFetcher :=
  {| get_derivatives_data := fun _ => Some items;
     lot_sizes := fun _ => Some 8000%Z |}.

(** The stock-option records of the feed carry the option type CE or PE and
    a strike that is not negative. *)
Definition feed_ok (self : NSEDataFetcher) (sym : string) : Prop :=
  forall items item,
    get_derivatives_data self sym = Some items -> In item items ->
    eq_str (instrumentType item) "OPTSTK" = true ->
    (optionType item = Some "CE" \/ optionType item = Some "PE") /\
    forall k, parse_strike item = Ok k -> (0 <=? k) = true.

(** The short straddle of the worked example: PNB at 120, lot size 8000,
    call 3.5 and put 3.2 at strike 120. *)
Definition pnb_straddle : Strategy1.Opportunity :=
  {| Strategy1.Symbol := "PNB";
     Strategy1.Current := 120;
     Strategy1.Strike := 120;
     Strategy1.Expiry := "30-Dec";
     Strategy1.CALL := 3.5;
     Strategy1.PUT := 3.2;
     Strategy1.C_plus_P := 6.7;
     Strategy1.Investment := 480000;
     Strategy1.MAX_Profit := 53600;
     Strategy1.MAX_ROI_pct := 11.17;
     Strategy1.Short_Safety := 113.3;
     Strategy1.Long_Safety := 126.7;
     Strategy1.CALL_Vol := 10;
     Strategy1.PUT_Vol := 10 |}.

(** The covered call of the worked example: PNB at 120, lot size 8000, call
    3.0 at strike 125. *)
Definition pnb_covered_call : Strategy2.Opportunity :=
  {| Strategy2.Symbol := "PNB";
     Strategy2.Current := 120;
     Strategy2.Strike := 125;
     Strategy2.Expiry := "30-Dec";
     Strategy2.CALL := 3;
     Strategy2.Investment := 240000;
     Strategy2.MAX_Profit := 61600;
     Strategy2.MAX_ROI_pct := 25.67;
     Strategy2.Safety_Point := 117.36;
     Strategy2.Safety_pct := 2.2;
     Strategy2.CALL_Vol := 10 |}.

(** A configuration with a margin of 15%. *)
Definition margin_15 : Config :=
  {| atm_lower := 0.98; atm_upper := 1.05; margin := 0.15 |}.

(** The records [get_options_data] makes an entry of: stock options of the
    month asked for, when a month is asked for. *)
Definition selected (expiry_month : option string) (item : RawItem) : bool :=
  eq_str (instrumentType item) "OPTSTK"
  && match expiry_month with
     | Some m =>
         String.eqb m ""
         || String.eqb (month_of (get (expiryDate item) "")) m
     | None => true
     end.

(** A float that is a zero of either sign, or not a number. *)
Definition zero_or_nan (x : float) : Prop :=
  (exists s, Prim2SF x = S754_zero s) \/ Prim2SF x = S754_nan.

End Rows.

(** ** Binary64 values as integers *)

Module Binary64.

(** The integer nearest to [a / b], ties to the even integer. *)
Definition rne (a b : Z) : Z :=
  let q := a / b in
  let r := a mod b in
  match 2 * r ?= b with
  | Lt => q
  | Gt => q + 1
  | Eq => if Z.even q then q else q + 1
  end.

(** The value of a float in units of [2^-1074], the least positive float:
    an integer.  The infinities stand at [2^1024], the first power of two
    that is not a float. *)
Definition cap : Z := 2 ^ 2098.

Definition ulps (x : spec_float) : Z :=
  match x with
  | S754_finite s m e => cond_Zopp s (Z.pos m * 2 ^ (e + 1074))
  | S754_infinity s => cond_Zopp s cap
  | _ => 0
  end.

(** The float nearest to [a / b] units (ties to even), for [0 <= a] and
    [0 < b]: the mantissa keeps 53 bits. *)
Definition rnd (a b : Z) : Z :=
  let s := Z.max 0 (Zdigits2 (a / b) - 53) in
  Z.min cap (rne a (b * 2 ^ s) * 2 ^ s).

(** The same for a value of either sign. *)
Definition srnd (a b : Z) : Z :=
  if 0 <=? a then rnd a b else - rnd (- a) b.

(** A shift record [mrs] holds [P / Q]: its mantissa is the integer part,
    its round bit tells whether the rest is a half or more, its sticky bit
    whether the rest differs from zero and from a half. *)
Definition rec_ok (P Q : Z) (mrs : shr_record) : Prop :=
  shr_m mrs = P / Q /\
  shr_r mrs = (Q <=? 2 * (P mod Q)) /\
  shr_s mrs = negb ((P mod Q =? 0) || (2 * (P mod Q) =? Q)).

(** The second half of [binary_round_aux]: the rounded mantissa is brought
    back to 53 bits and the exponent is checked. *)
Definition stage2 (sx : bool) (m1 e1 : Z) : spec_float :=
  let '(mrs, e2) := shr_fexp prec emax m1 e1 loc_Exact in
  match shr_m mrs with
  | 0 => S754_zero sx
  | Z.pos m => if e2 <=? emax - prec then S754_finite sx m e2
               else S754_infinity sx
  | Z.neg _ => S754_nan
  end.

Definition finite_or_zero (x : spec_float) : bool :=
  match x with
  | S754_zero _ | S754_finite _ _ _ => true
  | _ => false
  end.

(** A float that is a number and not an infinity. *)
Definition is_finite (x : float) : Prop :=
  finite_or_zero (Prim2SF x) = true.

(** The value of a float that is a number, as a rational. *)
Definition value (x : float) : Q :=
  inject_Z (ulps (Prim2SF x)) / inject_Z (2 ^ 1074).

(** [round(x, 2)] on values: [100 * x] rounded to an integer [n], then
    [n / 100] rounded to a float. *)
Definition cents (u : Z) : Z := rne (100 * u) (2 ^ 1074).

Definition round2_ulps (u : Z) : Z :=
  if 0 <=? u then rnd (cents u * 2 ^ 1074) 100
  else - rnd (cents (- u) * 2 ^ 1074) 100.

End Binary64.

(** ** What the entries, the rows and the lot sizes are stated to be *)

Module Views.

Import NseApi StreamlitApp NseApiCache.
Local Open Scope string_scope.
Local Open Scope float_scope.

(** The entry [get_options_data] appends for a record whose strike parsed
    to [k]. *)
Definition entry_of (sym : string) (item : RawItem) (k : float)
  : OptionEntry :=
  {| symbol := sym;
     expiry_date := get (expiryDate item) "";
     expiry_month := month_of (get (expiryDate item) "");
     option_type := optionType item;
     strike := k;
     last_price := get (lastPrice item) 0;
     volume := get (totalTradedVolume item) 0%Z;
     open_interest := get (openInterest item) 0%Z;
     underlying_value := get (underlyingValue item) 0 |}.

(** A futures record of the feed of PNB, with a strike that is no number. *)
Definition pnb_future : RawItem :=
  {| instrumentType := Some "FUTSTK";
     optionType := None;
     expiryDate := Some "30-Dec-2025";
     strikePrice := Some "-";
     lastPrice := Some 121.5;
     totalTradedVolume := Some 10%Z;
     openInterest := Some 5%Z;
     underlyingValue := Some 120 |}.

(** The dash of a date such as [30-Dec-2025]. *)
Definition dash : ascii := "-"%char.

(** An entry that the grouping loop of the straddle stores under the key
    [k], in the slot [ty]. *)
Definition stored_under (cfg : Config) (current_price k : float)
    (ty : string) (opt : OptionEntry) : bool :=
  between (atm_lower cfg * current_price) (strike opt)
          (atm_upper cfg * current_price)
  && (k =? strike opt)
  && eq_str (option_type opt) ty.

(** The last element of a list that satisfies [p]. *)
Definition last_such {A : Type} (p : A -> bool) (l : list A) : option A :=
  fold_left (fun found a => if p a then Some a else found) l None.

(** What the grouping loop of the straddle has built in [strikes] once it
    has read the entries [l]: keys that differ from one another; under
    each key, in each slot, the last entry stored there; and a key for
    every strike within the range. *)
Definition grouped (cfg : Config) (current_price : float)
    (l : list OptionEntry) (strikes : Strategy1.strikes_dict) : Prop :=
  ForallOrdPairs (fun a b => (fst a =? fst b) = false) strikes /\
  Forall (fun item =>
            (fst item =? fst item) = true /\
            Strategy1.CE (snd item)
            = last_such (stored_under cfg current_price (fst item) "CE") l /\
            Strategy1.PE (snd item)
            = last_such (stored_under cfg current_price (fst item) "PE") l)
         strikes /\
  forall o, In o l ->
    between (atm_lower cfg * current_price) (strike o)
            (atm_upper cfg * current_price) = true ->
    Exists (fun item => (fst item =? strike o) = true) strikes.

(** The cell of a CSV row that gives its lot size: the cells before it are
    empty or not numbers, and it is all digits once stripped. *)
Definition lot_cell (cells : list string) (value : string) : Prop :=
  exists before cell after,
    cells = (before ++ cell :: after)%list /\
    value = PyStr.strip cell /\
    isdigit value = true /\
    Forall (fun c => isdigit (PyStr.strip c) = false) before.

(** A row of the CSV that gives [symbol] the lot size [n]. *)
Definition gives (row : list string) (symbol : string) (n : Z) : Prop :=
  (1 < List.length row)%nat /\
  symbol = PyStr.strip (nth 1 row "") /\
  symbol <> "" /\ symbol <> "Symbol" /\
  exists value,
    lot_cell (skipn 2 row) value /\
    int_of_digits value = Ok n /\ (0 < n)%Z.

(** A lot-size file: the header, a row that repeats it, two rows for PNB
    and one for BHEL. *)
Definition lot_csv_header : list string :=
  ["UNDERLYING"; "SYMBOL"; "DEC-25"; "JAN-26"].

Definition lot_csv_before : list (list string) :=
  [["Derivatives on Individual Securities"; "Symbol "; " "; " "];
   ["PUNJAB NATIONAL BANK"; "PNB"; "4000"; "4000"]].

Definition lot_csv_row : list string :=
  ["PUNJAB NATIONAL BANK"; " PNB "; " "; " 8000 "].

Definition lot_csv_after : list (list string) :=
  [["BHARAT HEAVY ELECTRICALS"; "BHEL"; "2625"; "2625"]].

Definition lot_csv : list (list string) :=
  lot_csv_header :: (lot_csv_before ++ lot_csv_row :: lot_csv_after)%list.

(** A cache directory: three lot-size files and the preferences, with
    their times; the cutoff of the examples is 400. *)
Definition cache_listing : listing :=
  [("fo_mktlots_2025-12-01.csv", 100%Z);
   ("preferences.json", 900%Z);
   ("fo_mktlots_2025-12-20.csv", 700%Z);
   ("fo_mktlots_2025-12-18.csv", 500%Z)].

(** The symbol of a row that has one. *)
Definition symbol_of (row : list string) : option string :=
  if (1 <? List.length row)%nat then Some (PyStr.strip (nth 1 row ""))
  else None.

(** A pair of [strikes] that gets to the metrics block of the straddle: both
    legs are there and neither premium is zero. *)
Definition priced_pair (item : float * Strategy1.OptionsPair) : bool :=
  match Strategy1.CE (snd item), Strategy1.PE (snd item) with
  | Some ce, Some pe => negb ((last_price ce =? 0) || (last_price pe =? 0))
  | _, _ => false
  end.

(** The rows a covered-call pass has made of the entries [reached]: one row
    for each of them, in their order. *)
Definition rows_of (cfg : Config) (sym : string) (current_price : float)
    (lot_size : Z) (reached : list OptionEntry)
    (rows : list Strategy2.Opportunity) : Prop :=
  Forall2 (fun opt r =>
             Strategy2.covered_call_of cfg sym current_price lot_size opt
             = Ok (Some r))
          reached rows.

(** A month of a covered-call evaluation that ran to its end: its options
    were fetched, and [rows] holds one row for each qualifying entry. *)
Definition month_done (cfg : Config) (sym : string) (current_price : float)
    (lot_size : Z) (fetch : string -> result (list OptionEntry))
    (month : string) (rows : list Strategy2.Opportunity) : Prop :=
  exists options,
    fetch month = Ok options /\
    rows_of cfg sym current_price lot_size
            (filter (Rows.qualifies cfg current_price) options) rows.

(** A month that the exception [e] cut short: the fetch raised it, and
    there is no row; or the metrics of a qualifying entry raised it, and
    [rows] holds one row for each qualifying entry before that one. *)
Definition month_cut (cfg : Config) (sym : string) (current_price : float)
    (lot_size : Z) (fetch : string -> result (list OptionEntry))
    (month : string) (rows : list Strategy2.Opportunity) (e : exn) : Prop :=
  (fetch month = Raise e /\ rows = []) \/
  exists options reached opt rest,
    fetch month = Ok options /\
    filter (Rows.qualifies cfg current_price) options
    = (reached ++ opt :: rest)%list /\
    rows_of cfg sym current_price lot_size reached rows /\
    Strategy2.covered_call_of cfg sym current_price lot_size opt = Raise e.

(** Strike texts outside ASCII: [120.00] after a no-break space, and 120
    in Arabic-Indic digits. *)
Definition strike_after_nbsp : string :=
  String "194"%char (String "160"%char "120.00").

Definition strike_arabic_indic : string :=
  String "217"%char (String "161"%char
    (String "217"%char (String "162"%char
       (String "217"%char (String "160"%char ""))))).

(** The options of the months of an example: December has three calls, the
    second with an infinite premium; January has one. *)
Definition two_months (month : string) : result (list OptionEntry) :=
  if String.eqb month "Nov" then Ok [Rows.pnb "CE" 125 3]
  else if String.eqb month "Dec"
  then Ok [Rows.pnb "CE" 125 3; Rows.pnb "CE" 125 infinity;
           Rows.pnb "CE" 125 3]
  else Ok [Rows.pnb "CE" 125 3].

End Views.

(** ** Loops and results *)

Section ForEach.

Context {A R : Type}.
Variable body : A -> list R * outcome.

(** A record of the list was appended by some iteration. *)
Lemma for_each_In (l : list A) (r : R) :
  In r (fst (for_each body l)) -> exists a, In a l /\ In r (fst (body a)).
Proof.
  induction l as [|a l IH]; simpl; [tauto|].
  destruct (body a) as [rs o] eqn:Hb.
  destruct o as [|e].
  - destruct (for_each body l) as [rs' o'] eqn:Hf. simpl in *.
    intros H. apply in_app_or in H. destruct H as [H|H].
    + exists a. rewrite Hb. auto.
    + destruct (IH H) as (a' & Ha' & Hr). exists a'. auto.
  - simpl. intros H. exists a. rewrite Hb. auto.
Qed.

(** A loop that ran to its end ran every iteration to its end. *)
Lemma for_each_done (l : list A) (rs : list R) :
  for_each body l = (rs, Done) ->
  rs = flat_map (fun a => fst (body a)) l /\
  Forall (fun a => snd (body a) = Done) l.
Proof.
  revert rs. induction l as [|a l IH]; simpl; intros rs H.
  - inversion H. auto.
  - destruct (body a) as [rs1 o] eqn:Hb. destruct o as [|e]; [|discriminate].
    destruct (for_each body l) as [rs' o'] eqn:Hf.
    inversion H; subst. destruct (IH rs' eq_refl) as [-> HF].
    split; [reflexivity|]. constructor; [rewrite Hb; reflexivity|assumption].
Qed.

(** No iteration appends: the list stays empty. *)
Lemma for_each_nil (l : list A) :
  (forall a, In a l -> fst (body a) = []) -> fst (for_each body l) = [].
Proof.
  induction l as [|a l IH]; simpl; intros H; [reflexivity|].
  pose proof (H a (or_introl eq_refl)) as Ha.
  destruct (body a) as [rs o]. simpl in Ha. subst rs.
  destruct o as [|e]; [|reflexivity].
  destruct (for_each body l) as [rs' o'] eqn:Hf. simpl in *.
  apply IH. intros a' Ha'. apply H. auto.
Qed.

(** A loop that an exception left: the iterations before it ran to their
    end, and the records are theirs and those of the iteration that raised. *)
Lemma for_each_raised (l : list A) (rs : list R) (e : exn) :
  for_each body l = (rs, Raised e) ->
  exists before a after rs',
    l = before ++ a :: after /\
    Forall (fun x => snd (body x) = Done) before /\
    body a = (rs', Raised e) /\
    rs = flat_map (fun x => fst (body x)) before ++ rs'.
Proof.
  revert rs. induction l as [|x l IH]; cbn [for_each]; intros rs H;
    [discriminate|].
  destruct (body x) as [rs1 o] eqn:Hb. destruct o as [|e1].
  - destruct (for_each body l) as [rs2 o2] eqn:Hf.
    inversion H; subst rs o2; clear H.
    destruct (IH rs2 eq_refl) as (before & a & after & rs' & -> & HF & Ha & ->).
    exists (x :: before), a, after, rs'. repeat split.
    + constructor; [rewrite Hb; reflexivity|exact HF].
    + exact Ha.
    + cbn [flat_map]. rewrite Hb. cbn [fst]. rewrite app_assoc. reflexivity.
  - inversion H; subst rs e1; clear H.
    exists [], x, l, rs1. repeat split; [constructor|exact Hb].
Qed.

End ForEach.

Lemma appending_In {R : Type} (c : result (option R)) (r : R) :
  In r (fst (appending c)) -> c = Ok (Some r).
Proof.
  destruct c as [[x|]|e]; simpl; intros H; try tauto.
  destruct H as [->|[]]. reflexivity.
Qed.

Lemma bind_Ok {A B : Type} (c : result A) (k : A -> result B) (b : B) :
  bind c k = Ok b -> exists a, c = Ok a /\ k a = Ok b.
Proof.
  destruct c as [a|e]; simpl; [eauto|discriminate].
Qed.

Lemma eq_str_true (v : option string) (s : string) :
  NseApi.eq_str v s = true -> v = Some s.
Proof.
  destruct v as [t|]; simpl; [|discriminate].
  intros H. apply String.eqb_eq in H. congruence.
Qed.

(** A loop whose iterations append nothing: it stops at the first that
    raises. *)
Lemma for_each_first_raise {A R : Type} (f : A -> result (option R))
    (p : A -> bool) (err : A -> exn) (l : list A) :
  (forall a, f a = if p a then Raise (err a) else Ok None) ->
  for_each (fun a => appending (f a)) l
  = ([], match find p l with
         | Some a => Raised (err a)
         | None => Done
         end).
Proof.
  intros H. induction l as [|a l IH]; cbn [for_each find]; [reflexivity|].
  rewrite H. destruct (p a); cbn [appending]; [reflexivity|].
  rewrite IH. reflexivity.
Qed.

Lemma existsb_find {A : Type} (p : A -> bool) (l : list A) :
  existsb p l = match find p l with Some _ => true | None => false end.
Proof.
  induction l as [|a l IH]; cbn [existsb find]; [reflexivity|].
  destruct (p a); [reflexivity|exact IH].
Qed.

(** ** Strings and their characters *)

Module PyStrFacts.

Import PyStr.
Local Open Scope string_scope.

Lemma append_empty_r (s : string) : s ++ "" = s.
Proof.
  induction s as [|c s IH]; cbn [append]; [reflexivity|]. rewrite IH. reflexivity.
Qed.

Lemma concat_cons (x : string) (l : list string) :
  String.concat "" (x :: l) = x ++ String.concat "" l.
Proof.
  destruct l as [|y l]; cbn [String.concat append].
  - symmetry. apply append_empty_r.
  - reflexivity.
Qed.

Lemma chars_cons (c1 : ascii) (s1 : string) :
  chars (String c1 s1)
  = match s1 with
    | String c2 s2 =>
        if is2 c1 c2 then String c1 (String c2 "") :: chars s2
        else
          match s2 with
          | String c3 s3 =>
              if is3 c1 c2 c3
              then String c1 (String c2 (String c3 "")) :: chars s3
              else
                match s3 with
                | String c4 s4 =>
                    if is4 c1 c2 c3 c4
                    then String c1 (String c2 (String c3 (String c4 "")))
                         :: chars s4
                    else String c1 "" :: chars s1
                | EmptyString => String c1 "" :: chars s1
                end
          | EmptyString => String c1 "" :: chars s1
          end
    | EmptyString => [String c1 ""]
    end.
Proof. destruct s1; reflexivity. Qed.

(** [chars] cuts a string and loses nothing of it. *)
Lemma chars_concat (s : string) : String.concat "" (chars s) = s.
Proof.
  assert (G : forall n s, (String.length s <= n)%nat ->
                          String.concat "" (chars s) = s).
  { clear s. induction n as [|n IH]; intros s Hn.
    - destruct s; [reflexivity|cbn in Hn; lia].
    - destruct s as [|c1 s1]; [reflexivity|].
      cbn [String.length] in Hn.
      assert (T : forall t, (String.length t <= String.length s1)%nat ->
                            String.concat "" (chars t) = t).
      { intros t Ht. apply IH. lia. }
      rewrite chars_cons.
      destruct s1 as [|c2 s2]; [reflexivity|].
      destruct (is2 c1 c2).
      { rewrite concat_cons, T by (cbn; lia). reflexivity. }
      destruct s2 as [|c3 s3].
      { rewrite concat_cons, T by (cbn; lia). reflexivity. }
      destruct (is3 c1 c2 c3).
      { rewrite concat_cons, T by (cbn; lia). reflexivity. }
      destruct s3 as [|c4 s4].
      { rewrite concat_cons, T by (cbn; lia). reflexivity. }
      destruct (is4 c1 c2 c3 c4);
        rewrite concat_cons, T by (cbn; lia); reflexivity. }
  apply (G (String.length s)). lia.
Qed.

(** What [strip] returns is a piece of the string. *)
Lemma strip_piece (s : string) :
  exists before after, s = before ++ strip s ++ after.
Proof.
  assert (D : forall l, exists pre, l = (pre ++ drop_spaces l)%list).
  { induction l as [|ch l IH]; cbn [drop_spaces].
    - exists []. reflexivity.
    - destruct (isspace (ord ch)).
      + destruct IH as [pre E]. exists (ch :: pre). cbn [app]. f_equal. exact E.
      + exists []. reflexivity. }
  assert (C : forall a b, String.concat "" (a ++ b)%list
                          = String.concat "" a ++ String.concat "" b).
  { induction a as [|x a IH]; intros b.
    - reflexivity.
    - cbn [app]. rewrite !concat_cons, IH.
      clear. induction x as [|c x IHx]; cbn [append]; [reflexivity|].
      rewrite IHx. reflexivity. }
  destruct (D (chars s)) as [pre E1].
  destruct (D (rev (drop_spaces (chars s)))) as [post E2].
  exists (String.concat "" pre), (String.concat "" (rev post)).
  unfold strip. rewrite <- !C, <- rev_app_distr, <- E2, rev_involutive, <- E1.
  symmetry. apply chars_concat.
Qed.

End PyStrFacts.

(** ** Facts of binary64 arithmetic *)

Module FloatFacts.

Import Rows.
Local Open Scope float_scope.

Lemma SFcompare_refl_finite (s : bool) (m : positive) (e : Z) :
  SFcompare (S754_finite s m e) (S754_finite s m e) = Some Eq.
Proof.
  simpl. rewrite Z.compare_refl, Pos.compare_cont_refl. destruct s; reflexivity.
Qed.

Lemma SFeqb_refl (x : spec_float) : x <> S754_nan -> SFeqb x x = true.
Proof.
  unfold SFeqb. destruct x as [s|s| |s m e]; intros H.
  - reflexivity.
  - destruct s; reflexivity.
  - congruence.
  - rewrite SFcompare_refl_finite. reflexivity.
Qed.

(** Operands of a comparison that holds are not NaN. *)
Lemma leb_not_nan (x y : float) :
  (x <=? y) = true -> (x =? x) = true /\ (y =? y) = true.
Proof.
  rewrite leb_spec, !eqb_spec. unfold SFleb.
  intros H. split; apply SFeqb_refl; intros E; rewrite E in H.
  - discriminate.
  - destruct (Prim2SF x); discriminate.
Qed.

Lemma mul_zero_r (x : float) : zero_or_nan (x * 0).
Proof.
  unfold zero_or_nan. rewrite mul_spec.
  change (Prim2SF 0) with (S754_zero false).
  destruct (Prim2SF x); simpl; eauto.
Qed.

Lemma mul_zero_or_nan_l (x y : float) : zero_or_nan x -> zero_or_nan (x * y).
Proof.
  unfold zero_or_nan. rewrite mul_spec.
  intros [[s ->]| ->]; destruct (Prim2SF y); simpl; eauto.
Qed.

Lemma zero_eqb (x : float) (s : bool) :
  Prim2SF x = S754_zero s -> (x =? 0) = true.
Proof.
  intros H. rewrite eqb_spec, H. reflexivity.
Qed.

Lemma truediv_Ok (x y q : float) :
  PyFloat.truediv x y = Ok q -> (y =? 0) = false /\ q = x / y.
Proof.
  unfold PyFloat.truediv. destruct (y =? 0); [discriminate|].
  intros H. inversion H. auto.
Qed.

(** A divisor that is a zero or NaN: the division raises, or the cast of
    the divisor to an int does. *)
Lemma truediv_to_int_zero_or_nan (x y : float) :
  zero_or_nan y ->
  PyFloat.truediv x y = Raise ZeroDivisionError \/
  PyFloat.to_int y = Raise ValueError.
Proof.
  intros [[s H]|H].
  - left. unfold PyFloat.truediv. rewrite (zero_eqb _ _ H). reflexivity.
  - right. unfold PyFloat.to_int. rewrite H. reflexivity.
Qed.

Lemma to_int_zero_or_nan (y : float) (n : Z) :
  zero_or_nan y -> PyFloat.to_int y = Ok n -> n = 0%Z.
Proof.
  unfold PyFloat.to_int. intros [[s H]|H]; rewrite H; congruence.
Qed.

End FloatFacts.

(** ** Rounding to nearest in binary64 *)

Module Binary64Facts.

Import Binary64.

Lemma rne_floor (a b : Z) : 0 < b -> a / b <= rne a b <= a / b + 1.
Proof.
  intros Hb. unfold rne. destruct (2 * (a mod b) ?= b); try lia.
  destruct (Z.even (a / b)); lia.
Qed.

Lemma rne_exact (k b : Z) : 0 < b -> rne (k * b) b = k.
Proof.
  intros Hb. unfold rne. rewrite Z.div_mul, Z.mod_mul by lia.
  destruct (2 * 0 ?= b) eqn:E; try reflexivity.
  - apply Z.compare_eq in E. lia.
  - apply Z.compare_gt_iff in E. lia.
Qed.

Lemma rne_mono (a1 a2 b : Z) : 0 < b -> a1 <= a2 -> rne a1 b <= rne a2 b.
Proof.
  intros Hb H.
  pose proof (Z.div_le_mono a1 a2 b Hb H) as Hq.
  destruct (Z.eq_dec (a1 / b) (a2 / b)) as [E|E].
  - assert (Hr : a1 mod b <= a2 mod b).
    { rewrite !Z.mod_eq by lia. rewrite E. lia. }
    unfold rne. rewrite E.
    destruct (Z.compare_spec (2 * (a1 mod b)) b);
      destruct (Z.compare_spec (2 * (a2 mod b)) b);
      try (destruct (Z.even (a2 / b))); lia.
  - pose proof (rne_floor a1 b Hb). pose proof (rne_floor a2 b Hb). lia.
Qed.

Lemma rne_scale (a b c : Z) : 0 < b -> 0 < c -> rne (a * c) (b * c) = rne a b.
Proof.
  intros Hb Hc. unfold rne.
  rewrite Z.div_mul_cancel_r by lia.
  rewrite Z.mul_mod_distr_r by lia.
  replace (2 * (a mod b * c)) with (2 * (a mod b) * c) by ring.
  destruct (Z.compare_spec (2 * (a mod b) * c) (b * c));
    destruct (Z.compare_spec (2 * (a mod b)) b); try reflexivity; nia.
Qed.

Lemma rne_between (a b lo hi : Z) :
  0 < b -> lo * b <= a <= hi * b -> lo <= rne a b <= hi.
Proof.
  intros Hb [H1 H2]. split.
  - rewrite <- (rne_exact lo b Hb). apply rne_mono; assumption.
  - rewrite <- (rne_exact hi b Hb). apply rne_mono; assumption.
Qed.

Lemma digits2_pos_size (p : positive) : digits2_pos p = Pos.size p.
Proof. induction p; simpl; congruence. Qed.

Lemma Zdigits2_log2 (n : Z) : 0 < n -> Zdigits2 n = Z.log2 n + 1.
Proof.
  destruct n as [|p|p]; try lia. intros _. simpl.
  rewrite digits2_pos_size. destruct p; simpl; lia.
Qed.

Lemma Zdigits2_bounds (n : Z) :
  0 < n -> 2 ^ (Zdigits2 n - 1) <= n < 2 ^ Zdigits2 n.
Proof.
  intros H. rewrite Zdigits2_log2 by assumption.
  replace (Z.log2 n + 1 - 1) with (Z.log2 n) by lia.
  replace (Z.log2 n + 1) with (Z.succ (Z.log2 n)) by lia.
  apply Z.log2_spec. assumption.
Qed.

Lemma Zdigits2_unique (n d : Z) :
  0 < d -> 2 ^ (d - 1) <= n < 2 ^ d -> Zdigits2 n = d.
Proof.
  intros Hd H.
  assert (0 < n). { pose proof (Z.pow_pos_nonneg 2 (d - 1)). lia. }
  rewrite Zdigits2_log2 by assumption.
  rewrite (Z.log2_unique n (d - 1)); [lia|lia|].
  replace (Z.succ (d - 1)) with d by lia. assumption.
Qed.

Lemma Zdigits2_nonneg (n : Z) : 0 <= Zdigits2 n.
Proof. destruct n; simpl; lia. Qed.

Lemma Zdigits2_pos (n : Z) : 0 < n -> 0 < Zdigits2 n.
Proof. destruct n; simpl; lia. Qed.

Lemma Zdigits2_mono (m n : Z) : 0 <= m <= n -> Zdigits2 m <= Zdigits2 n.
Proof.
  intros [H0 H]. destruct (Z.eq_dec m 0) as [->|Hm].
  - apply Zdigits2_nonneg.
  - rewrite !Zdigits2_log2 by lia.
    pose proof (Z.log2_le_mono m n H). lia.
Qed.

(** below 2^d *)
Lemma Zdigits2_lt_pow (n : Z) : 0 <= n -> n < 2 ^ Zdigits2 n.
Proof.
  intros H. destruct (Z.eq_dec n 0) as [->|Hn]; [reflexivity|].
  apply Zdigits2_bounds. lia.
Qed.



Lemma pow2_pos (k : Z) : 0 <= k -> 0 < 2 ^ k.
Proof. intros. apply Z.pow_pos_nonneg; lia. Qed.

Lemma pow2_le (j k : Z) : 0 <= j <= k -> 2 ^ j <= 2 ^ k.
Proof. intros. apply Z.pow_le_mono_r; lia. Qed.

Lemma rnd_mono (a1 a2 b : Z) :
  0 < b -> 0 <= a1 <= a2 -> rnd a1 b <= rnd a2 b.
Proof.
  intros Hb [H0 H]. unfold rnd.
  set (d1 := Zdigits2 (a1 / b)). set (d2 := Zdigits2 (a2 / b)).
  set (s1 := Z.max 0 (d1 - 53)). set (s2 := Z.max 0 (d2 - 53)).
  assert (Hq1 : 0 <= a1 / b) by (apply Z.div_pos; lia).
  assert (Hq : a1 / b <= a2 / b) by (apply Z.div_le_mono; lia).
  assert (Hd : d1 <= d2) by (apply Zdigits2_mono; lia).
  assert (Hs1 : 0 <= s1) by lia.
  assert (Hs2 : 0 <= s2) by lia.
  pose proof (pow2_pos s1 Hs1) as P1. pose proof (pow2_pos s2 Hs2) as P2.
  apply Z.min_le_compat_l.
  destruct (Z.eq_dec s1 s2) as [E|E].
  - rewrite E. apply Z.mul_le_mono_nonneg_r; [lia|].
    apply rne_mono; [nia|lia].
  - assert (Hlt : s1 < s2) by lia.
    assert (Hd2 : 53 < d2) by lia.
    assert (E2 : s2 = d2 - 53) by lia.
    (* upper bound of the left side *)
    assert (U : rne a1 (b * 2 ^ s1) <= 2 ^ 53).
    { apply (rne_between a1 (b * 2 ^ s1) 0 (2 ^ 53)); [nia|].
      split; [lia|].
      pose proof (Zdigits2_lt_pow (a1 / b) Hq1) as B. fold d1 in B.
      assert (B' : a1 < b * 2 ^ d1).
      { pose proof (Z.mul_succ_div_gt a1 b Hb). nia. }
      assert (2 ^ d1 <= 2 ^ 53 * 2 ^ s1).
      { rewrite <- Z.pow_add_r by lia. apply pow2_le.
        unfold d1. pose proof (Zdigits2_nonneg (a1 / b)). lia. }
      nia. }
    (* lower bound of the right side *)
    assert (L : 2 ^ 52 <= rne a2 (b * 2 ^ s2)).
    { apply (rne_between a2 (b * 2 ^ s2) (2 ^ 52) (a2 + 1)); [nia|].
      split; [|nia].
      assert (Hq2 : 0 < a2 / b).
      { destruct (Z.eq_dec (a2 / b) 0) as [Z0|Z0]; [|lia].
        unfold d2 in Hd2. rewrite Z0 in Hd2. simpl in Hd2. lia. }
      pose proof (Zdigits2_bounds (a2 / b) Hq2) as [B _]. fold d2 in B.
      assert (B' : 2 ^ (d2 - 1) * b <= a2).
      { pose proof (Z.mul_div_le a2 b Hb). nia. }
      replace (d2 - 1) with (52 + s2) in B' by lia.
      rewrite Z.pow_add_r in B' by lia. nia. }
    assert (S : 2 ^ s1 * 2 <= 2 ^ s2).
    { replace (2 ^ s1 * 2) with (2 ^ (s1 + 1)).
      - apply pow2_le. lia.
      - rewrite Z.pow_add_r by lia. reflexivity. }
    assert (T : 2 ^ 53 = 2 ^ 52 * 2) by reflexivity.
    nia.
Qed.

Lemma half_divmod (P Q : Z) :
  0 <= P -> 0 < Q ->
  P / (Q * 2) = P / Q / 2 /\
  P mod (Q * 2) = P mod Q + Q * ((P / Q) mod 2).
Proof.
  intros HP HQ. split.
  - rewrite Z.div_div by lia. reflexivity.
  - apply Z.rem_mul_r; lia.
Qed.

Lemma shr_1_ok (P Q : Z) (mrs : shr_record) :
  0 <= P -> 0 < Q -> rec_ok P Q mrs -> rec_ok P (Q * 2) (shr_1 mrs).
Proof.
  intros HP HQ. destruct mrs as [m r s]. unfold rec_ok.
  cbn [shr_m shr_r shr_s shr_1].
  intros (Hm & Hr & Hs).
  destruct (half_divmod P Q HP HQ) as [Ed Em]. rewrite Ed, Em.
  pose proof (Z.mod_pos_bound P Q HQ) as Hb.
  assert (Hq : 0 <= P / Q) by (apply Z.div_pos; lia).
  rewrite <- Hm in *. clear Ed Em.
  assert (Hrs : r || s = negb (P mod Q =? 0)).
  { rewrite Hr, Hs.
    destruct (Z.leb_spec Q (2 * (P mod Q)));
      destruct (Z.eqb_spec (P mod Q) 0);
      destruct (Z.eqb_spec (2 * (P mod Q)) Q); cbn [orb negb];
      try reflexivity; lia. }
  rewrite Hrs. clear Hr Hs Hrs Hm.
  set (r0 := P mod Q) in *.
  assert (D : forall k b, 0 <= b < 2 -> m = 2 * k + b ->
              m / 2 = k /\ m mod 2 = b).
  { intros k b Hb2 E. split.
    - symmetry. apply (Z.div_unique m 2 k b); lia.
    - symmetry. apply (Z.mod_unique m 2 k b); lia. }
  assert (B : forall k b, 0 <= b < 2 -> m = 2 * k + b ->
              b = 0 \/ b = 1 ->
              (Q * 2 <=? 2 * (r0 + Q * b)) = (b =? 1) /\
              negb (r0 =? 0)
              = negb ((r0 + Q * b =? 0) || (2 * (r0 + Q * b) =? Q * 2))).
  { intros k b Hb2 E Hbb. split.
    - destruct (Z.leb_spec (Q * 2) (2 * (r0 + Q * b)));
        destruct (Z.eqb_spec b 1); try reflexivity; nia.
    - f_equal. destruct (Z.eqb_spec r0 0);
        destruct (Z.eqb_spec (r0 + Q * b) 0);
        destruct (Z.eqb_spec (2 * (r0 + Q * b)) (Q * 2)); cbn [orb];
          try reflexivity; nia. }
  destruct m as [|[p|p|]|p]; try lia; cbn [shr_m shr_r shr_s].
  - change (0 / 2) with 0. change (0 mod 2) with 0.
    destruct (B 0 0) as [B1 B2]; [lia|lia|lia|]. rewrite B1, B2. auto.
  - destruct (D (Z.pos p) 1) as [-> ->]; [lia|lia|].
    destruct (B (Z.pos p) 1) as [B1 B2]; [lia|lia|lia|]. rewrite B1, B2. auto.
  - destruct (D (Z.pos p) 0) as [-> ->]; [lia|lia|].
    destruct (B (Z.pos p) 0) as [B1 B2]; [lia|lia|lia|]. rewrite B1, B2. auto.
  - destruct (D 0 1) as [-> ->]; [lia|lia|].
    destruct (B 0 1) as [B1 B2]; [lia|lia|lia|]. rewrite B1, B2. auto.
Qed.

Lemma pow2_xO (p : positive) : 2 ^ Z.pos p~0 = 2 ^ Z.pos p * 2 ^ Z.pos p.
Proof.
  rewrite <- Z.pow_add_r by lia. f_equal. lia.
Qed.

Lemma pow2_xI (p : positive) : 2 ^ Z.pos p~1 = 2 * (2 ^ Z.pos p * 2 ^ Z.pos p).
Proof.
  rewrite <- Z.pow_add_r by lia. rewrite <- Z.pow_succ_r by lia. f_equal. lia.
Qed.

Lemma shr_iter_ok (P : Z) (p : positive) :
  0 <= P ->
  forall Q mrs, 0 < Q -> rec_ok P Q mrs ->
    rec_ok P (Q * 2 ^ Z.pos p) (iter_pos shr_1 p mrs).
Proof.
  intros HP. induction p as [p IH|p IH|]; intros Q mrs HQ H; simpl iter_pos.
  - rewrite pow2_xI.
    replace (Q * (2 * (2 ^ Z.pos p * 2 ^ Z.pos p)))
      with (Q * 2 * 2 ^ Z.pos p * 2 ^ Z.pos p) by ring.
    pose proof (pow2_pos (Z.pos p)).
    apply IH; [nia|]. apply IH; [lia|]. apply shr_1_ok; assumption.
  - rewrite pow2_xO.
    replace (Q * (2 ^ Z.pos p * 2 ^ Z.pos p))
      with (Q * 2 ^ Z.pos p * 2 ^ Z.pos p) by ring.
    pose proof (pow2_pos (Z.pos p)).
    apply IH; [nia|]. apply IH; assumption.
  - replace (Q * 2 ^ 1) with (Q * 2) by ring. apply shr_1_ok; assumption.
Qed.

(** [shr] by [n >= 0] bits. *)
Lemma shr_ok (P Q : Z) (mrs : shr_record) (e n : Z) :
  0 <= P -> 0 < Q -> 0 <= n -> rec_ok P Q mrs ->
  rec_ok P (Q * 2 ^ n) (fst (shr mrs e n)) /\ snd (shr mrs e n) = e + n.
Proof.
  intros HP HQ Hn H. destruct n as [|p|p]; simpl; try lia.
  - rewrite Z.mul_1_r. split; [assumption|lia].
  - split; [|reflexivity]. apply shr_iter_ok; assumption.
Qed.

Lemma round_nearest_even_ok (P Q : Z) (mrs : shr_record) :
  0 <= P -> 0 < Q -> rec_ok P Q mrs ->
  round_nearest_even (shr_m mrs) (loc_of_shr_record mrs) = rne P Q.
Proof.
  intros HP HQ. destruct mrs as [m r s]. unfold rec_ok.
  cbn [shr_m shr_r shr_s].
  intros (-> & -> & ->). unfold rne.
  pose proof (Z.mod_pos_bound P Q HQ) as Hb.
  destruct (Z.compare_spec (2 * (P mod Q)) Q);
    destruct (Z.leb_spec Q (2 * (P mod Q)));
    destruct (Z.eqb_spec (P mod Q) 0);
    destruct (Z.eqb_spec (2 * (P mod Q)) Q);
    cbn [orb negb loc_of_shr_record round_nearest_even];
    try reflexivity; lia.
Qed.

(** An exact integer. *)
Lemma rec_ok_exact (m : Z) : rec_ok m 1 (shr_record_of_loc m loc_Exact).
Proof.
  unfold rec_ok. simpl. rewrite Z.div_1_r, Z.mod_1_r. auto.
Qed.

Lemma fexp_eq (k : Z) : fexp prec emax k = Z.max (k - 53) (-1074).
Proof. reflexivity. Qed.


Lemma binary_round_aux_stage2 (sx : bool) (mx ex : Z) (lx : location) :
  binary_round_aux prec emax sx mx ex lx
  = stage2 sx
      (round_nearest_even (shr_m (fst (shr_fexp prec emax mx ex lx)))
         (loc_of_shr_record (fst (shr_fexp prec emax mx ex lx))))
      (snd (shr_fexp prec emax mx ex lx)).
Proof.
  unfold binary_round_aux, stage2.
  destruct (shr_fexp prec emax mx ex lx) as [mrs e1]. reflexivity.
Qed.

Lemma cap_eq : cap = 2 ^ 53 * 2 ^ 2045.
Proof. unfold cap. rewrite <- Z.pow_add_r by lia. reflexivity. Qed.

Lemma stage2_spec (sx : bool) (m1 e1 : Z) :
  -1074 <= e1 -> 0 < m1 <= 2 ^ 53 -> (2 ^ 52 <= m1 \/ e1 = -1074) ->
  valid_binary (stage2 sx m1 e1) = true /\
  stage2 sx m1 e1 <> S754_nan /\
  ulps (stage2 sx m1 e1) = cond_Zopp sx (Z.min cap (m1 * 2 ^ (e1 + 1074))).
Proof.
  intros He Hm Hn.
  assert (Hk : 0 <= e1 + 1074) by lia.
  pose proof (pow2_pos _ Hk) as Hp.
  destruct (Z.eq_dec m1 (2 ^ 53)) as [E|E].
  - (* the mantissa was rounded up to 2^53 *)
    subst m1.
    assert (E2 : shr_fexp prec emax (2 ^ 53) e1 loc_Exact
                 = ({| shr_m := 2 ^ 52; shr_r := false; shr_s := false |},
                    e1 + 1)).
    { unfold shr_fexp. change (Zdigits2 (2 ^ 53)) with 54. rewrite fexp_eq.
      replace (Z.max (54 + e1 - 53) (-1074) - e1) with 1 by lia.
      reflexivity. }
    unfold stage2. rewrite E2. cbn [shr_m].
    change (2 ^ 52) with (Z.pos 4503599627370496). cbv iota.
    change (emax - prec) with 971.
    assert (V : Z.pos 4503599627370496 * 2 ^ (e1 + 1 + 1074)
                = 2 ^ 53 * 2 ^ (e1 + 1074)).
    { replace (e1 + 1 + 1074) with (1 + (e1 + 1074)) by lia.
      rewrite Z.pow_add_r by lia. change (2 ^ 1) with 2.
      change (Z.pos 4503599627370496) with (2 ^ 52).
      change (2 ^ 53) with (2 ^ 52 * 2). ring. }
    destruct (Z.leb_spec (e1 + 1) 971) as [L|L].
    + repeat split.
      * unfold SpecFloat.valid_binary, bounded, canonical_mantissa.
        change (Z.pos (digits2_pos 4503599627370496)) with 53.
        rewrite fexp_eq. apply andb_true_intro. split.
        -- apply Z.eqb_eq. lia.
        -- apply Z.leb_le. exact L.
      * discriminate.
      * unfold ulps. f_equal. rewrite V. symmetry. apply Z.min_r.
        rewrite cap_eq. apply Z.mul_le_mono_nonneg_l; [lia|].
        apply pow2_le. lia.
    + repeat split.
      * discriminate.
      * unfold ulps. f_equal. symmetry. apply Z.min_l.
        rewrite cap_eq. apply Z.mul_le_mono_nonneg_l; [lia|].
        apply pow2_le. lia.
  - (* the mantissa has at most 53 bits *)
    assert (Hlt : m1 < 2 ^ 53) by lia.
    assert (Hd : Zdigits2 m1 <= 53).
    { pose proof (Zdigits2_bounds m1 (proj1 Hm)) as [B _].
      destruct (Z_lt_le_dec 53 (Zdigits2 m1)) as [G|G]; [|exact G].
      assert (2 ^ 53 <= 2 ^ (Zdigits2 m1 - 1)) by (apply pow2_le; lia).
      lia. }
    assert (Hd' : 2 ^ 52 <= m1 -> Zdigits2 m1 = 53).
    { intros G. apply Zdigits2_unique; [lia|]. change (53 - 1) with 52. lia. }
    assert (Hn2 : fexp prec emax (Zdigits2 m1 + e1) = e1).
    { rewrite fexp_eq. destruct Hn as [G|G].
      - rewrite (Hd' G). lia.
      - lia. }
    assert (E2 : shr_fexp prec emax m1 e1 loc_Exact
                 = ({| shr_m := m1; shr_r := false; shr_s := false |}, e1)).
    { unfold shr_fexp. rewrite Hn2, Z.sub_diag. reflexivity. }
    unfold stage2. rewrite E2. cbn [shr_m].
    destruct m1 as [|pm|pm]; try lia.
    change (emax - prec) with 971.
    destruct (Z.leb_spec e1 971) as [L|L].
    + repeat split.
      * unfold SpecFloat.valid_binary, bounded, canonical_mantissa.
        change (Z.pos (digits2_pos pm)) with (Zdigits2 (Z.pos pm)).
        rewrite Hn2. apply andb_true_intro. split.
        -- apply Z.eqb_eq. reflexivity.
        -- apply Z.leb_le. exact L.
      * discriminate.
      * unfold ulps. f_equal. symmetry. apply Z.min_r.
        rewrite cap_eq.
        assert (2 ^ (e1 + 1074) <= 2 ^ 2045) by (apply pow2_le; lia).
        nia.
    + repeat split.
      * discriminate.
      * unfold ulps. f_equal. symmetry. apply Z.min_l.
        rewrite cap_eq. destruct Hn as [G|G]; [|lia].
        assert (2 ^ 2046 <= 2 ^ (e1 + 1074)) by (apply pow2_le; lia).
        assert (2 ^ 53 * 2 ^ 2045 = 2 ^ 52 * 2 ^ 2046).
        { rewrite <- !Z.pow_add_r by lia. reflexivity. }
        nia.
Qed.

Lemma shr_m_of_loc (m : Z) (l : location) : shr_m (shr_record_of_loc m l) = m.
Proof. destruct l as [|[| |]]; reflexivity. Qed.

(** The digits of [a * 2^k / b] when [a / b] is not zero. *)
Lemma Zdigits2_scaled (P Q k : Z) :
  0 < Q -> 0 <= k -> 0 < P / Q ->
  Zdigits2 (P * 2 ^ k / Q) = Zdigits2 (P / Q) + k.
Proof.
  intros HQ Hk Hq.
  pose proof (Zdigits2_bounds _ Hq) as [B1 B2].
  pose proof (Zdigits2_pos _ Hq) as Hd.
  pose proof (pow2_pos k Hk) as Hp.
  pose proof (Z.mul_div_le P Q HQ) as L1.
  pose proof (Z.mul_succ_div_gt P Q HQ) as L2.
  apply Zdigits2_unique; [lia|].
  replace (Zdigits2 (P / Q) + k - 1) with (Zdigits2 (P / Q) - 1 + k) by lia.
  rewrite !Z.pow_add_r by lia.
  assert (A1 : Q * 2 ^ (Zdigits2 (P / Q) - 1) <= P) by nia.
  assert (A2 : P < Q * 2 ^ Zdigits2 (P / Q)) by nia.
  split.
  - apply Z.div_le_lower_bound; [lia|].
    rewrite Z.mul_assoc. apply Z.mul_le_mono_nonneg_r; lia.
  - apply Z.div_lt_upper_bound; [lia|].
    rewrite Z.mul_assoc. apply Z.mul_lt_mono_pos_r; lia.
Qed.

Lemma binary_round_aux_spec (sx : bool) (mx ex : Z) (lx : location)
    (P Q : Z) :
  0 < mx -> 0 <= P -> 0 < Q ->
  rec_ok P Q (shr_record_of_loc mx lx) ->
  -1074 <= ex -> ex <= fexp prec emax (Zdigits2 mx + ex) ->
  valid_binary (binary_round_aux prec emax sx mx ex lx) = true /\
  binary_round_aux prec emax sx mx ex lx <> S754_nan /\
  ulps (binary_round_aux prec emax sx mx ex lx)
  = cond_Zopp sx (rnd (P * 2 ^ (ex + 1074)) Q).
Proof.
  intros Hmx HP HQ Hrec Hex Hn.
  assert (Em : mx = P / Q).
  { destruct Hrec as [Hm _]. rewrite shr_m_of_loc in Hm. exact Hm. }
  set (d := Zdigits2 mx) in *.
  set (n1 := fexp prec emax (d + ex) - ex).
  assert (Hn1 : 0 <= n1) by (unfold n1; lia).
  pose proof (Zdigits2_bounds mx Hmx) as [B1 B2]. fold d in B1, B2.
  pose proof (Zdigits2_pos mx Hmx) as Hd. fold d in Hd.
  (* the two cases: a normal result, or a result at the least exponent *)
  assert (Hcase : (53 <= d /\ n1 = d - 53) \/ (d < 53 /\ n1 = 0 /\ ex = -1074)).
  { unfold n1 in *. rewrite fexp_eq in *. lia. }
  rewrite binary_round_aux_stage2. unfold shr_fexp. fold d. fold n1.
  destruct (shr_ok P Q (shr_record_of_loc mx lx) ex n1 HP HQ Hn1 Hrec)
    as [Hrec1 He1].
  rewrite He1.
  pose proof (pow2_pos n1 Hn1) as Hp1.
  rewrite (round_nearest_even_ok P (Q * 2 ^ n1)) by (assumption || nia).
  set (m1 := rne P (Q * 2 ^ n1)).
  (* the truncated mantissa *)
  assert (Ef : P / (Q * 2 ^ n1) = mx / 2 ^ n1).
  { rewrite Em. rewrite Z.div_div by lia. reflexivity. }
  pose proof (rne_floor P (Q * 2 ^ n1) ltac:(nia)) as Hfl. fold m1 in Hfl.
  rewrite Ef in Hfl.
  assert (Hup : mx / 2 ^ n1 < 2 ^ 53).
  { apply Z.div_lt_upper_bound; [lia|].
    rewrite <- Z.pow_add_r by lia.
    assert (2 ^ d <= 2 ^ (n1 + 53)) by (apply pow2_le; lia). lia. }
  assert (Hlo : (2 ^ 52 <= mx / 2 ^ n1 /\ 53 <= d) \/
                (0 < mx / 2 ^ n1 /\ ex + n1 = -1074)).
  { destruct Hcase as [[H53 E1]|(H53 & E1 & E2)].
    - left. split; [|exact H53]. apply Z.div_le_lower_bound; [lia|].
      rewrite <- Z.pow_add_r by lia.
      replace (n1 + 52) with (d - 1) by lia. exact B1.
    - right. rewrite E1. rewrite Z.pow_0_r, Z.div_1_r. lia. }
  assert (Hk : 0 <= ex + 1074) by lia.
  pose proof (pow2_pos _ Hk) as Hpk.
  destruct (stage2_spec sx m1 (ex + n1)) as (V & N & U).
  { lia. }
  { lia. }
  { destruct Hlo as [[L _]|[_ L]]; [left; lia|right; exact L]. }
  split; [exact V|]. split; [exact N|].
  rewrite U. f_equal. unfold rnd.
  assert (Hq : 0 < P / Q) by lia.
  rewrite (Zdigits2_scaled P Q (ex + 1074) HQ Hk Hq).
  rewrite <- Em. fold d.
  assert (Es : Z.max 0 (d + (ex + 1074) - 53) = n1 + (ex + 1074)) by lia.
  rewrite Es. f_equal.
  replace (ex + n1 + 1074) with (n1 + (ex + 1074)) by lia.
  f_equal. unfold m1.
  rewrite (Z.pow_add_r 2 n1 (ex + 1074)) by lia.
  rewrite Z.mul_assoc. symmetry. apply rne_scale; nia.
Qed.

(** What [valid_binary] says of a finite float. *)
Lemma valid_finite (s : bool) (m : positive) (e : Z) :
  valid_binary (S754_finite s m e) = true ->
  -1074 <= e <= 971 /\
  Zdigits2 (Z.pos m) <= 53 /\
  (e = -1074 \/ Zdigits2 (Z.pos m) = 53).
Proof.
  unfold SpecFloat.valid_binary, bounded, canonical_mantissa.
  intros H. apply andb_prop in H. destruct H as [H1 H2].
  apply Z.eqb_eq in H1. apply Z.leb_le in H2.
  change (emax - prec) with 971 in H2.
  rewrite fexp_eq in H1.
  change (Z.pos (digits2_pos m)) with (Zdigits2 (Z.pos m)) in H1. lia.
Qed.

Lemma finite_bounds (s : bool) (m : positive) (e : Z) :
  valid_binary (S754_finite s m e) = true ->
  0 < Z.pos m * 2 ^ (e + 1074) < cap /\
  (e = -1074 \/ 2 ^ 52 * 2 ^ (e + 1074) <= Z.pos m * 2 ^ (e + 1074)) /\
  Z.pos m * 2 ^ (e + 1074) < 2 ^ 53 * 2 ^ (e + 1074).
Proof.
  intros V. destruct (valid_finite _ _ _ V) as (He & Hd & Hn).
  assert (Hk : 0 <= e + 1074) by lia.
  pose proof (pow2_pos _ Hk) as Hp.
  pose proof (Zdigits2_bounds (Z.pos m) ltac:(lia)) as [B1 B2].
  assert (U : Z.pos m < 2 ^ 53).
  { assert (2 ^ Zdigits2 (Z.pos m) <= 2 ^ 53).
    { apply pow2_le. pose proof (Zdigits2_nonneg (Z.pos m)). lia. }
    lia. }
  assert (2 ^ (e + 1074) <= 2 ^ 2045) by (apply pow2_le; lia).
  split; [|split].
  - split; [nia|]. rewrite cap_eq. nia.
  - destruct Hn as [Hn|Hn]; [left; exact Hn|right].
    rewrite Hn in B1. change (53 - 1) with 52 in B1. nia.
  - nia.
Qed.

Lemma ulps_bound (x : spec_float) :
  valid_binary x = true -> - cap <= ulps x <= cap.
Proof.
  assert (0 < cap) by reflexivity.
  destruct x as [s|s| |s m e]; intros V; cbn [ulps]; try lia.
  - destruct s; cbn [cond_Zopp]; lia.
  - destruct (finite_bounds _ _ _ V) as (B & _). destruct s; cbn [cond_Zopp]; lia.
Qed.

Ltac cmp_ulps :=
  cbn [SFcompare ulps cond_Zopp]; try reflexivity; f_equal; symmetry;
  first [ apply Z.compare_lt_iff; lia
        | apply Z.compare_gt_iff; lia
        | apply Z.compare_eq_iff; lia ].

(** The order of the floats is the order of their values. *)
Lemma SFcompare_ulps (x y : spec_float) :
  valid_binary x = true -> valid_binary y = true ->
  x <> S754_nan -> y <> S754_nan ->
  SFcompare x y = Some (ulps x ?= ulps y).
Proof.
  assert (C : 0 < cap) by reflexivity.
  intros Vx Vy Nx Ny.
  destruct x as [sx|sx| |sx mx ex]; try congruence;
    destruct y as [sy|sy| |sy my ey]; try congruence.
  - reflexivity.
  - destruct sy; cmp_ulps.
  - destruct (finite_bounds _ _ _ Vy) as (B & _). destruct sy; cmp_ulps.
  - destruct sx; cmp_ulps.
  - destruct sx, sy; cmp_ulps.
  - destruct (finite_bounds _ _ _ Vy) as (B & _). destruct sx, sy; cmp_ulps.
  - destruct (finite_bounds _ _ _ Vx) as (B & _). destruct sx; cmp_ulps.
  - destruct (finite_bounds _ _ _ Vx) as (B & _). destruct sx, sy; cmp_ulps.
  - destruct (finite_bounds _ _ _ Vx) as (Bx & Nx' & Ux).
    destruct (finite_bounds _ _ _ Vy) as (By & Ny' & Uy).
    destruct (valid_finite _ _ _ Vx) as (Hex & _).
    destruct (valid_finite _ _ _ Vy) as (Hey & _).
    set (vx := Z.pos mx * 2 ^ (ex + 1074)) in *.
    set (vy := Z.pos my * 2 ^ (ey + 1074)) in *.
    assert (Hc : match ex ?= ey with
                 | Lt => Lt
                 | Gt => Gt
                 | Eq => Pos.compare_cont Eq mx my
                 end = (vx ?= vy)).
    { destruct (Z.compare_spec ex ey) as [E|L|G].
      - subst ey. unfold vx, vy.
        pose proof (pow2_pos (ex + 1074) ltac:(lia)) as Hp.
        change (Pos.compare_cont Eq mx my) with (Z.pos mx ?= Z.pos my).
        destruct (Z.compare_spec (Z.pos mx) (Z.pos my)); symmetry.
        + apply Z.compare_eq_iff. congruence.
        + apply Z.compare_lt_iff. nia.
        + apply Z.compare_gt_iff. nia.
      - symmetry. apply Z.compare_lt_iff.
        assert (2 ^ 53 * 2 ^ (ex + 1074) <= 2 ^ 52 * 2 ^ (ey + 1074)).
        { rewrite <- !Z.pow_add_r by lia. apply pow2_le. lia. }
        destruct Ny' as [Ny'|Ny']; lia.
      - symmetry. apply Z.compare_gt_iff.
        assert (2 ^ 53 * 2 ^ (ey + 1074) <= 2 ^ 52 * 2 ^ (ex + 1074)).
        { rewrite <- !Z.pow_add_r by lia. apply pow2_le. lia. }
        destruct Nx' as [Nx'|Nx']; lia. }
    unfold SFcompare, ulps. fold vx vy.
    destruct sx, sy; cbn [cond_Zopp]; f_equal.
    + rewrite Z.compare_opp, (Z.compare_antisym vx vy), <- Hc.
      destruct (ex ?= ey); reflexivity.
    + symmetry. apply Z.compare_lt_iff. lia.
    + symmetry. apply Z.compare_gt_iff. lia.
    + exact Hc.
Qed.

Lemma rne_zero (b : Z) : 0 < b -> rne 0 b = 0.
Proof. intros H. apply (rne_exact 0 b H). Qed.

Lemma rnd_nonneg (a b : Z) : 0 < b -> 0 <= a -> 0 <= rnd a b.
Proof.
  intros Hb Ha. unfold rnd.
  set (s := Z.max 0 (Zdigits2 (a / b) - 53)).
  pose proof (pow2_pos s ltac:(lia)) as Hp.
  assert (0 <= rne a (b * 2 ^ s)).
  { apply (rne_between a (b * 2 ^ s) 0 (a + 1)); nia. }
  assert (0 < cap) by reflexivity.
  apply Z.min_glb; nia.
Qed.

Lemma rnd_zero (b : Z) : 0 < b -> rnd 0 b = 0.
Proof.
  intros Hb. unfold rnd. rewrite Z.div_0_l by lia.
  change (Z.max 0 (Zdigits2 0 - 53)) with 0.
  rewrite Z.pow_0_r, !Z.mul_1_r. rewrite rne_zero by assumption. reflexivity.
Qed.

Lemma srnd_mono (a1 a2 b : Z) :
  0 < b -> a1 <= a2 -> srnd a1 b <= srnd a2 b.
Proof.
  intros Hb H. unfold srnd.
  destruct (Z.leb_spec 0 a1); destruct (Z.leb_spec 0 a2); try lia.
  - apply rnd_mono; lia.
  - pose proof (rnd_nonneg (- a1) b Hb ltac:(lia)).
    pose proof (rnd_nonneg a2 b Hb ltac:(lia)). lia.
  - pose proof (rnd_mono (- a2) (- a1) b Hb ltac:(lia)). lia.
Qed.

Lemma srnd_opp (a b : Z) : 0 < b -> srnd (- a) b = - srnd a b.
Proof.
  intros Hb. unfold srnd.
  destruct (Z.leb_spec 0 a); destruct (Z.leb_spec 0 (- a)); try lia.
  - assert (a = 0) by lia. subst a. simpl. rewrite rnd_zero by assumption.
    reflexivity.
  - rewrite Z.opp_involutive. lia.
Qed.

(** The value of a float rounds to itself. *)
Lemma rnd_repr (s : bool) (m : positive) (e : Z) :
  valid_binary (S754_finite s m e) = true ->
  rnd (Z.pos m * 2 ^ (e + 1074)) 1 = Z.pos m * 2 ^ (e + 1074).
Proof.
  intros V. destruct (valid_finite _ _ _ V) as (He & Hd & Hn).
  destruct (finite_bounds _ _ _ V) as (B & _).
  assert (Hk : 0 <= e + 1074) by lia.
  unfold rnd.
  rewrite (Zdigits2_scaled (Z.pos m) 1 (e + 1074)); try lia;
    [|rewrite Z.div_1_r; lia].
  rewrite Z.div_1_r.
  set (t := Z.max 0 (Zdigits2 (Z.pos m) + (e + 1074) - 53)).
  assert (Ht : 0 <= t <= e + 1074).
  { unfold t. pose proof (Zdigits2_pos (Z.pos m)). lia. }
  replace (e + 1074) with (e + 1074 - t + t) at 1 2 by lia.
  rewrite (Z.pow_add_r 2 (e + 1074 - t) t) by lia.
  rewrite Z.mul_assoc, Z.mul_1_l.
  pose proof (pow2_pos t ltac:(lia)).
  rewrite rne_exact by lia.
  apply Z.min_r.
  rewrite <- Z.mul_assoc, <- Z.pow_add_r by lia.
  replace (e + 1074 - t + t) with (e + 1074) by lia. lia.
Qed.


Lemma srnd_repr (x : spec_float) :
  valid_binary x = true -> finite_or_zero x = true ->
  srnd (ulps x) 1 = ulps x.
Proof.
  intros V F. destruct x as [s|s| |s m e]; try discriminate; cbn [ulps].
  - unfold srnd. simpl. apply rnd_zero. lia.
  - destruct (finite_bounds _ _ _ V) as (B & _).
    destruct s; cbn [cond_Zopp].
    + rewrite srnd_opp by lia. f_equal. unfold srnd.
      destruct (Z.leb_spec 0 (Z.pos m * 2 ^ (e + 1074))); [|lia].
      exact (rnd_repr true m e V).
    + unfold srnd.
      destruct (Z.leb_spec 0 (Z.pos m * 2 ^ (e + 1074))); [|lia].
      exact (rnd_repr false m e V).
Qed.

Lemma iter_xO (m d : positive) :
  Z.pos (Pos.iter xO m d) = Z.pos m * 2 ^ Z.pos d.
Proof.
  induction d as [|d IH] using Pos.peano_ind.
  - simpl. lia.
  - rewrite Pos.iter_succ, Pos2Z.inj_xO, IH, Pos2Z.inj_succ.
    rewrite Z.pow_succ_r by lia. ring.
Qed.

Lemma shl_align_spec (mx : positive) (ex ex' : Z) :
  snd (shl_align mx ex ex') = Z.min ex ex' /\
  Z.pos (fst (shl_align mx ex ex'))
  = Z.pos mx * 2 ^ (ex - Z.min ex ex').
Proof.
  unfold shl_align. destruct (ex' - ex) as [|d|d] eqn:E; cbn [fst snd].
  - replace (Z.min ex ex') with ex by lia.
    rewrite Z.sub_diag. simpl. split; lia.
  - replace (Z.min ex ex') with ex by lia.
    rewrite Z.sub_diag. simpl. split; lia.
  - replace (Z.min ex ex') with ex' by lia. split; [reflexivity|].
    rewrite iter_xO. f_equal. f_equal. lia.
Qed.

Lemma binary_round_spec (sx : bool) (mx : positive) (ex : Z) :
  -1074 <= ex ->
  valid_binary (binary_round prec emax sx mx ex) = true /\
  binary_round prec emax sx mx ex <> S754_nan /\
  ulps (binary_round prec emax sx mx ex)
  = cond_Zopp sx (rnd (Z.pos mx * 2 ^ (ex + 1074)) 1).
Proof.
  intros Hex. unfold binary_round.
  change (Z.pos (digits2_pos mx)) with (Zdigits2 (Z.pos mx)).
  set (ex' := fexp prec emax (Zdigits2 (Z.pos mx) + ex)).
  destruct (shl_align_spec mx ex ex') as [Es Ef].
  destruct (shl_align mx ex ex') as [mz ez]. cbn [fst snd] in Es, Ef.
  assert (Hex' : -1074 <= ex') by (unfold ex'; rewrite fexp_eq; lia).
  assert (Hk : 0 <= ex - ez) by lia.
  assert (Hdz : Zdigits2 (Z.pos mz) = Zdigits2 (Z.pos mx) + (ex - ez)).
  { rewrite Ef, <- Es.
    pose proof (Zdigits2_scaled (Z.pos mx) 1 (ex - ez)) as H.
    rewrite !Z.div_1_r in H. apply H; lia. }
  destruct (binary_round_aux_spec sx (Z.pos mz) ez loc_Exact (Z.pos mz) 1)
    as (V & N & U); try lia.
  - apply rec_ok_exact.
  - rewrite Hdz. replace (Zdigits2 (Z.pos mx) + (ex - ez) + ez)
      with (Zdigits2 (Z.pos mx) + ex) by lia.
    fold ex'. lia.
  - split; [exact V|]. split; [exact N|]. rewrite U. f_equal. f_equal.
    rewrite Ef, <- Es, <- Z.mul_assoc, <- Z.pow_add_r by lia.
    f_equal. f_equal. lia.
Qed.

Lemma binary_normalize_spec (m e : Z) :
  -1074 <= e ->
  valid_binary (binary_normalize prec emax m e false) = true /\
  binary_normalize prec emax m e false <> S754_nan /\
  ulps (binary_normalize prec emax m e false) = srnd (m * 2 ^ (e + 1074)) 1.
Proof.
  intros He. pose proof (pow2_pos (e + 1074) ltac:(lia)) as Hp.
  destruct m as [|p|p]; cbn [binary_normalize].
  - split; [reflexivity|]. split; [discriminate|]. unfold srnd. simpl.
    symmetry. apply rnd_zero. lia.
  - destruct (binary_round_spec false p e He) as (V & N & U).
    split; [exact V|]. split; [exact N|]. rewrite U. unfold srnd.
    destruct (Z.leb_spec 0 (Z.pos p * 2 ^ (e + 1074))); [reflexivity|lia].
  - destruct (binary_round_spec true p e He) as (V & N & U).
    split; [exact V|]. split; [exact N|]. rewrite U. unfold srnd.
    destruct (Z.leb_spec 0 (Z.neg p * 2 ^ (e + 1074))); [lia|].
    cbn [cond_Zopp]. f_equal. f_equal. lia.
Qed.

(** The difference of two finite floats is their exact difference,
    rounded. *)
Lemma SFsub_spec (x y : spec_float) :
  valid_binary x = true -> valid_binary y = true ->
  finite_or_zero x = true -> finite_or_zero y = true ->
  SFsub prec emax x y <> S754_nan /\
  ulps (SFsub prec emax x y) = srnd (ulps x - ulps y) 1.
Proof.
  intros Vx Vy Fx Fy.
  destruct x as [sx|sx| |sx mx ex]; try discriminate;
    destruct y as [sy|sy| |sy my ey]; try discriminate.
  - split.
    + destruct sx, sy; discriminate.
    + destruct sx, sy; reflexivity.
  - split; [discriminate|].
    change (ulps (S754_zero sx) - ulps (S754_finite sy my ey))
      with (0 - ulps (S754_finite sy my ey)).
    rewrite Z.sub_0_l, srnd_opp, srnd_repr by (reflexivity || lia || assumption).
    cbn [SFsub ulps]. destruct sy; cbn [negb cond_Zopp]; lia.
  - split; [discriminate|].
    change (ulps (S754_zero sy)) with 0. rewrite Z.sub_0_r.
    rewrite srnd_repr by (reflexivity || assumption). reflexivity.
  - destruct (valid_finite _ _ _ Vx) as (Hex & _).
    destruct (valid_finite _ _ _ Vy) as (Hey & _).
    cbn [SFsub]. set (ez := Z.min ex ey).
    destruct (shl_align_spec mx ex ez) as [_ Ex].
    destruct (shl_align_spec my ey ez) as [_ Ey].
    replace (Z.min ex ez) with ez in Ex by lia.
    replace (Z.min ey ez) with ez in Ey by lia.
    rewrite Ex, Ey.
    destruct (binary_normalize_spec
                (cond_Zopp sx (Z.pos mx * 2 ^ (ex - ez))
                 - cond_Zopp sy (Z.pos my * 2 ^ (ey - ez))) ez)
      as (V & N & U); [lia|].
    split; [exact N|]. rewrite U. f_equal. cbn [ulps].
    rewrite Z.mul_sub_distr_r.
    assert (A : forall s m e, ez <= e ->
              cond_Zopp s (Z.pos m * 2 ^ (e - ez)) * 2 ^ (ez + 1074)
              = cond_Zopp s (Z.pos m * 2 ^ (e + 1074))).
    { intros s m e H.
      replace (e + 1074) with (e - ez + (ez + 1074)) by lia.
      rewrite (Z.pow_add_r 2 (e - ez)) by lia.
      destruct s; cbn [cond_Zopp]; ring. }
    rewrite !A by lia. reflexivity.
Qed.

Lemma nearest_even_rne (a e : Z) :
  0 <= a -> -1074 <= e ->
  PyFloat.nearest_even a e = rne (a * 2 ^ (e + 1074)) (2 ^ 1074).
Proof.
  intros Ha He. unfold PyFloat.nearest_even.
  destruct (Z.leb_spec 0 e) as [L|L].
  - rewrite Z.pow_add_r by lia. rewrite Z.mul_assoc.
    symmetry. apply rne_exact. reflexivity.
  - pose proof (pow2_pos (- e) ltac:(lia)) as Hp.
    pose proof (pow2_pos (e + 1074) ltac:(lia)) as Hq.
    replace (2 ^ 1074) with (2 ^ (- e) * 2 ^ (e + 1074)).
    + rewrite rne_scale by lia. unfold rne.
      destruct (Z.compare_spec (2 * (a mod 2 ^ (- e))) (2 ^ (- e)));
        destruct (Z.ltb_spec (2 * (a mod 2 ^ (- e))) (2 ^ (- e)));
        destruct (Z.ltb_spec (2 ^ (- e)) (2 * (a mod 2 ^ (- e))));
        try reflexivity; lia.
    + rewrite <- Z.pow_add_r by lia. f_equal. lia.
Qed.


Lemma cents_nonneg (u : Z) : 0 <= u -> 0 <= cents u.
Proof.
  intros H. unfold cents.
  apply (rne_between (100 * u) (2 ^ 1074) 0 (100 * u + 1)); [reflexivity|].
  assert (0 < 2 ^ 1074) by reflexivity. nia.
Qed.

Lemma cents_mono (u1 u2 : Z) : u1 <= u2 -> cents u1 <= cents u2.
Proof.
  intros H. unfold cents. apply rne_mono; [reflexivity|lia].
Qed.

Lemma round2_ulps_mono (u1 u2 : Z) :
  u1 <= u2 -> round2_ulps u1 <= round2_ulps u2.
Proof.
  intros H. unfold round2_ulps.
  assert (P : 0 < 2 ^ 1074) by reflexivity.
  assert (M : forall v1 v2, 0 <= v1 <= v2 ->
              rnd (cents v1 * 2 ^ 1074) 100 <= rnd (cents v2 * 2 ^ 1074) 100).
  { intros v1 v2 Hv. pose proof (cents_nonneg v1 ltac:(lia)).
    pose proof (cents_mono v1 v2 ltac:(lia)).
    apply rnd_mono; [lia|]. nia. }
  assert (N : forall v, 0 <= v -> 0 <= rnd (cents v * 2 ^ 1074) 100).
  { intros v Hv. pose proof (cents_nonneg v Hv).
    apply rnd_nonneg; [lia|nia]. }
  destruct (Z.leb_spec 0 u1); destruct (Z.leb_spec 0 u2); try lia.
  - apply M. lia.
  - pose proof (N (- u1) ltac:(lia)). pose proof (N u2 ltac:(lia)). lia.
  - pose proof (M (- u2) (- u1) ltac:(lia)). lia.
Qed.

(** The quotient of the int [n] by 100, as a float. *)
Lemma div_100_spec (s : bool) (n : positive) :
  let z := SF64div (S754_finite s n 0) (S754_finite false 100 0) in
  valid_binary z = true /\ z <> S754_nan /\
  ulps z = cond_Zopp s (rnd (Z.pos n * 2 ^ 1074) 100).
Proof.
  unfold SF64div, SFdiv, SFdiv_core_binary.
  change (Zdigits2 100) with 7.
  set (d1 := Zdigits2 (Z.pos n)).
  pose proof (Zdigits2_bounds (Z.pos n) ltac:(lia)) as [B1 B2]. fold d1 in B1, B2.
  pose proof (Zdigits2_pos (Z.pos n) ltac:(lia)) as Hd. fold d1 in Hd.
  replace (d1 + 0 - (7 + 0)) with (d1 - 7) by lia.
  rewrite fexp_eq. change (0 - 0) with 0.
  set (e' := Z.min (Z.max (d1 - 7 - 53) (-1074)) 0).
  assert (He' : e' = Z.min (d1 - 60) 0) by (unfold e'; lia).
  set (m' := match 0 - e' with
             | 0 => Z.pos n
             | Z.pos _ => Z.shiftl (Z.pos n) (0 - e')
             | Z.neg _ => 0
             end).
  assert (Em : m' = Z.pos n * 2 ^ (- e')).
  { unfold m'. destruct (0 - e') as [|p|p] eqn:E; try lia.
    - replace (- e') with 0 by lia. lia.
    - rewrite Z.shiftl_mul_pow2 by lia. f_equal. f_equal. lia. }
  assert (Hm : 2 ^ 59 <= m').
  { rewrite Em. destruct (Z_le_gt_dec d1 60).
    - replace (- e') with (60 - d1) by lia.
      assert (2 ^ (d1 - 1) * 2 ^ (60 - d1) = 2 ^ 59).
      { rewrite <- Z.pow_add_r by lia. f_equal. lia. }
      pose proof (pow2_pos (60 - d1) ltac:(lia)). nia.
    - replace (- e') with 0 by lia.
      assert (2 ^ 59 <= 2 ^ (d1 - 1)) by (apply pow2_le; lia). lia. }
  rewrite (surjective_pairing (Z.div_eucl m' 100)).
  change (fst (Z.div_eucl m' 100)) with (m' / 100).
  change (snd (Z.div_eucl m' 100)) with (m' mod 100).
  assert (Hq : 2 ^ 52 <= m' / 100).
  { apply Z.div_le_lower_bound; [lia|].
    assert (100 * 2 ^ 52 <= 2 ^ 59) by (vm_compute; discriminate). lia. }
  pose proof (Z.mod_pos_bound m' 100 ltac:(lia)) as Hr.
  destruct (binary_round_aux_spec (xorb s false) (m' / 100) e'
              (new_location 100 (m' mod 100)) m' 100) as (V & N & U).
  - assert (0 < 2 ^ 52) by reflexivity. lia.
  - assert (0 < 2 ^ 59) by reflexivity. lia.
  - lia.
  - unfold new_location. change (Z.even 100) with true. cbv iota.
    unfold new_location_even, rec_ok.
    destruct (Z.eqb_spec (m' mod 100) 0) as [E|E].
    + cbn [shr_record_of_loc shr_m shr_r shr_s]. rewrite E.
      repeat split.
    + destruct (Z.compare_spec (2 * (m' mod 100)) 100);
        cbn [shr_record_of_loc shr_m shr_r shr_s]; repeat split;
        try (symmetry; apply Z.leb_le; lia);
        try (symmetry; apply Z.leb_gt; lia);
        destruct (Z.eqb_spec (m' mod 100) 0);
        destruct (Z.eqb_spec (2 * (m' mod 100)) 100); try reflexivity; lia.
  - lia.
  - rewrite fexp_eq.
    assert (53 <= Zdigits2 (m' / 100)).
    { destruct (Z_lt_le_dec (Zdigits2 (m' / 100)) 53) as [G|G]; [|exact G].
      pose proof (Zdigits2_lt_pow (m' / 100) ltac:(lia)).
      assert (2 ^ Zdigits2 (m' / 100) <= 2 ^ 52).
      { apply pow2_le. pose proof (Zdigits2_nonneg (m' / 100)). lia. }
      lia. }
    lia.
  - split; [exact V|]. split; [exact N|]. rewrite U.
    rewrite Bool.xorb_false_r. f_equal. f_equal.
    rewrite Em, <- Z.mul_assoc, <- Z.pow_add_r by lia.
    f_equal. f_equal. lia.
Qed.

Lemma finite_ulps_lt_cap (x : spec_float) :
  valid_binary x = true -> finite_or_zero x = true -> - cap < ulps x < cap.
Proof.
  assert (0 < cap) by reflexivity.
  destruct x as [s|s| |s m e]; try discriminate; intros V _; cbn [ulps].
  - lia.
  - destruct (finite_bounds _ _ _ V) as (B & _).
    destruct s; cbn [cond_Zopp]; lia.
Qed.

Lemma cents_zero : cents 0 = 0.
Proof. reflexivity. Qed.

Lemma round2_spec (x : float) :
  finite_or_zero (Prim2SF x) = true ->
  Prim2SF (PyFloat.round2 x) <> S754_nan /\
  ulps (Prim2SF (PyFloat.round2 x)) = round2_ulps (ulps (Prim2SF x)).
Proof.
  intros F. pose proof (Prim2SF_valid x) as V.
  unfold PyFloat.round2.
  destruct (Prim2SF x) as [s|s| |s m e] eqn:E; try discriminate.
  - rewrite E. split; [discriminate|]. cbn [ulps]. unfold round2_ulps.
    cbn [Z.leb Z.compare]. rewrite cents_zero. symmetry. apply rnd_zero. lia.
  - destruct (valid_finite _ _ _ V) as (He & _).
    destruct (finite_bounds _ _ _ V) as (B & _).
    rewrite nearest_even_rne by lia.
    rewrite <- Z.mul_assoc. fold (cents (Z.pos m * 2 ^ (e + 1074))).
    set (u := Z.pos m * 2 ^ (e + 1074)) in *.
    pose proof (cents_nonneg u ltac:(lia)) as Hc.
    assert (R : round2_ulps (ulps (S754_finite s m e))
                = cond_Zopp s (rnd (cents u * 2 ^ 1074) 100)).
    { cbn [ulps]. fold u. unfold round2_ulps. destruct s; cbn [cond_Zopp].
      - destruct (Z.leb_spec 0 (- u)); [lia|].
        rewrite Z.opp_involutive. reflexivity.
      - destruct (Z.leb_spec 0 u); [reflexivity|lia]. }
    rewrite R. destruct (cents u) as [|n|n] eqn:En; try lia.
    + rewrite rnd_zero by lia.
      destruct s; split; try reflexivity; discriminate.
    + destruct (div_100_spec s n) as (Vz & Nz & Uz).
      rewrite Prim2SF_SF2Prim by exact Vz. split; [exact Nz|exact Uz].
Qed.

Lemma round2_infinity (x : float) (s : bool) :
  Prim2SF x = S754_infinity s -> PyFloat.round2 x = x.
Proof. intros E. unfold PyFloat.round2. rewrite E. reflexivity. Qed.

Lemma round2_nan (x : float) :
  Prim2SF x = S754_nan -> PyFloat.round2 x = x.
Proof. intros E. unfold PyFloat.round2. rewrite E. reflexivity. Qed.

Lemma not_finite_or_zero (x : spec_float) :
  x <> S754_nan -> finite_or_zero x = false -> exists s, x = S754_infinity s.
Proof.
  destruct x as [s|s| |s m e]; try discriminate; try congruence; eauto.
Qed.

(** [round(x, 2)] does not decrease when [x] increases. *)
Lemma round2_mono (x y : float) :
  Prim2SF x <> S754_nan -> Prim2SF y <> S754_nan ->
  ulps (Prim2SF x) <= ulps (Prim2SF y) ->
  Prim2SF (PyFloat.round2 x) <> S754_nan /\
  Prim2SF (PyFloat.round2 y) <> S754_nan /\
  ulps (Prim2SF (PyFloat.round2 x)) <= ulps (Prim2SF (PyFloat.round2 y)).
Proof.
  intros Nx Ny H.
  pose proof (ulps_bound _ (Prim2SF_valid (PyFloat.round2 x))) as Bx.
  pose proof (ulps_bound _ (Prim2SF_valid (PyFloat.round2 y))) as By.
  assert (C : 0 < cap) by reflexivity.
  destruct (finite_or_zero (Prim2SF x)) eqn:Fx;
    destruct (finite_or_zero (Prim2SF y)) eqn:Fy.
  - destruct (round2_spec x Fx) as [N1 U1].
    destruct (round2_spec y Fy) as [N2 U2].
    split; [exact N1|]. split; [exact N2|].
    rewrite U1, U2. apply round2_ulps_mono. exact H.
  - destruct (round2_spec x Fx) as [N1 U1].
    destruct (not_finite_or_zero _ Ny Fy) as [s E].
    rewrite (round2_infinity y s E). split; [exact N1|]. split; [exact Ny|].
    pose proof (finite_ulps_lt_cap _ (Prim2SF_valid x) Fx) as L.
    rewrite E in *. cbn [ulps] in *. destruct s; cbn [cond_Zopp] in *; lia.
  - destruct (round2_spec y Fy) as [N2 U2].
    destruct (not_finite_or_zero _ Nx Fx) as [s E].
    rewrite (round2_infinity x s E). split; [exact Nx|]. split; [exact N2|].
    pose proof (finite_ulps_lt_cap _ (Prim2SF_valid y) Fy) as L.
    rewrite E in *. cbn [ulps] in *. destruct s; cbn [cond_Zopp] in *; lia.
  - destruct (not_finite_or_zero _ Nx Fx) as [s E].
    destruct (not_finite_or_zero _ Ny Fy) as [s' E'].
    rewrite (round2_infinity x s E), (round2_infinity y s' E').
    split; [exact Nx|]. split; [exact Ny|exact H].
Qed.

Lemma SFleb_ulps (x y : spec_float) :
  valid_binary x = true -> valid_binary y = true ->
  SFleb x y = true ->
  x <> S754_nan /\ y <> S754_nan /\ ulps x <= ulps y.
Proof.
  intros Vx Vy H.
  assert (Nx : x <> S754_nan) by (intros ->; discriminate).
  assert (Ny : y <> S754_nan).
  { intros ->. destruct x; discriminate. }
  split; [exact Nx|]. split; [exact Ny|].
  unfold SFleb in H. rewrite (SFcompare_ulps x y Vx Vy Nx Ny) in H.
  destruct (Z.compare_spec (ulps x) (ulps y)); try discriminate; lia.
Qed.

Lemma SFltb_ulps (x y : spec_float) :
  valid_binary x = true -> valid_binary y = true ->
  x <> S754_nan -> y <> S754_nan -> ulps y <= ulps x ->
  SFltb x y = false.
Proof.
  intros Vx Vy Nx Ny H.
  unfold SFltb. rewrite (SFcompare_ulps x y Vx Vy Nx Ny).
  destruct (Z.compare_spec (ulps x) (ulps y)); try reflexivity; lia.
Qed.

(** [a - c] does not increase when [c] increases. *)
Lemma sub_antitone (a c1 c2 : float) :
  (c1 <=? c2)%float = true ->
  Prim2SF (a - c1) <> S754_nan -> Prim2SF (a - c2) <> S754_nan ->
  ulps (Prim2SF (a - c2)) <= ulps (Prim2SF (a - c1)).
Proof.
  intros H N1 N2. rewrite leb_spec in H.
  pose proof (Prim2SF_valid a) as Va.
  pose proof (Prim2SF_valid c1) as V1.
  pose proof (Prim2SF_valid c2) as V2.
  pose proof (ulps_bound _ (Prim2SF_valid (a - c1))) as B1.
  pose proof (ulps_bound _ (Prim2SF_valid (a - c2))) as B2.
  destruct (SFleb_ulps _ _ V1 V2 H) as (Nc1 & Nc2 & L).
  rewrite !sub_spec. rewrite sub_spec in N1, N2, B1, B2.
  unfold SF64sub in *.
  assert (C : 0 < cap) by reflexivity.
  destruct (finite_or_zero (Prim2SF a)) eqn:Fa.
  - destruct (finite_or_zero (Prim2SF c1)) eqn:F1;
      destruct (finite_or_zero (Prim2SF c2)) eqn:F2.
    + destruct (SFsub_spec _ _ Va V1 Fa F1) as [_ U1].
      destruct (SFsub_spec _ _ Va V2 Fa F2) as [_ U2].
      rewrite U1, U2. apply srnd_mono; lia.
    + destruct (not_finite_or_zero _ Nc2 F2) as [s E].
      pose proof (finite_ulps_lt_cap _ V1 F1) as L1.
      rewrite E in *. destruct s.
      * cbn [ulps cond_Zopp] in L. lia.
      * destruct (Prim2SF a) as [sa|sa| |sa ma ea]; try discriminate;
          cbn [SFsub negb ulps cond_Zopp] in *; lia.
    + destruct (not_finite_or_zero _ Nc1 F1) as [s E].
      pose proof (finite_ulps_lt_cap _ V2 F2) as L2.
      rewrite E in *. destruct s.
      * destruct (Prim2SF a) as [sa|sa| |sa ma ea]; try discriminate;
          cbn [SFsub negb ulps cond_Zopp] in *; lia.
      * cbn [ulps cond_Zopp] in L. lia.
    + destruct (not_finite_or_zero _ Nc1 F1) as [s E].
      destruct (not_finite_or_zero _ Nc2 F2) as [s' E'].
      rewrite E, E' in *.
      destruct (Prim2SF a) as [sa|sa| |sa ma ea]; try discriminate;
        destruct s, s'; cbn [SFsub negb ulps cond_Zopp] in *; lia.
  - assert (Na : Prim2SF a <> S754_nan).
    { intros E. rewrite E in N1. apply N1. reflexivity. }
    destruct (not_finite_or_zero _ Na Fa) as [sa E]. rewrite E in *.
    destruct (Prim2SF c1) as [s1|s1| |s1 m1 e1];
      destruct (Prim2SF c2) as [s2|s2| |s2 m2 e2];
      try congruence; cbn [SFsub] in *; try lia;
      destruct sa; try destruct s1; try destruct s2;
        cbn [ulps cond_Zopp] in *; try congruence; lia.
Qed.

(** The rounded difference [round(a - c, 2)] does not increase when [c]
    increases. *)
Lemma round2_sub_antitone (a c1 c2 : float) :
  (c1 <=? c2)%float = true ->
  (PyFloat.round2 (a - c1) <? PyFloat.round2 (a - c2))%float = false.
Proof.
  intros H. rewrite ltb_spec.
  destruct (Prim2SF (a - c1)) as [s|s| |s m e] eqn:E1.
  3: { rewrite (round2_nan _ E1), E1. reflexivity. }
  all: destruct (Prim2SF (a - c2)) as [s'|s'| |s' m' e'] eqn:E2.
  all: try (rewrite (round2_nan (a - c2) E2), E2;
            destruct (Prim2SF (PyFloat.round2 (a - c1))); reflexivity).
  all: assert (N1 : Prim2SF (a - c1) <> S754_nan) by (rewrite E1; discriminate).
  all: assert (N2 : Prim2SF (a - c2) <> S754_nan) by (rewrite E2; discriminate).
  all: pose proof (sub_antitone a c1 c2 H N1 N2) as L.
  all: destruct (round2_mono _ _ N2 N1 L) as (R2 & R1 & M).
  all: apply SFltb_ulps; try apply Prim2SF_valid; assumption.
Qed.

Lemma shr_1_nonneg (mrs : shr_record) :
  0 <= shr_m mrs -> 0 <= shr_m (shr_1 mrs).
Proof.
  destruct mrs as [m r s]. destruct m as [|[p|p|]|[p|p|]]; simpl; lia.
Qed.

Lemma iter_shr_1_nonneg (p : positive) :
  forall mrs, 0 <= shr_m mrs -> 0 <= shr_m (iter_pos shr_1 p mrs).
Proof.
  induction p as [p IH|p IH|]; intros mrs H; simpl.
  - apply IH, IH, shr_1_nonneg, H.
  - apply IH, IH, H.
  - apply shr_1_nonneg, H.
Qed.

Lemma shr_fexp_nonneg (m e : Z) (l : location) :
  0 <= m -> 0 <= shr_m (fst (shr_fexp prec emax m e l)).
Proof.
  intros H. unfold shr_fexp, shr.
  destruct (fexp prec emax (Zdigits2 m + e) - e) as [|p|p]; cbn [fst];
    try apply iter_shr_1_nonneg; rewrite shr_m_of_loc; exact H.
Qed.

Lemma round_nearest_even_nonneg (m : Z) (l : location) :
  0 <= m -> 0 <= round_nearest_even m l.
Proof.
  intros H. destruct l as [|[| |]]; cbn [round_nearest_even]; try lia.
  destruct (Z.even m); lia.
Qed.

(** Rounding a mantissa that is not negative never gives NaN. *)
Lemma binary_round_aux_not_nan (sx : bool) (mx ex : Z) (lx : location) :
  0 <= mx -> binary_round_aux prec emax sx mx ex lx <> S754_nan.
Proof.
  intros H. rewrite binary_round_aux_stage2. unfold stage2.
  set (m1 := round_nearest_even _ _).
  assert (H1 : 0 <= m1).
  { apply round_nearest_even_nonneg, shr_fexp_nonneg, H. }
  pose proof (shr_fexp_nonneg m1 (snd (shr_fexp prec emax mx ex lx))
                loc_Exact H1) as H2.
  destruct (shr_fexp prec emax m1 _ loc_Exact) as [mrs e2].
  cbn [fst] in H2. destruct (shr_m mrs) as [|p|p]; try lia.
  - discriminate.
  - destruct (e2 <=? emax - prec); discriminate.
Qed.

Lemma to_int_finite (x : float) (n : Z) :
  PyFloat.to_int x = Ok n -> is_finite x.
Proof.
  unfold PyFloat.to_int, is_finite.
  destruct (Prim2SF x); try discriminate; reflexivity.
Qed.

Lemma sub_finite (x y : float) :
  is_finite (x - y) -> is_finite x /\ is_finite y.
Proof.
  unfold is_finite. rewrite sub_spec. unfold SF64sub.
  destruct (Prim2SF x) as [sx|sx| |sx mx ex];
    destruct (Prim2SF y) as [sy|sy| |sy my ey];
    try destruct sx; try destruct sy; cbn [SFsub finite_or_zero]; auto;
    discriminate.
Qed.

Lemma add_finite (x y : float) :
  is_finite (x + y) -> is_finite x /\ is_finite y.
Proof.
  unfold is_finite. rewrite add_spec. unfold SF64add.
  destruct (Prim2SF x) as [sx|sx| |sx mx ex];
    destruct (Prim2SF y) as [sy|sy| |sy my ey];
    try destruct sx; try destruct sy; cbn [SFadd finite_or_zero]; auto;
    discriminate.
Qed.

Lemma mul_finite (x y : float) :
  is_finite (x * y) -> is_finite x /\ is_finite y.
Proof.
  unfold is_finite. rewrite mul_spec. unfold SF64mul.
  destruct (Prim2SF x) as [sx|sx| |sx mx ex];
    destruct (Prim2SF y) as [sy|sy| |sy my ey];
    cbn [SFmul finite_or_zero]; auto; discriminate.
Qed.

Lemma mul_not_nan (x y : float) :
  is_finite x -> is_finite y -> Prim2SF (x * y) <> S754_nan.
Proof.
  unfold is_finite. rewrite mul_spec. unfold SF64mul.
  destruct (Prim2SF x) as [sx|sx| |sx mx ex]; try discriminate;
    destruct (Prim2SF y) as [sy|sy| |sy my ey]; try discriminate;
    intros _ _; cbn [SFmul]; try discriminate.
  apply binary_round_aux_not_nan. lia.
Qed.

Lemma sub_not_nan (x y : float) :
  Prim2SF x <> S754_nan -> is_finite y -> Prim2SF (x - y) <> S754_nan.
Proof.
  unfold is_finite. intros Nx Fy.
  destruct (finite_or_zero (Prim2SF x)) eqn:Fx.
  - rewrite sub_spec.
    apply (SFsub_spec _ _ (Prim2SF_valid x) (Prim2SF_valid y) Fx Fy).
  - destruct (not_finite_or_zero _ Nx Fx) as [s E].
    rewrite sub_spec, E. unfold SF64sub.
    destruct (Prim2SF y) as [sy|sy| |sy my ey]; try discriminate.
Qed.

Lemma round2_not_nan (x : float) :
  Prim2SF x <> S754_nan -> Prim2SF (PyFloat.round2 x) <> S754_nan.
Proof.
  intros Nx. destruct (finite_or_zero (Prim2SF x)) eqn:Fx.
  - apply (round2_spec x Fx).
  - destruct (not_finite_or_zero _ Nx Fx) as [s E].
    rewrite (round2_infinity x s E). exact Nx.
Qed.

(** For numbers, [not (x < y)] is [y <= x]. *)
Lemma ltb_false_leb (x y : float) :
  Prim2SF x <> S754_nan -> Prim2SF y <> S754_nan ->
  (x <? y)%float = false -> (y <=? x)%float = true.
Proof.
  intros Nx Ny. rewrite ltb_spec, leb_spec. unfold SFltb, SFleb.
  rewrite (SFcompare_ulps _ _ (Prim2SF_valid x) (Prim2SF_valid y) Nx Ny).
  rewrite (SFcompare_ulps _ _ (Prim2SF_valid y) (Prim2SF_valid x) Ny Nx).
  destruct (Z.compare_spec (ulps (Prim2SF x)) (ulps (Prim2SF y)));
    destruct (Z.compare_spec (ulps (Prim2SF y)) (ulps (Prim2SF x)));
    try reflexivity; try discriminate; lia.
Qed.

End Binary64Facts.

(** ** Short straddle: the rows and where they come from *)

Module Strategy1Facts.

Import NseApi StreamlitApp Strategy1 Rows.
Local Open Scope string_scope.
Local Open Scope float_scope.

Lemma leg_of_empty (options : list OptionEntry) (k : float) (ty : string) :
  leg_of options k ty None.
Proof. intros o H. discriminate. Qed.

Lemma set_slot_ok (options : list OptionEntry) (k : float) (p : OptionsPair)
    (o : OptionEntry) :
  In o options -> (k =? strike o) = true ->
  leg_of options k "CE" (CE p) -> leg_of options k "PE" (PE p) ->
  leg_of options k "CE" (CE (set_slot p (option_type o) o)) /\
  leg_of options k "PE" (PE (set_slot p (option_type o) o)).
Proof.
  intros Hin Hk Hce Hpe. unfold set_slot.
  destruct (eq_str (option_type o) "CE") eqn:E1.
  - split; [|exact Hpe]. intros o' H. simpl in H. inversion H; subst o'.
    auto using eq_str_true.
  - destruct (eq_str (option_type o) "PE") eqn:E2; [|auto].
    split; [exact Hce|]. intros o' H. simpl in H. inversion H; subst o'.
    auto using eq_str_true.
Qed.

Lemma assign_ok (cfg : Config) (current_price : float)
    (options : list OptionEntry) (strikes : strikes_dict) (o : OptionEntry) :
  Forall (bucket_ok cfg current_price options) strikes ->
  In o options ->
  between (atm_lower cfg * current_price) (strike o)
          (atm_upper cfg * current_price) = true ->
  Forall (bucket_ok cfg current_price options)
         (assign strikes (strike o) (option_type o) o).
Proof.
  intros Hall Hin Hband.
  assert (Hrefl : (strike o =? strike o) = true).
  { unfold between in Hband. apply andb_prop in Hband.
    destruct Hband as [H _]. apply (FloatFacts.leb_not_nan _ _ H). }
  induction Hall as [|[k p] rest Hkp Hrest IH]; simpl.
  - constructor; [|constructor]. split; [exact Hband|].
    apply set_slot_ok; auto using leg_of_empty.
  - destruct (k =? strike o) eqn:Ek.
    + constructor; [|exact Hrest]. destruct Hkp as (Hb & Hce & Hpe).
      split; [exact Hb|]. apply set_slot_ok; auto.
    + constructor; assumption.
Qed.

(** Every key of [strikes] is within the ATM range and every slot holds an
    entry of that strike and type. *)
Lemma group_by_strike_ok (cfg : Config) (current_price : float)
    (options : list OptionEntry) :
  Forall (bucket_ok cfg current_price options)
         (group_by_strike cfg current_price options).
Proof.
  unfold group_by_strike.
  assert (G : forall l acc,
    (forall o, In o l -> In o options) ->
    Forall (bucket_ok cfg current_price options) acc ->
    Forall (bucket_ok cfg current_price options)
      (fold_left
         (fun strikes opt =>
            if between (atm_lower cfg * current_price) (strike opt)
                       (atm_upper cfg * current_price)
            then assign strikes (strike opt) (option_type opt) opt
            else strikes) l acc)).
  { induction l as [|o l IH]; simpl; intros acc Hsub Hacc; [exact Hacc|].
    apply IH; [intros; apply Hsub; auto|].
    destruct (between _ _ _) eqn:Hb; [|exact Hacc].
    apply assign_ok; auto. }
  apply G; auto.
Qed.

(** What the metrics block returns when it appends a row. *)
Lemma straddle_of_Some (cfg : Config) (sym : string) (current_price : float)
    (lot_size : Z) (k : float) (p : OptionsPair) (r : Opportunity) :
  straddle_of cfg sym current_price lot_size (k, p) = Ok (Some r) ->
  exists ce pe,
    CE p = Some ce /\ PE p = Some pe /\
    Symbol r = sym /\ Current r = current_price /\ Strike r = k /\
    Expiry r = format_expiry (expiry_date ce) /\
    CALL r = last_price ce /\ PUT r = last_price pe /\
    CALL_Vol r = volume ce /\ PUT_Vol r = volume pe /\
    (CALL r =? 0) = false /\ (PUT r =? 0) = false /\
    straddle_metrics cfg lot_size r.
Proof.
  unfold straddle_of.
  destruct (CE p) as [ce|]; [|discriminate].
  destruct (PE p) as [pe|]; [|discriminate].
  destruct (last_price ce =? 0) eqn:Hc; [discriminate|].
  destruct (last_price pe =? 0) eqn:Hp; [discriminate|]. simpl orb. cbv iota.
  intros H.
  apply bind_Ok in H. destruct H as (lot & Hlot & H).
  apply bind_Ok in H. destruct H as (ratio & Hratio & H).
  apply bind_Ok in H. destruct H as (inv & Hinv & H).
  apply bind_Ok in H. destruct H as (mp & Hmp & H).
  apply FloatFacts.truediv_Ok in Hratio. destruct Hratio as [Hnz ->].
  inversion H; subst r; clear H. simpl.
  exists ce, pe. repeat split; auto.
  exists lot. simpl. repeat split; auto.
Qed.

(** A row of one month's pass: its legs, its filters and its metrics. *)
Lemma straddle_row_sound (cfg : Config) (sym : string) (current_price : float)
    (lot_size : Z) (options : list OptionEntry) (r : Opportunity) :
  In r (fst (straddles_of_options cfg sym current_price lot_size options)) ->
  Current r = current_price /\
  straddle_legs options r /\
  between (atm_lower cfg * current_price) (Strike r)
          (atm_upper cfg * current_price) = true /\
  (CALL r =? 0) = false /\ (PUT r =? 0) = false /\
  straddle_metrics cfg lot_size r.
Proof.
  unfold straddles_of_options. intros H.
  apply for_each_In in H. destruct H as ([k p] & Hitem & H).
  apply appending_In in H.
  pose proof (group_by_strike_ok cfg current_price options) as Hall.
  rewrite Forall_forall in Hall. specialize (Hall _ Hitem).
  destruct Hall as (Hband & Hce & Hpe). simpl in Hband, Hce, Hpe.
  apply straddle_of_Some in H.
  destruct H as (ce & pe & Ece & Epe & _ & Hcur & Hk & _ & Hcall & Hput
                 & _ & _ & Hc0 & Hp0 & Hm).
  destruct (Hce _ Ece) as (Hin1 & Hty1 & Hs1).
  destruct (Hpe _ Epe) as (Hin2 & Hty2 & Hs2).
  subst k. repeat split; auto.
  exists ce, pe. repeat split; auto.
Qed.

End Strategy1Facts.

(** ** Covered call: the rows and where they come from *)

Module Strategy2Facts.

Import NseApi StreamlitApp Strategy2 Rows.
Local Open Scope string_scope.
Local Open Scope float_scope.

(** An entry that does not qualify is skipped. *)
Lemma covered_call_of_skip (cfg : Config) (sym : string)
    (current_price : float) (lot_size : Z) (opt : OptionEntry) :
  qualifies cfg current_price opt = false ->
  covered_call_of cfg sym current_price lot_size opt = Ok None.
Proof.
  unfold qualifies, covered_call_of.
  destruct (eq_str (option_type opt) "CE"); [|reflexivity].
  destruct (between _ _ _); [|reflexivity].
  destruct (last_price opt =? 0); [reflexivity|discriminate].
Qed.

(** What the metrics block returns for an entry that qualifies: a row, or
    an exception, never [continue]. *)
Lemma covered_call_of_qualified (cfg : Config) (sym : string)
    (current_price : float) (lot_size : Z) (opt : OptionEntry)
    (o : option Opportunity) :
  qualifies cfg current_price opt = true ->
  covered_call_of cfg sym current_price lot_size opt = Ok o ->
  exists r, o = Some r /\
    Symbol r = sym /\ Current r = current_price /\ Strike r = strike opt /\
    Expiry r = format_expiry (expiry_date opt) /\
    CALL r = last_price opt /\ CALL_Vol r = volume opt /\
    covered_call_metrics cfg lot_size r.
Proof.
  unfold qualifies, covered_call_of.
  destruct (eq_str (option_type opt) "CE"); [|discriminate].
  destruct (between _ _ _); [|discriminate].
  destruct (last_price opt =? 0) eqn:Hc; [discriminate|].
  intros _ H. simpl negb in H. cbv iota in H.
  apply bind_Ok in H. destruct H as (lot & Hlot & H).
  apply bind_Ok in H. destruct H as (inv & Hinv & H).
  apply bind_Ok in H. destruct H as (mp & Hmp & H).
  apply bind_Ok in H. destruct H as (divisor & Hdiv & H).
  apply bind_Ok in H. destruct H as (roi & Hroi & H).
  apply bind_Ok in H. destruct H as (cushion & Hcu & H).
  apply FloatFacts.truediv_Ok in Hroi. destruct Hroi as [Hnz ->].
  apply FloatFacts.truediv_Ok in Hcu. destruct Hcu as [Hpz ->].
  inversion H; subst o; clear H.
  eexists. split; [reflexivity|]. simpl. repeat split; auto.
  exists lot, divisor. unfold profit_of, interest_of. simpl.
  repeat split; auto.
Qed.

Lemma covered_call_of_Some (cfg : Config) (sym : string)
    (current_price : float) (lot_size : Z) (opt : OptionEntry)
    (r : Opportunity) :
  covered_call_of cfg sym current_price lot_size opt = Ok (Some r) ->
  qualifies cfg current_price opt = true /\
  Current r = current_price /\ Strike r = strike opt /\
  CALL r = last_price opt /\
  covered_call_metrics cfg lot_size r.
Proof.
  intros H. destruct (qualifies cfg current_price opt) eqn:Hq.
  - destruct (covered_call_of_qualified _ _ _ _ _ _ Hq H)
      as (r' & E & _ & Hcur & Hk & _ & Hcall & _ & Hm).
    inversion E; subst r'. auto.
  - rewrite (covered_call_of_skip _ _ _ _ _ Hq) in H. discriminate.
Qed.

(** A row of one month's pass: its entry, its filters and its metrics. *)
Lemma covered_call_row_sound (cfg : Config) (sym : string)
    (current_price : float) (lot_size : Z) (options : list OptionEntry)
    (r : Opportunity) :
  In r (fst (covered_calls_of_options cfg sym current_price lot_size options)) ->
  exists opt, In opt options /\
    qualifies cfg current_price opt = true /\
    Current r = current_price /\ Strike r = strike opt /\
    CALL r = last_price opt /\
    covered_call_metrics cfg lot_size r.
Proof.
  unfold covered_calls_of_options. intros H.
  apply for_each_In in H. destruct H as (opt & Hin & H).
  apply appending_In in H. apply covered_call_of_Some in H.
  exists opt. tauto.
Qed.

(** A pass that ran to its end made one row of each qualifying entry, in
    the order of the entries. *)
Lemma covered_calls_done (cfg : Config) (sym : string)
    (current_price : float) (lot_size : Z) (options : list OptionEntry)
    (rs : list Opportunity) :
  covered_calls_of_options cfg sym current_price lot_size options = (rs, Done) ->
  Forall2 (fun opt r =>
             covered_call_of cfg sym current_price lot_size opt = Ok (Some r))
          (filter (qualifies cfg current_price) options) rs.
Proof.
  unfold covered_calls_of_options. revert rs.
  induction options as [|opt options IH]; simpl; intros rs H.
  - inversion H. constructor.
  - destruct (qualifies cfg current_price opt) eqn:Hq.
    + destruct (covered_call_of cfg sym current_price lot_size opt)
        as [o|e] eqn:Hc; simpl in H; [|discriminate].
      destruct (covered_call_of_qualified _ _ _ _ _ _ Hq Hc) as (r & -> & _).
      simpl in H.
      destruct (for_each _ options) as [rs' o'] eqn:Hf.
      inversion H; subst. constructor; [exact Hc|]. apply IH. reflexivity.
    + rewrite (covered_call_of_skip _ _ _ _ _ Hq) in H. simpl in H.
      destruct (for_each _ options) as [rs' o'] eqn:Hf.
      inversion H; subst. apply IH. reflexivity.
Qed.

(** The safety point of a row is a number: the casts to an int succeeded,
    so the price and the premium are finite. *)
Lemma safety_point_not_nan (cfg : Config) (lot_size : Z) (r : Opportunity) :
  covered_call_metrics cfg lot_size r ->
  Prim2SF (Safety_Point r) <> S754_nan.
Proof.
  intros (lot & divisor & _ & Hinv & Hprofit & _ & _ & _ & -> & _).
  apply Binary64Facts.to_int_finite in Hinv, Hprofit.
  apply Binary64Facts.mul_finite in Hinv. destruct Hinv as [_ Hp].
  unfold profit_of in Hprofit.
  apply Binary64Facts.sub_finite in Hprofit. destruct Hprofit as [Hx _].
  apply Binary64Facts.mul_finite in Hx. destruct Hx as [Hy _].
  apply Binary64Facts.add_finite in Hy. destruct Hy as [_ Hc].
  apply Binary64Facts.round2_not_nan, Binary64Facts.sub_not_nan; [|exact Hc].
  apply Binary64Facts.mul_not_nan; [reflexivity|exact Hp].
Qed.

End Strategy2Facts.

(** ** The option chain builder *)

Module NseApiFacts.

Import NseApi Rows.
Local Open Scope string_scope.
Local Open Scope float_scope.

Lemma option_of_item_Some (sym : string) (expiry_month : option string)
    (item : RawItem) (opt : OptionEntry) :
  option_of_item sym expiry_month item = Ok (Some opt) ->
  eq_str (instrumentType item) "OPTSTK" = true /\
  option_type opt = optionType item /\
  parse_strike item = Ok (strike opt).
Proof.
  unfold option_of_item.
  destruct (eq_str (instrumentType item) "OPTSTK"); [|discriminate].
  match goal with |- context [if ?b then Ok None else _] => destruct b end;
    [discriminate|].
  intros H. apply bind_Ok in H. destruct H as (k & Hk & H).
  inversion H; subst opt; clear H. simpl. auto.
Qed.

(** Every entry returned was built from a record of the list. *)
Lemma options_of_items_In (sym : string) (expiry_month : option string)
    (items : list RawItem) (options : list OptionEntry) (opt : OptionEntry) :
  options_of_items sym expiry_month items = Ok options -> In opt options ->
  exists item, In item items /\
    option_of_item sym expiry_month item = Ok (Some opt).
Proof.
  revert options. induction items as [|item items IH]; simpl; intros options H Hin.
  - inversion H; subst. destruct Hin.
  - apply bind_Ok in H. destruct H as (o & Ho & H).
    apply bind_Ok in H. destruct H as (rest & Hrest & H).
    inversion H; subst options; clear H.
    destruct o as [opt'|].
    + destruct Hin as [->|Hin]; [eauto|].
      destruct (IH _ Hrest Hin) as (item' & ? & ?). eauto.
    + destruct (IH _ Hrest Hin) as (item' & ? & ?). eauto.
Qed.

(** An exception in one record leaves the whole loop. *)
Lemma options_of_items_Raise (sym : string) (expiry_month : option string)
    (items : list RawItem) (item : RawItem) (e : exn) :
  In item items -> option_of_item sym expiry_month item = Raise e ->
  exists e', options_of_items sym expiry_month items = Raise e'.
Proof.
  induction items as [|item' items IH]; simpl; intros Hin He; [tauto|].
  destruct (option_of_item sym expiry_month item') as [o|e1] eqn:H1; simpl;
    [|eauto].
  destruct Hin as [->|Hin]; [congruence|].
  destruct (IH Hin He) as (e' & ->). simpl. eauto.
Qed.

(** A selected record gets to the parsing of its strike. *)
Lemma option_of_item_selected (sym : string) (expiry_month : option string)
    (item : RawItem) :
  selected expiry_month item = true ->
  (forall e, parse_strike item = Raise e ->
     option_of_item sym expiry_month item = Raise e) /\
  (forall k, parse_strike item = Ok k ->
     exists opt, option_of_item sym expiry_month item = Ok (Some opt) /\
       strike opt = k).
Proof.
  unfold selected, option_of_item. intros H.
  apply andb_prop in H. destruct H as [-> H].
  assert (E : match expiry_month with
              | Some m =>
                  negb (String.eqb m "")
                  && negb (String.eqb (month_of (get (expiryDate item) "")) m)
              | None => false
              end = false).
  { destruct expiry_month as [m|]; [|reflexivity].
    rewrite <- negb_orb, H. reflexivity. }
  rewrite E. split.
  - intros e ->. reflexivity.
  - intros k ->. simpl. eauto.
Qed.

(** An entry built from a record of the list is returned, when the loop
    returns. *)
Lemma options_of_items_complete (sym : string) (expiry_month : option string)
    (items : list RawItem) (options : list OptionEntry) (item : RawItem)
    (opt : OptionEntry) :
  In item items -> option_of_item sym expiry_month item = Ok (Some opt) ->
  options_of_items sym expiry_month items = Ok options -> In opt options.
Proof.
  revert options. induction items as [|item' items IH]; simpl;
    intros options Hin Ho H; [tauto|].
  apply bind_Ok in H. destruct H as (o & Ho' & H).
  apply bind_Ok in H. destruct H as (rest & Hrest & H).
  inversion H; subst options; clear H.
  destruct Hin as [->|Hin].
  - rewrite Ho in Ho'. inversion Ho'; subst o. left. reflexivity.
  - specialize (IH _ Hin Ho Hrest). destruct o; simpl; auto.
Qed.

(** [float] raises nothing but [ValueError]. *)
Lemma to_float_Raise (s : string) (e : exn) :
  PyParse.to_float s = Raise e -> e = ValueError.
Proof.
  unfold PyParse.to_float.
  destruct (PyParse.to_ascii _) as [t|]; [|congruence].
  destruct (negb _); [congruence|].
  destruct (PyParse.read_sign _) as [sg u].
  destruct (PyParse.read_decimal u) as [[[m k] [|c rest]]|]; try congruence.
  destruct (_ || _); [congruence|].
  destruct (String.eqb _ "nan"); congruence.
Qed.

Lemma eqb_empty (s : string) : String.eqb s "" = true <-> s = "".
Proof. apply String.eqb_eq. Qed.

End NseApiFacts.

(** ** The evaluators of a symbol *)

Module EvaluatorFacts.

Import NseApi StreamlitApp Rows.
Local Open Scope float_scope.

Lemma no_In_nil {A : Type} (l : list A) : (forall x, ~ In x l) -> l = [].
Proof.
  destruct l as [|x l]; [reflexivity|].
  intros H. destruct (H x). left. reflexivity.
Qed.

Lemma of_int_zero (lot : float) : PyFloat.of_int 0 = Ok lot -> lot = 0.
Proof. vm_compute. congruence. Qed.

(** A row of the evaluator is a row of the pass over one of the months, and
    the price is not zero. *)
Lemma evaluate_short_straddle_In (cfg : Config) (sym : string)
    (current_price : float) (lot_size : Z)
    (fetch : string -> result (list OptionEntry)) (months : list string)
    (r : Strategy1.Opportunity) :
  In r (fst (Strategy1.evaluate_short_straddle
               cfg sym current_price lot_size fetch months)) ->
  (current_price =? 0) = false /\
  exists month options,
    In month months /\ fetch month = Ok options /\
    In r (fst (Strategy1.straddles_of_options
                 cfg sym current_price lot_size options)).
Proof.
  unfold Strategy1.evaluate_short_straddle.
  destruct (current_price =? 0); [intros []|].
  intros H. apply for_each_In in H. destruct H as (month & Hm & H).
  split; [reflexivity|]. exists month.
  destruct (fetch month) as [options|e]; [eauto|destruct H].
Qed.

Lemma evaluate_covered_call_In (cfg : Config) (sym : string)
    (current_price : float) (lot_size : Z)
    (fetch : string -> result (list OptionEntry)) (months : list string)
    (r : Strategy2.Opportunity) :
  In r (fst (Strategy2.evaluate_covered_call
               cfg sym current_price lot_size fetch months)) ->
  (current_price =? 0) = false /\
  exists month options,
    In month months /\ fetch month = Ok options /\
    In r (fst (Strategy2.covered_calls_of_options
                 cfg sym current_price lot_size options)).
Proof.
  unfold Strategy2.evaluate_covered_call.
  destruct (current_price =? 0); [intros []|].
  intros H. apply for_each_In in H. destruct H as (month & Hm & H).
  split; [reflexivity|]. exists month.
  destruct (fetch month) as [options|e]; [eauto|destruct H].
Qed.

(** With a lot size of zero the metrics block of a straddle never gets to
    the [append]: the investment is a zero or NaN, so the division or the
    cast to an int raises. *)
Lemma straddle_lot_zero (cfg : Config) (sym : string) (current_price : float)
    (options : list OptionEntry) (r : Strategy1.Opportunity) :
  ~ In r (fst (Strategy1.straddles_of_options cfg sym current_price 0 options)).
Proof.
  intros H. apply Strategy1Facts.straddle_row_sound in H.
  destruct H as (_ & _ & _ & _ & _ & lot & Hlot & _ & Hinv & _ & Hz & _).
  apply of_int_zero in Hlot. subst lot.
  assert (Z0 : zero_or_nan (margin cfg * 2 * 0 * Strategy1.Current r)).
  { apply FloatFacts.mul_zero_or_nan_l, FloatFacts.mul_zero_r. }
  destruct (FloatFacts.truediv_to_int_zero_or_nan 0 _ Z0) as [E|E].
  - unfold PyFloat.truediv in E. rewrite Hz in E. discriminate.
  - rewrite E in Hinv. discriminate.
Qed.

(** The same for a covered call: the investment is the int 0. *)
Lemma covered_call_lot_zero (cfg : Config) (sym : string)
    (current_price : float) (options : list OptionEntry)
    (r : Strategy2.Opportunity) :
  ~ In r (fst (Strategy2.covered_calls_of_options
                 cfg sym current_price 0 options)).
Proof.
  intros H. apply Strategy2Facts.covered_call_row_sound in H.
  destruct H as (opt & _ & _ & _ & _ & _ & lot & divisor & Hlot & Hinv
                 & _ & Hdiv & Hz & _).
  apply of_int_zero in Hlot. subst lot.
  assert (Z0 : zero_or_nan (margin cfg * 0 * Strategy2.Current r)).
  { apply FloatFacts.mul_zero_or_nan_l, FloatFacts.mul_zero_r. }
  apply (FloatFacts.to_int_zero_or_nan _ _ Z0) in Hinv.
  rewrite Hinv in Hdiv. apply of_int_zero in Hdiv. subst divisor.
  discriminate Hz.
Qed.

End EvaluatorFacts.

(** ** A lot size of zero *)

Module ZeroLotFacts.

Import NseApi StreamlitApp Rows Views.
Local Open Scope float_scope.

Lemma is_nan_zero_or_nan (x : float) :
  zero_or_nan x ->
  (is_nan x = false /\ exists s, Prim2SF x = S754_zero s) \/
  (is_nan x = true /\ Prim2SF x = S754_nan).
Proof.
  unfold is_nan. rewrite eqb_spec.
  intros [[s H]|H]; rewrite H; [left|right]; split; eauto.
Qed.

Lemma to_int_zero_or_nan_eq (x : float) :
  zero_or_nan x ->
  PyFloat.to_int x = if is_nan x then Raise ValueError else Ok 0%Z.
Proof.
  intros H. destruct (is_nan_zero_or_nan x H) as [[-> [s E]]|[-> E]];
    unfold PyFloat.to_int; rewrite E; reflexivity.
Qed.

Lemma round2_zero_or_nan (x : float) :
  zero_or_nan x -> zero_or_nan (PyFloat.round2 x).
Proof.
  intros H. assert (E : PyFloat.round2 x = x).
  { unfold PyFloat.round2. destruct H as [[s H]|H]; rewrite H; reflexivity. }
  rewrite E. exact H.
Qed.

Lemma sub_zero_or_nan (x y : float) :
  zero_or_nan x -> zero_or_nan y -> zero_or_nan (x - y).
Proof.
  unfold zero_or_nan. rewrite sub_spec.
  intros [[s ->]| ->] [[t ->]| ->]; cbn; eauto.
  destruct s, t; cbn; eauto.
Qed.

Lemma eqb_zero_or_nan (x : float) :
  zero_or_nan x -> (x =? 0) = negb (is_nan x).
Proof.
  intros H. destruct (is_nan_zero_or_nan x H) as [[-> [s E]]|[-> E]];
    rewrite eqb_spec, E; reflexivity.
Qed.

(** The metrics block of the straddle with a lot size of zero. *)
Lemma straddle_of_lot_zero (cfg : Config) (sym : string)
    (current_price : float) (item : float * Strategy1.OptionsPair) :
  Strategy1.straddle_of cfg sym current_price 0 item
  = if priced_pair item
    then Raise (if margin cfg * 2 * 0 * current_price =? 0
                then ZeroDivisionError else ValueError)
    else Ok None.
Proof.
  destruct item as [k p]. unfold Strategy1.straddle_of, priced_pair.
  cbn [snd].
  destruct (Strategy1.CE p) as [ce|]; [|reflexivity].
  destruct (Strategy1.PE p) as [pe|]; [|reflexivity].
  destruct ((last_price ce =? 0) || (last_price pe =? 0)); [reflexivity|].
  cbn [negb].
  change (PyFloat.of_int 0) with (Ok 0). cbn [bind].
  assert (Z0 : zero_or_nan (margin cfg * 2 * 0 * current_price)).
  { apply FloatFacts.mul_zero_or_nan_l, FloatFacts.mul_zero_r. }
  unfold PyFloat.truediv.
  destruct (margin cfg * 2 * 0 * current_price =? 0) eqn:E; [reflexivity|].
  cbn [bind]. rewrite (to_int_zero_or_nan_eq _ Z0).
  rewrite (eqb_zero_or_nan _ Z0) in E. apply negb_false_iff in E.
  rewrite E. reflexivity.
Qed.

(** The metrics block of the covered call with a lot size of zero. *)
Lemma covered_call_of_lot_zero (cfg : Config) (sym : string)
    (current_price : float) (opt : OptionEntry) :
  Strategy2.covered_call_of cfg sym current_price 0 opt
  = if qualifies cfg current_price opt
    then Raise (if is_nan (margin cfg * 0 * current_price)
                   || is_nan ((strike opt - current_price + last_price opt) * 0
                              - interest_of cfg 0 current_price)
                then ValueError else ZeroDivisionError)
    else Ok None.
Proof.
  destruct (qualifies cfg current_price opt) eqn:Hq;
    [|exact (Strategy2Facts.covered_call_of_skip _ _ _ _ _ Hq)].
  unfold qualifies in Hq. unfold Strategy2.covered_call_of.
  apply andb_prop in Hq. destruct Hq as [Hq Hp].
  apply andb_prop in Hq. destruct Hq as [Ht Hb].
  rewrite Ht, Hb. apply negb_true_iff in Hp. rewrite Hp. cbn [negb].
  change (PyFloat.of_int 0) with (Ok 0). cbn [bind].
  assert (Z0 : zero_or_nan (margin cfg * 0 * current_price)).
  { apply FloatFacts.mul_zero_or_nan_l, FloatFacts.mul_zero_r. }
  assert (Z1 : zero_or_nan
                 ((strike opt - current_price + last_price opt) * 0
                  - interest_of cfg 0 current_price)).
  { apply sub_zero_or_nan; [apply FloatFacts.mul_zero_r|].
    apply round2_zero_or_nan.
    apply FloatFacts.mul_zero_or_nan_l, FloatFacts.mul_zero_r. }
  rewrite (to_int_zero_or_nan_eq _ Z0).
  destruct (is_nan (margin cfg * 0 * current_price)); [reflexivity|].
  cbn [bind orb]. unfold interest_of in Z1 |- *.
  rewrite (to_int_zero_or_nan_eq _ Z1).
  destruct (is_nan _); [reflexivity|].
  cbn [bind]. change (PyFloat.of_int 0) with (Ok 0). cbn [bind].
  reflexivity.
Qed.

End ZeroLotFacts.

(** ** The option chain: lemmas *)

Module OptionChainFacts.

Import NseApi Rows Views.
Local Open Scope string_scope.

(** A selected record whose strike parsed gives its entry. *)
Lemma option_of_item_entry (sym : string) (expiry_month : option string)
    (item : RawItem) (k : float) :
  selected expiry_month item = true -> parse_strike item = Ok k ->
  option_of_item sym expiry_month item = Ok (Some (entry_of sym item k)).
Proof.
  unfold selected, option_of_item. intros H Hk.
  apply andb_prop in H. destruct H as [-> H].
  assert (E : match expiry_month with
              | Some m =>
                  negb (String.eqb m "")
                  && negb (String.eqb (month_of (get (expiryDate item) "")) m)
              | None => false
              end = false).
  { destruct expiry_month as [m|]; [|reflexivity].
    rewrite <- negb_orb, H. reflexivity. }
  rewrite E, Hk. reflexivity.
Qed.

(** A record that is not selected is skipped, whatever its strike. *)
Lemma option_of_item_skip (sym : string) (expiry_month : option string)
    (item : RawItem) :
  selected expiry_month item = false ->
  option_of_item sym expiry_month item = Ok None.
Proof.
  unfold selected, option_of_item.
  destruct (eq_str (instrumentType item) "OPTSTK"); [|reflexivity].
  cbn [andb]. intros H.
  destruct expiry_month as [m|]; [|discriminate].
  rewrite <- negb_orb, H. reflexivity.
Qed.

Lemma parse_strike_Raise (item : RawItem) (e : exn) :
  parse_strike item = Raise e -> e = ValueError.
Proof.
  unfold parse_strike.
  destruct (String.eqb _ ""); [discriminate|].
  apply NseApiFacts.to_float_Raise.
Qed.

(** The list returned, record by record. *)
Lemma options_of_items_Forall2 (sym : string) (expiry_month : option string)
    (items : list RawItem) :
  forall options,
    options_of_items sym expiry_month items = Ok options ->
    Forall2 (fun item opt =>
               exists k, parse_strike item = Ok k /\ opt = entry_of sym item k)
            (filter (selected expiry_month) items) options.
Proof.
  induction items as [|item items IH]; intros options H.
  - inversion H. constructor.
  - cbn [options_of_items] in H. cbn [filter].
    apply bind_Ok in H. destruct H as (o & Ho & H).
    apply bind_Ok in H. destruct H as (rest & Hrest & H).
    inversion H; subst options; clear H.
    destruct (selected expiry_month item) eqn:Hs.
    + destruct (parse_strike item) as [k|e] eqn:Hk.
      * rewrite (option_of_item_entry _ _ _ _ Hs Hk) in Ho.
        inversion Ho; subst o. constructor; [eauto|]. apply IH, Hrest.
      * destruct (NseApiFacts.option_of_item_selected sym _ _ Hs) as [Hr _].
        rewrite (Hr e Hk) in Ho. discriminate.
    + rewrite (option_of_item_skip _ _ _ Hs) in Ho.
      inversion Ho; subst o. apply IH, Hrest.
Qed.

(** When the loop raises. *)
Lemma options_of_items_Raise_iff (sym : string) (expiry_month : option string)
    (items : list RawItem) :
  (exists e, options_of_items sym expiry_month items = Raise e) <->
  Exists (fun item => selected expiry_month item = true /\
                      parse_strike item = Raise ValueError) items.
Proof.
  induction items as [|item items IH].
  - split; [intros [e H]; discriminate|intros H; inversion H].
  - cbn [options_of_items]. split.
    + intros [e H].
      destruct (selected expiry_month item) eqn:Hs.
      * destruct (parse_strike item) as [k|e'] eqn:Hk.
        -- rewrite (option_of_item_entry _ _ _ _ Hs Hk) in H. cbn [bind] in H.
           destruct (options_of_items sym expiry_month items) as [rest|e1] eqn:Hr;
             [discriminate|].
           apply Exists_cons_tl, IH. eauto.
        -- apply Exists_cons_hd. split; [exact Hs|].
           rewrite (parse_strike_Raise _ _ Hk) in Hk. exact Hk.
      * rewrite (option_of_item_skip _ _ _ Hs) in H. cbn [bind] in H.
        destruct (options_of_items sym expiry_month items) as [rest|e1] eqn:Hr;
          [discriminate|].
        apply Exists_cons_tl, IH. eauto.
    + intros H. inversion H as [x l [Hs Hk]|x l Hl]; subst.
      * destruct (NseApiFacts.option_of_item_selected sym _ _ Hs) as [Hr _].
        rewrite (Hr _ Hk). cbn [bind]. eauto.
      * apply IH in Hl. destruct Hl as [e He].
        destruct (option_of_item sym expiry_month item) as [o|e1];
          cbn [bind]; [|eauto].
        rewrite He. cbn [bind]. eauto.
Qed.

Lemma options_of_items_ValueError (sym : string)
    (expiry_month : option string) (items : list RawItem) (e : exn) :
  options_of_items sym expiry_month items = Raise e -> e = ValueError.
Proof.
  induction items as [|item items IH]; cbn [options_of_items]; [discriminate|].
  destruct (option_of_item sym expiry_month item) as [o|e1] eqn:Ho; cbn [bind].
  - destruct (options_of_items sym expiry_month items) as [rest|e2];
      cbn [bind]; [discriminate|].
    intros H. inversion H; subst. apply IH. reflexivity.
  - intros H. inversion H; subst e1. clear H.
    unfold option_of_item in Ho.
    destruct (eq_str (instrumentType item) "OPTSTK"); [|discriminate].
    match type of Ho with (if ?b then _ else _) = _ => destruct b end;
      [discriminate|].
    destruct (parse_strike item) as [k|e1] eqn:Hk; [discriminate|].
    cbn [bind] in Ho. inversion Ho; subst. exact (parse_strike_Raise _ _ Hk).
Qed.

(** *** Dates *)

Lemma split_no_sep (sep : ascii) (s : string) :
  PyStr.contains sep s = false -> PyStr.split sep s = [s].
Proof.
  induction s as [|c s IH]; cbn [PyStr.contains PyStr.split]; [reflexivity|].
  intros H. apply orb_false_elim in H. destruct H as [Hc Hs].
  rewrite (IH Hs), Hc. reflexivity.
Qed.

Lemma split_not_nil (sep : ascii) (s : string) : PyStr.split sep s <> [].
Proof.
  destruct s as [|c s]; cbn [PyStr.split]; [discriminate|].
  destruct (PyStr.split sep s); [discriminate|].
  destruct (Ascii.eqb c sep); discriminate.
Qed.

Lemma split_app (sep : ascii) (a b : string) :
  PyStr.contains sep a = false ->
  PyStr.split sep (a ++ String sep b) = a :: PyStr.split sep b.
Proof.
  induction a as [|c a IH]; cbn [PyStr.contains append PyStr.split].
  - intros _. rewrite Ascii.eqb_refl.
    destruct (PyStr.split sep b) eqn:E; [|reflexivity].
    destruct (split_not_nil _ _ E).
  - intros H. apply orb_false_elim in H. destruct H as [Hc Ha].
    rewrite (IH Ha), Hc. reflexivity.
Qed.

Lemma contains_app (sep : ascii) (a b : string) :
  PyStr.contains sep (a ++ b) = PyStr.contains sep a || PyStr.contains sep b.
Proof.
  induction a as [|c a IH]; cbn [append PyStr.contains]; [reflexivity|].
  rewrite IH, orb_assoc. reflexivity.
Qed.

End OptionChainFacts.

(** ** Lists *)

Module ListFacts.

Lemma Forall2_In_r {A B : Type} (R : A -> B -> Prop) (l : list A)
    (l' : list B) (y : B) :
  Forall2 R l l' -> In y l' -> exists x, In x l /\ R x y.
Proof.
  induction 1 as [|x y' l l' HR HF IH]; intros Hin; [destruct Hin|].
  destruct Hin as [->|Hin]; [exists x; split; [left; reflexivity|exact HR]|].
  destruct (IH Hin) as (x' & Hx & Hr). exists x'. split; [right|]; assumption.
Qed.

End ListFacts.

(** ** Equality of floats *)

Module FloatEqFacts.

Import Binary64 Binary64Facts.
Local Open Scope float_scope.

(** Floats that compare equal are numbers of the same value. *)
Lemma eqb_true_ulps (x y : float) :
  (x =? y) = true ->
  Prim2SF x <> S754_nan /\ Prim2SF y <> S754_nan /\
  ulps (Prim2SF x) = ulps (Prim2SF y).
Proof.
  rewrite eqb_spec. unfold SFeqb. intros H.
  assert (Nx : Prim2SF x <> S754_nan).
  { intros E. rewrite E in H. discriminate. }
  assert (Ny : Prim2SF y <> S754_nan).
  { intros E. rewrite E in H. destruct (Prim2SF x); discriminate. }
  split; [exact Nx|]. split; [exact Ny|].
  rewrite (SFcompare_ulps _ _ (Prim2SF_valid x) (Prim2SF_valid y) Nx Ny) in H.
  destruct (Z.compare_spec (ulps (Prim2SF x)) (ulps (Prim2SF y)));
    [assumption|discriminate|discriminate].
Qed.

Lemma ulps_eqb (x y : float) :
  Prim2SF x <> S754_nan -> Prim2SF y <> S754_nan ->
  ulps (Prim2SF x) = ulps (Prim2SF y) -> (x =? y) = true.
Proof.
  intros Nx Ny E. rewrite eqb_spec. unfold SFeqb.
  rewrite (SFcompare_ulps _ _ (Prim2SF_valid x) (Prim2SF_valid y) Nx Ny).
  rewrite E, Z.compare_refl. reflexivity.
Qed.

Lemma eqb_sym_true (x y : float) : (x =? y) = true -> (y =? x) = true.
Proof.
  intros H. destruct (eqb_true_ulps _ _ H) as (Nx & Ny & E).
  apply ulps_eqb; auto.
Qed.

Lemma eqb_trans_true (x y z : float) :
  (x =? y) = true -> (y =? z) = true -> (x =? z) = true.
Proof.
  intros H1 H2. destruct (eqb_true_ulps _ _ H1) as (Nx & Ny & E1).
  destruct (eqb_true_ulps _ _ H2) as (_ & Nz & E2).
  apply ulps_eqb; congruence.
Qed.

(** Keys that differ: a float equal to one is not equal to the other. *)
Lemma eqb_false_trans (k k' s : float) :
  (k =? k') = false -> (k =? s) = true -> (k' =? s) = false.
Proof.
  intros H1 H2. destruct (k' =? s) eqn:E; [|reflexivity].
  rewrite (eqb_trans_true k s k' H2 (eqb_sym_true _ _ E)) in H1. discriminate.
Qed.

End FloatEqFacts.

(** ** Grouping by strike: lemmas *)

Module GroupingFacts.

Import NseApi StreamlitApp Strategy1 Rows Views.
Local Open Scope float_scope.

Lemma last_such_app {A : Type} (p : A -> bool) (l : list A) (a : A) :
  last_such p (l ++ [a]) = if p a then Some a else last_such p l.
Proof. unfold last_such. rewrite fold_left_app. reflexivity. Qed.

Lemma last_such_None {A : Type} (p : A -> bool) (l : list A) :
  (forall x, In x l -> p x = false) -> last_such p l = None.
Proof.
  induction l as [|a l IH] using rev_ind; intros H; [reflexivity|].
  rewrite last_such_app, (H a) by (apply in_or_app; right; left; reflexivity).
  apply IH. intros x Hx. apply H, in_or_app. left. exact Hx.
Qed.

Lemma last_such_Some {A : Type} (p : A -> bool) (l : list A) (a : A) :
  last_such p l = Some a -> In a l /\ p a = true.
Proof.
  induction l as [|b l IH] using rev_ind; [discriminate|].
  rewrite last_such_app. destruct (p b) eqn:E.
  - intros H. inversion H; subst b. split; [|exact E].
    apply in_or_app. right. left. reflexivity.
  - intros H. destruct (IH H) as [Hin Hp]. split; [|exact Hp].
    apply in_or_app. left. exact Hin.
Qed.

Lemma ForallOrdPairs_snoc {A : Type} (R : A -> A -> Prop) (l : list A)
    (x : A) :
  ForallOrdPairs R l -> Forall (fun a => R a x) l ->
  ForallOrdPairs R (l ++ [x]).
Proof.
  induction 1 as [|a l Ha Hl IH]; intros H; cbn [app].
  - constructor; constructor.
  - inversion H; subst. constructor; [|apply IH; assumption].
    apply Forall_app. split; [exact Ha|]. constructor; [assumption|constructor].
Qed.

Lemma ForallOrdPairs_map_fst {A B : Type} (R : A -> A -> Prop)
    (f : A * B -> A * B) (l : list (A * B)) :
  (forall x, fst (f x) = fst x) ->
  ForallOrdPairs (fun a b => R (fst a) (fst b)) l ->
  ForallOrdPairs (fun a b => R (fst a) (fst b)) (map f l).
Proof.
  intros Hf. induction 1 as [|a l Ha Hl IH]; cbn [map]; constructor.
  - apply Forall_map. rewrite Forall_forall in *. intros x Hx.
    rewrite !Hf. apply Ha, Hx.
  - exact IH.
Qed.

(** An assignment under a key that is in the dictionary changes the pair
    of this key and nothing else. *)
Lemma assign_match (strikes : strikes_dict) (s : float)
    (ty : option string) (o : OptionEntry) :
  ForallOrdPairs (fun a b => (fst a =? fst b) = false) strikes ->
  Exists (fun item => (fst item =? s) = true) strikes ->
  assign strikes s ty o
  = map (fun item => if fst item =? s
                     then (fst item, set_slot (snd item) ty o) else item)
        strikes.
Proof.
  induction 1 as [|[k p] rest Hk Hrest IH]; intros Hex; [inversion Hex|].
  cbn [assign map fst snd]. destruct (k =? s) eqn:Ek.
  - f_equal. symmetry. rewrite <- (map_id rest) at 2.
    apply map_ext_in. intros [k' p'] Hin. cbn [fst snd].
    rewrite Forall_forall in Hk. specialize (Hk _ Hin). cbn [fst] in Hk.
    rewrite (FloatEqFacts.eqb_false_trans _ _ _ Hk Ek). reflexivity.
  - f_equal. apply IH. inversion Hex; subst; [|assumption].
    cbn [fst] in *. congruence.
Qed.

(** An assignment under a new key adds it at the end. *)
Lemma assign_nomatch (strikes : strikes_dict) (s : float)
    (ty : option string) (o : OptionEntry) :
  Forall (fun item => (fst item =? s) = false) strikes ->
  assign strikes s ty o = strikes ++ [(s, set_slot empty_pair ty o)].
Proof.
  induction 1 as [|[k p] rest Hk Hrest IH]; [reflexivity|].
  cbn [assign app fst] in *. rewrite Hk, IH. reflexivity.
Qed.

Lemma Exists_or_Forall_not {A : Type} (p : A -> bool) (l : list A) :
  Exists (fun a => p a = true) l \/ Forall (fun a => p a = false) l.
Proof.
  induction l as [|a l [IH|IH]].
  - right. constructor.
  - left. apply Exists_cons_tl, IH.
  - destruct (p a) eqn:E.
    + left. apply Exists_cons_hd, E.
    + right. constructor; assumption.
Qed.

(** The slots after [options_pair[opt_type] = opt]. *)
Lemma set_slot_last (cfg : Config) (current_price k : float)
    (l : list OptionEntry) (p : OptionsPair) (o : OptionEntry) :
  between (atm_lower cfg * current_price) (strike o)
          (atm_upper cfg * current_price) = true ->
  (k =? strike o) = true ->
  CE p = last_such (stored_under cfg current_price k "CE"%string) l ->
  PE p = last_such (stored_under cfg current_price k "PE"%string) l ->
  CE (set_slot p (option_type o) o)
  = last_such (stored_under cfg current_price k "CE"%string) (l ++ [o]) /\
  PE (set_slot p (option_type o) o)
  = last_such (stored_under cfg current_price k "PE"%string) (l ++ [o]).
Proof.
  intros Hb Hk Hce Hpe. rewrite !last_such_app.
  unfold stored_under, set_slot. rewrite Hb, Hk. cbn [andb].
  destruct (eq_str (option_type o) "CE"%string) eqn:E1.
  - rewrite (eq_str_true _ _ E1). cbn [eq_str CE PE].
    change (String.eqb "CE"%string "PE"%string) with false. cbv iota. auto.
  - destruct (eq_str (option_type o) "PE"%string) eqn:E2; cbn [CE PE]; auto.
Qed.

Lemma not_stored (cfg : Config) (current_price k : float) (ty : string)
    (l : list OptionEntry) (o : OptionEntry) :
  between (atm_lower cfg * current_price) (strike o)
          (atm_upper cfg * current_price) && (k =? strike o) = false ->
  last_such (stored_under cfg current_price k ty) (l ++ [o])
  = last_such (stored_under cfg current_price k ty) l.
Proof.
  intros H. rewrite last_such_app. unfold stored_under. rewrite H.
  reflexivity.
Qed.

(** One turn of the grouping loop keeps [grouped]. *)
Lemma grouped_step (cfg : Config) (current_price : float)
    (l : list OptionEntry) (strikes : strikes_dict) (o : OptionEntry) :
  grouped cfg current_price l strikes ->
  grouped cfg current_price (l ++ [o])
    (if between (atm_lower cfg * current_price) (strike o)
                (atm_upper cfg * current_price)
     then assign strikes (strike o) (option_type o) o
     else strikes).
Proof.
  intros (I1 & I2 & I3).
  destruct (between (atm_lower cfg * current_price) (strike o)
                    (atm_upper cfg * current_price)) eqn:Hb.
  - assert (Hrefl : (strike o =? strike o) = true).
    { unfold between in Hb. apply andb_prop in Hb.
      destruct Hb as [H _]. apply (FloatFacts.leb_not_nan _ _ H). }
    destruct (Exists_or_Forall_not (fun item => fst item =? strike o) strikes)
      as [Hex|Hno].
    + (* the key is in the dictionary *)
      rewrite (assign_match _ _ _ _ I1 Hex). split; [|split].
      * apply (ForallOrdPairs_map_fst (fun a b => (a =? b) = false)); [|exact I1].
        intros [k p]. cbn [fst snd]. destruct (k =? strike o); reflexivity.
      * apply Forall_map. rewrite Forall_forall in *. intros [k p] Hin.
        destruct (I2 _ Hin) as (Hk & Hce & Hpe). cbn [fst snd] in *.
        destruct (k =? strike o) eqn:Ek; cbn [fst snd].
        -- split; [exact Hk|]. apply set_slot_last; assumption.
        -- split; [exact Hk|]. rewrite !not_stored by (rewrite Ek; apply andb_false_r).
           auto.
      * intros o' Hin' Hb'. apply Exists_exists.
        assert (Hold : Exists (fun item => (fst item =? strike o') = true)
                              strikes).
        { apply in_app_or in Hin'. destruct Hin' as [Hin'|[<-|[]]].
          - apply I3; assumption.
          - exact Hex. }
        apply Exists_exists in Hold. destruct Hold as ([k p] & Hin & Hk).
        exists (if k =? strike o then (k, set_slot p (option_type o) o)
                else (k, p)).
        split.
        -- apply in_map_iff. exists (k, p). split; [reflexivity|exact Hin].
        -- cbn [fst] in Hk. destruct (k =? strike o); exact Hk.
    + (* a new key *)
      rewrite (assign_nomatch _ _ _ _ Hno). split; [|split].
      * apply ForallOrdPairs_snoc; [exact I1|exact Hno].
      * apply Forall_app. split.
        -- rewrite Forall_forall in *. intros [k p] Hin.
           destruct (I2 _ Hin) as (Hk & Hce & Hpe). cbn [fst snd] in *.
           specialize (Hno _ Hin). cbn [fst] in Hno.
           split; [exact Hk|].
           rewrite !not_stored by (rewrite Hno; apply andb_false_r). auto.
        -- constructor; [|constructor]. cbn [fst snd].
           split; [exact Hrefl|].
           assert (Hnone : forall ty,
                     last_such (stored_under cfg current_price (strike o) ty) l
                     = None).
           { intros ty. apply last_such_None. intros o' Hin'.
             unfold stored_under.
             destruct (between (atm_lower cfg * current_price) (strike o')
                               (atm_upper cfg * current_price)) eqn:Hb';
               [|reflexivity].
             destruct (strike o =? strike o') eqn:Es; [|reflexivity].
             specialize (I3 _ Hin' Hb'). apply Exists_exists in I3.
             destruct I3 as ([k p] & Hin & Hk). cbn [fst] in Hk.
             rewrite Forall_forall in Hno. specialize (Hno _ Hin).
             cbn [fst] in Hno.
             rewrite (FloatEqFacts.eqb_trans_true _ _ _ Hk
                        (FloatEqFacts.eqb_sym_true _ _ Es)) in Hno.
             discriminate. }
           apply set_slot_last; try assumption; cbn [CE PE empty_pair];
             symmetry; apply Hnone.
      * intros o' Hin' Hb'. apply Exists_app.
        apply in_app_or in Hin'. destruct Hin' as [Hin'|[<-|[]]].
        -- left. apply I3; assumption.
        -- right. constructor. exact Hrefl.
  - split; [exact I1|]. split.
    + rewrite Forall_forall in *. intros [k p] Hin.
      destruct (I2 _ Hin) as (Hk & Hce & Hpe). cbn [fst snd] in *.
      split; [exact Hk|]. rewrite !not_stored by (rewrite Hb; reflexivity).
      auto.
    + intros o' Hin' Hb'. apply in_app_or in Hin'.
      destruct Hin' as [Hin'|[<-|[]]]; [apply I3; assumption|congruence].
Qed.

(** The dictionary the grouping loop returns. *)
Lemma group_by_strike_grouped (cfg : Config) (current_price : float)
    (options : list OptionEntry) :
  grouped cfg current_price options
          (group_by_strike cfg current_price options).
Proof.
  unfold group_by_strike.
  induction options as [|o options IH] using rev_ind.
  - split; [constructor|]. split; [constructor|]. intros o [].
  - rewrite fold_left_app. cbn [fold_left]. apply grouped_step, IH.
Qed.

End GroupingFacts.

(** ** The two passes: lemmas *)

Module PassFacts.

Import NseApi StreamlitApp Rows Views.
Local Open Scope float_scope.

(** Rows of a loop that appends at most one row per item: a relation
    between the items carries over to the rows. *)
Lemma for_each_appending_pairs {A R : Type} (f : A -> result (option R))
    (P : A -> A -> Prop) (Q : R -> R -> Prop) (l : list A) :
  (forall a b ra rb,
     P a b -> f a = Ok (Some ra) -> f b = Ok (Some rb) -> Q ra rb) ->
  ForallOrdPairs P l ->
  ForallOrdPairs Q (fst (for_each (fun a => appending (f a)) l)).
Proof.
  intros HPQ. induction 1 as [|a l Ha Hl IH]; cbn [for_each]; [constructor|].
  destruct (f a) as [[ra|]|e] eqn:Ea; cbn [appending].
  - destruct (for_each _ l) as [rs o] eqn:Hf. cbn [fst app] in *.
    constructor; [|exact IH].
    apply Forall_forall. intros rb Hrb.
    assert (Hin : In rb (fst (for_each (fun a => appending (f a)) l)))
      by (rewrite Hf; exact Hrb).
    apply for_each_In in Hin. destruct Hin as (b & Hb & Hrb').
    apply appending_In in Hrb'.
    rewrite Forall_forall in Ha. exact (HPQ _ _ _ _ (Ha _ Hb) Ea Hrb').
  - destruct (for_each _ l) as [rs o] eqn:Hf. cbn [fst app] in *. exact IH.
  - constructor.
Qed.

(** The symbol of a straddle row is the symbol of the pass. *)
Lemma straddle_row_symbol (cfg : Config) (sym : string)
    (current_price : float) (lot_size : Z) (options : list OptionEntry)
    (r : Strategy1.Opportunity) :
  In r (fst (Strategy1.straddles_of_options
               cfg sym current_price lot_size options)) ->
  Strategy1.Symbol r = sym.
Proof.
  unfold Strategy1.straddles_of_options. intros H.
  apply for_each_In in H. destruct H as ([k p] & _ & H).
  apply appending_In in H. apply Strategy1Facts.straddle_of_Some in H.
  destruct H as (ce & pe & _ & _ & Hs & _). exact Hs.
Qed.

(** The symbol of a covered-call row is the symbol of the pass. *)
Lemma covered_call_row_symbol (cfg : Config) (sym : string)
    (current_price : float) (lot_size : Z) (options : list OptionEntry)
    (r : Strategy2.Opportunity) :
  In r (fst (Strategy2.covered_calls_of_options
               cfg sym current_price lot_size options)) ->
  Strategy2.Symbol r = sym.
Proof.
  unfold Strategy2.covered_calls_of_options. intros H.
  apply for_each_In in H. destruct H as (opt & _ & H).
  apply appending_In in H.
  destruct (Strategy2Facts.covered_call_of_Some _ _ _ _ _ _ H) as (Hq & _).
  destruct (Strategy2Facts.covered_call_of_qualified _ _ _ _ _ _ Hq H)
    as (r' & E & Hs & _).
  inversion E; subst r'. exact Hs.
Qed.

(** A row of the list of a strategy is a row of the pass of one of the
    stocks over one of the months. *)
Lemma all_opportunities_In (cfg : Config) (fetcher : NSEDataFetcher)
    (stocks months : list string) (r : Strategy1.Opportunity) :
  In r (Strategy1.all_opportunities cfg fetcher stocks months) ->
  exists sym month lot_size options,
    In sym stocks /\ In month months /\
    get_lot_size fetcher sym = Ok lot_size /\
    (get_stock_price fetcher sym =? 0) = false /\
    get_options_data fetcher sym (Some month) = Ok options /\
    In r (fst (Strategy1.straddles_of_options
                 cfg sym (get_stock_price fetcher sym) lot_size options)).
Proof.
  unfold Strategy1.all_opportunities. intros H.
  apply in_flat_map in H. destruct H as (sym & Hsym & H).
  unfold Strategy1.short_straddle_symbol in H.
  destruct (get_lot_size fetcher sym) as [lot_size|e] eqn:Hlot; [|destruct H].
  apply EvaluatorFacts.evaluate_short_straddle_In in H.
  destruct H as (Hp & month & options & Hm & Ho & H).
  exists sym, month, lot_size, options. auto 10.
Qed.

Lemma all_opportunities2_In (cfg : Config) (fetcher : NSEDataFetcher)
    (stocks months : list string) (r : Strategy2.Opportunity) :
  In r (Strategy2.all_opportunities2 cfg fetcher stocks months) ->
  exists sym month lot_size options,
    In sym stocks /\ In month months /\
    get_lot_size fetcher sym = Ok lot_size /\
    (get_stock_price fetcher sym =? 0) = false /\
    get_options_data fetcher sym (Some month) = Ok options /\
    In r (fst (Strategy2.covered_calls_of_options
                 cfg sym (get_stock_price fetcher sym) lot_size options)).
Proof.
  unfold Strategy2.all_opportunities2. intros H.
  apply in_flat_map in H. destruct H as (sym & Hsym & H).
  unfold Strategy2.covered_call_symbol in H.
  destruct (get_lot_size fetcher sym) as [lot_size|e] eqn:Hlot; [|destruct H].
  apply EvaluatorFacts.evaluate_covered_call_In in H.
  destruct H as (Hp & month & options & Hm & Ho & H).
  exists sym, month, lot_size, options. auto 10.
Qed.

End PassFacts.

(** ** Addition of floats *)

Module FloatAddFacts.

Import Binary64 Binary64Facts.

(** The sum of two finite floats is their exact sum, rounded. *)
Lemma SFadd_spec (x y : spec_float) :
  valid_binary x = true -> valid_binary y = true ->
  finite_or_zero x = true -> finite_or_zero y = true ->
  SFadd prec emax x y <> S754_nan /\
  ulps (SFadd prec emax x y) = srnd (ulps x + ulps y) 1.
Proof.
  intros Vx Vy Fx Fy.
  destruct x as [sx|sx| |sx mx ex]; try discriminate;
    destruct y as [sy|sy| |sy my ey]; try discriminate.
  - split.
    + destruct sx, sy; discriminate.
    + destruct sx, sy; reflexivity.
  - split; [discriminate|].
    change (ulps (S754_zero sx)) with 0. rewrite Z.add_0_l.
    rewrite srnd_repr by (reflexivity || assumption). reflexivity.
  - split; [discriminate|].
    change (ulps (S754_zero sy)) with 0. rewrite Z.add_0_r.
    rewrite srnd_repr by (reflexivity || assumption). reflexivity.
  - destruct (valid_finite _ _ _ Vx) as (Hex & _).
    destruct (valid_finite _ _ _ Vy) as (Hey & _).
    cbn [SFadd]. set (ez := Z.min ex ey).
    destruct (shl_align_spec mx ex ez) as [_ Ex].
    destruct (shl_align_spec my ey ez) as [_ Ey].
    replace (Z.min ex ez) with ez in Ex by lia.
    replace (Z.min ey ez) with ez in Ey by lia.
    rewrite Ex, Ey.
    destruct (binary_normalize_spec
                (cond_Zopp sx (Z.pos mx * 2 ^ (ex - ez))
                 + cond_Zopp sy (Z.pos my * 2 ^ (ey - ez))) ez)
      as (V & N & U); [lia|].
    split; [exact N|]. rewrite U. f_equal. cbn [ulps].
    rewrite Z.mul_add_distr_r.
    assert (A : forall s m e, ez <= e ->
              cond_Zopp s (Z.pos m * 2 ^ (e - ez)) * 2 ^ (ez + 1074)
              = cond_Zopp s (Z.pos m * 2 ^ (e + 1074))).
    { intros s m e H.
      replace (e + 1074) with (e - ez + (ez + 1074)) by lia.
      rewrite (Z.pow_add_r 2 (e - ez)) by lia.
      destruct s; cbn [cond_Zopp]; ring. }
    rewrite !A by lia. reflexivity.
Qed.

(** For numbers, the order of the values is the order of the floats. *)
Lemma leb_of_ulps (x y : float) :
  Prim2SF x <> S754_nan -> Prim2SF y <> S754_nan ->
  ulps (Prim2SF x) <= ulps (Prim2SF y) -> (x <=? y)%float = true.
Proof.
  intros Nx Ny H. rewrite leb_spec. unfold SFleb.
  rewrite (SFcompare_ulps _ _ (Prim2SF_valid x) (Prim2SF_valid y) Nx Ny).
  destruct (Z.compare_spec (ulps (Prim2SF x)) (ulps (Prim2SF y)));
    try reflexivity; lia.
Qed.

(** [k - c] is at most [k + c] when [c] is not negative. *)
Lemma sub_le_add (k c : float) :
  Prim2SF k <> S754_nan -> is_finite c -> (0 <=? c)%float = true ->
  Prim2SF (k - c) <> S754_nan /\ Prim2SF (k + c) <> S754_nan /\
  ulps (Prim2SF (k - c)) <= ulps (Prim2SF (k + c)).
Proof.
  intros Nk Fc Hc. unfold is_finite in Fc.
  rewrite leb_spec in Hc.
  destruct (SFleb_ulps _ _ (Prim2SF_valid 0) (Prim2SF_valid c) Hc)
    as (_ & _ & Hc0).
  change (ulps (Prim2SF 0)) with 0 in Hc0.
  rewrite sub_spec, add_spec. unfold SF64sub, SF64add.
  destruct (finite_or_zero (Prim2SF k)) eqn:Fk.
  - destruct (SFsub_spec _ _ (Prim2SF_valid k) (Prim2SF_valid c) Fk Fc)
      as [N1 U1].
    destruct (SFadd_spec _ _ (Prim2SF_valid k) (Prim2SF_valid c) Fk Fc)
      as [N2 U2].
    split; [exact N1|]. split; [exact N2|].
    rewrite U1, U2. apply srnd_mono; lia.
  - destruct (not_finite_or_zero _ Nk Fk) as [s E]. rewrite E.
    destruct (Prim2SF c) as [sc|sc| |sc mc ec]; try discriminate;
      cbn [SFsub SFadd]; repeat split; try discriminate; lia.
Qed.

(** An operand of a comparison that holds is a number. *)
Lemma leb_number_r (x y : float) :
  (x <=? y)%float = true -> Prim2SF y <> S754_nan.
Proof.
  rewrite leb_spec. intros H.
  apply (SFleb_ulps _ _ (Prim2SF_valid x) (Prim2SF_valid y) H).
Qed.

End FloatAddFacts.

(** ** The error of a rounding *)

Module RoundingErrorFacts.

Import Binary64 Binary64Facts.

(** Rounding to the nearest integer moves a quotient by at most a half. *)
Lemma rne_error (a b : Z) : 0 < b -> 2 * Z.abs (rne a b * b - a) <= b.
Proof.
  intros Hb. unfold rne.
  pose proof (Z.div_mod a b ltac:(lia)) as E.
  pose proof (Z.mod_pos_bound a b Hb) as M.
  destruct (Z.compare_spec (2 * (a mod b)) b) as [C|C|C].
  - destruct (Z.even (a / b)); nia.
  - nia.
  - nia.
Qed.

(** Rounding to a float moves a value by at most half a unit in the last
    place: half a unit of [2^-1074], or one part in [2^53] of the value. *)
Lemma rnd_error (a b : Z) :
  0 < b -> 0 <= a -> rnd a b < cap ->
  2 ^ 53 * Z.abs (rnd a b * b - a) <= 2 ^ 52 * b + a.
Proof.
  intros Hb Ha. unfold rnd.
  set (s := Z.max 0 (Zdigits2 (a / b) - 53)).
  assert (Hs : 0 <= s) by (unfold s; lia).
  pose proof (pow2_pos s Hs) as Hp.
  intros Hcap.
  assert (E : Z.min cap (rne a (b * 2 ^ s) * 2 ^ s) = rne a (b * 2 ^ s) * 2 ^ s)
    by lia.
  rewrite E.
  pose proof (rne_error a (b * 2 ^ s) ltac:(nia)) as R.
  replace (rne a (b * 2 ^ s) * 2 ^ s * b) with (rne a (b * 2 ^ s) * (b * 2 ^ s))
    by ring.
  change (2 ^ 53) with (2 ^ 52 * 2).
  destruct (Z.eq_dec s 0) as [Z0|NZ].
  - rewrite Z0 in *. change (2 ^ 0) with 1 in *. rewrite Z.mul_1_r in *. nia.
  - assert (D : Zdigits2 (a / b) = s + 53) by (unfold s in *; lia).
    assert (Q : 0 < a / b).
    { destruct (Z.eq_dec (a / b) 0) as [Q0|Q0].
      - rewrite Q0 in D. change (Zdigits2 0) with 0 in D. lia.
      - pose proof (Z.div_pos a b Ha Hb). lia. }
    pose proof (Zdigits2_bounds _ Q) as [B _]. rewrite D in B.
    replace (s + 53 - 1) with (52 + s) in B by lia.
    rewrite Z.pow_add_r in B by lia.
    pose proof (Z.mul_div_le a b Hb) as L.
    nia.
Qed.

(** The sum or the difference of two floats: one part in [2^53]. *)
Lemma srnd_error_1 (x : Z) :
  Z.abs (srnd x 1) < cap -> 2 ^ 53 * Z.abs (srnd x 1 - x) <= Z.abs x.
Proof.
  assert (G : forall a, 0 <= a -> rnd a 1 < cap ->
                        2 ^ 53 * Z.abs (rnd a 1 - a) <= a).
  { intros a Ha. unfold rnd. rewrite Z.div_1_r, Z.mul_1_l.
    set (s := Z.max 0 (Zdigits2 a - 53)).
    assert (Hs : 0 <= s) by (unfold s; lia).
    pose proof (pow2_pos s Hs) as Hp. intros Hcap.
    assert (E : Z.min cap (rne a (2 ^ s) * 2 ^ s) = rne a (2 ^ s) * 2 ^ s)
      by lia.
    rewrite E.
    pose proof (rne_error a (2 ^ s) Hp) as R.
    change (2 ^ 53) with (2 ^ 52 * 2).
    destruct (Z.eq_dec s 0) as [Z0|NZ].
    - rewrite Z0 in *. change (2 ^ 0) with 1 in *.
      replace a with (a * 1) at 1 by ring. rewrite rne_exact by lia. lia.
    - assert (D : Zdigits2 a = s + 53) by (unfold s in *; lia).
      assert (Q : 0 < a).
      { destruct (Z.eq_dec a 0) as [Q0|Q0]; [|lia].
        rewrite Q0 in D. change (Zdigits2 0) with 0 in D. lia. }
      pose proof (Zdigits2_bounds _ Q) as [B _]. rewrite D in B.
      replace (s + 53 - 1) with (52 + s) in B by lia.
      rewrite Z.pow_add_r in B by lia. nia. }
  unfold srnd. destruct (Z.leb_spec 0 x) as [H|H]; intros Hc.
  - specialize (G x H ltac:(lia)). lia.
  - specialize (G (- x) ltac:(lia) ltac:(lia)). lia.
Qed.

(** [round(x, 2)]: half a cent, and one part in [2^53]. *)
Lemma round2_ulps_error (u : Z) :
  Z.abs (round2_ulps u) < cap ->
  2 ^ 53 * 100 * Z.abs (round2_ulps u - u)
  <= 100 * 2 ^ 52 + 100 * Z.abs u + 2 ^ 1074 + 2 ^ 52 * 2 ^ 1074.
Proof.
  assert (G : forall a, 0 <= a -> rnd (cents a * 2 ^ 1074) 100 < cap ->
    2 ^ 53 * 100 * Z.abs (rnd (cents a * 2 ^ 1074) 100 - a)
    <= 100 * 2 ^ 52 + 100 * a + 2 ^ 1074 + 2 ^ 52 * 2 ^ 1074).
  { intros a Ha Hc.
    pose proof (cents_nonneg a Ha) as Cn.
    assert (U : 0 < 2 ^ 1074) by (apply pow2_pos; lia).
    pose proof (rnd_error (cents a * 2 ^ 1074) 100 ltac:(lia) ltac:(nia) Hc) as R.
    pose proof (rne_error (100 * a) (2 ^ 1074) U) as C.
    fold (cents a) in C.
    set (r := rnd (cents a * 2 ^ 1074) 100) in *.
    set (c := cents a) in *. set (W := 2 ^ 1074) in *.
    change (2 ^ 53) with 9007199254740992 in *.
    change (2 ^ 52) with 4503599627370496 in *.
    lia. }
  unfold round2_ulps. destruct (Z.leb_spec 0 u) as [H|H]; intros Hc.
  - specialize (G u H ltac:(lia)). lia.
  - specialize (G (- u) ltac:(lia) ltac:(lia)). lia.
Qed.

(** The two roundings of a difference and of a sum, together. *)
Lemma symmetric_error (k c s l : Z) :
  let a := srnd (k - c) 1 in
  let b := srnd (k + c) 1 in
  s = round2_ulps a -> l = round2_ulps b ->
  Z.abs a < cap -> Z.abs b < cap -> Z.abs s < cap -> Z.abs l < cap ->
  100 * 2 ^ 50 * Z.abs (s + l - 2 * k)
  <= (2 ^ 50 + 100) * 2 ^ 1074 + 100 * (Z.abs k + Z.abs c).
Proof.
  intros a b Hs Hl Ca Cb Cs Cl.
  pose proof (srnd_error_1 (k - c) Ca) as Ea. fold a in Ea.
  pose proof (srnd_error_1 (k + c) Cb) as Eb. fold b in Eb.
  rewrite Hs in Cs. rewrite Hl in Cl.
  pose proof (round2_ulps_error a Cs) as Es. rewrite <- Hs in Es.
  pose proof (round2_ulps_error b Cl) as El. rewrite <- Hl in El.
  assert (U : 2 ^ 60 <= 2 ^ 1074) by (apply pow2_le; lia).
  set (W := 2 ^ 1074) in *.
  change (2 ^ 60) with 1152921504606846976 in U.
  change (2 ^ 53) with 9007199254740992 in *.
  change (2 ^ 52) with 4503599627370496 in *.
  change (2 ^ 50) with 1125899906842624 in *.
  clearbody a b W. lia.
Qed.

End RoundingErrorFacts.

(** ** The sum of the two safeties *)

Module SafetySumFacts.

Import Binary64 Binary64Facts.

Lemma round2_finite_inv (x : float) :
  is_finite (PyFloat.round2 x) -> is_finite x.
Proof.
  unfold is_finite. intros H.
  destruct (Prim2SF x) as [s|s| |s m e] eqn:E; try reflexivity.
  - rewrite (round2_infinity x s E), E in H. discriminate.
  - rewrite (round2_nan x E), E in H. discriminate.
Qed.

(** In units of [2^-1074]: the two safeties of a strike [k] and a premium
    [c] add up to twice the strike, within a cent and the rounding of four
    floats. *)
Lemma safety_sum_units (k c : float) :
  is_finite (PyFloat.round2 (k - c)) -> is_finite (PyFloat.round2 (k + c)) ->
  100 * 2 ^ 50
  * Z.abs (ulps (Prim2SF (PyFloat.round2 (k - c)))
           + ulps (Prim2SF (PyFloat.round2 (k + c)))
           - 2 * ulps (Prim2SF k))
  <= (2 ^ 50 + 100) * 2 ^ 1074
     + 100 * (Z.abs (ulps (Prim2SF k)) + Z.abs (ulps (Prim2SF c))).
Proof.
  intros Fs Fl.
  pose proof (round2_finite_inv _ Fs) as Fa.
  pose proof (round2_finite_inv _ Fl) as Fb.
  destruct (sub_finite _ _ Fa) as [Fk Fc].
  unfold is_finite in *.
  destruct (round2_spec _ Fa) as [_ Us].
  destruct (round2_spec _ Fb) as [_ Ul].
  pose proof (finite_ulps_lt_cap _ (Prim2SF_valid _) Fa) as Ca.
  pose proof (finite_ulps_lt_cap _ (Prim2SF_valid _) Fb) as Cb.
  pose proof (finite_ulps_lt_cap _ (Prim2SF_valid _) Fs) as Cs.
  pose proof (finite_ulps_lt_cap _ (Prim2SF_valid _) Fl) as Cl.
  assert (Ea : ulps (Prim2SF (k - c))
               = srnd (ulps (Prim2SF k) - ulps (Prim2SF c)) 1).
  { rewrite sub_spec. unfold SF64sub.
    apply (SFsub_spec _ _ (Prim2SF_valid k) (Prim2SF_valid c) Fk Fc). }
  assert (Eb : ulps (Prim2SF (k + c))
               = srnd (ulps (Prim2SF k) + ulps (Prim2SF c)) 1).
  { rewrite add_spec. unfold SF64add.
    apply (FloatAddFacts.SFadd_spec _ _ (Prim2SF_valid k) (Prim2SF_valid c)
             Fk Fc). }
  rewrite Ea in Us, Ca. rewrite Eb in Ul, Cb.
  apply RoundingErrorFacts.symmetric_error; try assumption; lia.
Qed.

(** The same on the values. *)
Lemma units_to_values (s l k c : Z) :
  100 * 2 ^ 50 * Z.abs (s + l - 2 * k)
  <= (2 ^ 50 + 100) * 2 ^ 1074 + 100 * (Z.abs k + Z.abs c) ->
  (Qabs (inject_Z s / inject_Z (2 ^ 1074) + inject_Z l / inject_Z (2 ^ 1074)
         - 2 * (inject_Z k / inject_Z (2 ^ 1074)))
   <= (1 # 100)
      + (Qabs (inject_Z k / inject_Z (2 ^ 1074))
         + Qabs (inject_Z c / inject_Z (2 ^ 1074)) + 1)
        / inject_Z (2 ^ 50))%Q.
Proof.
  intros H.
  assert (P : 0 < 2 ^ 1074) by (apply Binary64Facts.pow2_pos; lia).
  set (W := 2 ^ 1074) in *.
  assert (PQ : (0 < inject_Z W)%Q).
  { replace 0%Q with (inject_Z 0) by reflexivity. rewrite <- Zlt_Qlt. exact P. }
  assert (D : forall z, (Qabs (inject_Z z / inject_Z W)
                         == inject_Z (Z.abs z) / inject_Z W)%Q).
  { intros z. unfold Qdiv. rewrite Qabs_Qmult.
    rewrite (Qabs_pos (/ inject_Z W)).
    - reflexivity.
    - apply Qlt_le_weak, Qinv_lt_0_compat, PQ. }
  assert (E : (inject_Z s / inject_Z W + inject_Z l / inject_Z W
               - 2 * (inject_Z k / inject_Z W)
               == inject_Z (s + l - 2 * k) / inject_Z W)%Q).
  { unfold Zminus. rewrite !inject_Z_plus, inject_Z_opp, inject_Z_mult.
    field. intros Z0. rewrite Z0 in PQ. discriminate. }
  rewrite E, !D.
  rewrite Zle_Qle in H.
  repeat (rewrite inject_Z_plus in H || rewrite inject_Z_mult in H).
  set (A := inject_Z (Z.abs (s + l - 2 * k))) in *.
  set (K := inject_Z (Z.abs k)) in *.
  set (C := inject_Z (Z.abs c)) in *.
  set (U := inject_Z W) in *.
  change (inject_Z (2 ^ 50)) with (1125899906842624 # 1)%Q in *.
  change (inject_Z 100) with (100 # 1)%Q in *.
  assert (NZ : ~ (U == 0)%Q).
  { intros Z0. rewrite Z0 in PQ. discriminate. }
  assert (F : ((100 # 1) * (1125899906842624 # 1) * (A / U)
               <= (1125899906842624 # 1) + (100 # 1)
                  + (100 # 1) * (K / U + C / U))%Q).
  { apply (Qmult_le_r _ _ U PQ).
    setoid_replace ((100 # 1) * (1125899906842624 # 1) * (A / U) * U)%Q
      with ((100 # 1) * (1125899906842624 # 1) * A)%Q by (field; exact NZ).
    setoid_replace (((1125899906842624 # 1) + (100 # 1)
                     + (100 # 1) * (K / U + C / U)) * U)%Q
      with (((1125899906842624 # 1) + (100 # 1)) * U + (100 # 1) * (K + C))%Q
      by (field; exact NZ).
    exact H. }
  clear H.
  set (a := (A / U)%Q) in *. set (x := (K / U)%Q) in *. set (y := (C / U)%Q) in *.
  clearbody a x y. clear - F.
  setoid_replace ((1 # 100) + (x + y + 1) / (1125899906842624 # 1))%Q
    with (((1125899906842624 # 1) + (100 # 1) + (100 # 1) * (x + y))
          / ((100 # 1) * (1125899906842624 # 1)))%Q
    by field.
  apply Qle_shift_div_l; [reflexivity|].
  setoid_replace (a * ((100 # 1) * (1125899906842624 # 1)))%Q
    with ((100 # 1) * (1125899906842624 # 1) * a)%Q by ring.
  exact F.
Qed.

End SafetySumFacts.

(** ** The lot-size file: lemmas *)

Module LotSizeFacts.

Import NseApi NseApiCache Views.

(** Lookup after an assignment. *)
Lemma dict_get_set (lot_sizes : lot_dict) (k k' : string) (v : Z) :
  dict_get (dict_set lot_sizes k v) k'
  = if String.eqb k k' then Some v else dict_get lot_sizes k'.
Proof.
  induction lot_sizes as [|[k0 v0] rest IH]; cbn [dict_set dict_get].
  - reflexivity.
  - destruct (String.eqb_spec k0 k) as [->|Hne]; cbn [dict_get].
    + destruct (String.eqb k k'); reflexivity.
    + rewrite IH. destruct (String.eqb_spec k0 k') as [->|Hne'];
        [|reflexivity].
      destruct (String.eqb_spec k k') as [->|_]; [congruence|reflexivity].
Qed.

Lemma dict_set_not_nil (lot_sizes : lot_dict) (k : string) (v : Z) :
  dict_set lot_sizes k v <> [].
Proof.
  destruct lot_sizes as [|[k0 v0] rest]; cbn [dict_set]; [discriminate|].
  destruct (String.eqb k0 k); discriminate.
Qed.

Lemma decimal_nonneg (ds : list Z) :
  forall acc, Forall (fun d => 0 <= d) ds -> 0 <= acc -> 0 <= decimal ds acc.
Proof.
  induction ds as [|d ds IH]; cbn [decimal]; intros acc H Hacc.
  - exact Hacc.
  - inversion H; subst. apply IH; [assumption|lia].
Qed.

Lemma digits_nonneg (l : list string) :
  forall ds, digits l = Some ds -> Forall (fun d => 0 <= d) ds.
Proof.
  induction l as [|ch l IH]; cbn [digits]; intros ds H.
  - inversion H. constructor.
  - destruct (PyParse.decimal_value (PyStr.ord ch)) as [d|]; [|discriminate].
    destruct (digits l) as [ds'|]; [|discriminate].
    inversion H; subst. constructor; [lia|]. apply IH. reflexivity.
Qed.

Lemma int_of_digits_nonneg (value : string) (n : Z) :
  isdigit value = true -> int_of_digits value = Ok n -> 0 <= n.
Proof.
  unfold int_of_digits. intros _.
  destruct (digits (PyStr.chars value)) as [ds|] eqn:E; [|discriminate].
  destruct (int_max_str_digits <? List.length ds)%nat; [discriminate|].
  intros H. inversion H.
  apply decimal_nonneg; [exact (digits_nonneg _ _ E)|lia].
Qed.

(** What the loop over the month columns found. *)
Lemma first_lot_size_Some (cells : list string) (n : Z) :
  first_lot_size cells = Ok (Some n) ->
  exists value, lot_cell cells value /\ int_of_digits value = Ok n.
Proof.
  induction cells as [|cell rest IH]; cbn [first_lot_size]; [discriminate|].
  destruct (isdigit (PyStr.strip cell)) eqn:Hd.
  - assert (Hne : negb (String.eqb (PyStr.strip cell) "") = true).
    { unfold isdigit in Hd. apply andb_prop in Hd. tauto. }
    rewrite Hne. cbn [andb]. intros H.
    apply bind_Ok in H. destruct H as (m & Hm & H). inversion H; subst m.
    exists (PyStr.strip cell). split; [|exact Hm].
    exists [], cell, rest. repeat split; [exact Hd|constructor].
  - rewrite andb_false_r. intros H.
    destruct (IH H) as (value & (before & c & after & -> & Hv & Hdv & Hb) & Hn).
    exists value. split; [|exact Hn].
    exists (cell :: before), c, after. repeat split; try assumption.
    constructor; assumption.
Qed.

Lemma first_lot_size_cell (cells : list string) (value : string) :
  lot_cell cells value ->
  first_lot_size cells = (n <- int_of_digits value ;; Ok (Some n)).
Proof.
  intros (before & cell & after & -> & -> & Hd & Hb).
  induction Hb as [|c before Hc Hb IH]; cbn [app first_lot_size].
  - rewrite Hd.
    assert (Hne : negb (String.eqb (PyStr.strip cell) "") = true).
    { unfold isdigit in Hd. apply andb_prop in Hd. tauto. }
    rewrite Hne. reflexivity.
  - rewrite Hc, andb_false_r. exact IH.
Qed.

(** A row that gives a lot size stores it. *)
Lemma parse_row_gives (lot_sizes : lot_dict) (row : list string)
    (symbol : string) (n : Z) :
  gives row symbol n ->
  parse_row lot_sizes row = Ok (dict_set lot_sizes symbol n).
Proof.
  intros (Hlen & -> & Hne & Hns & value & Hcell & Hint & Hpos).
  unfold parse_row.
  apply Nat.ltb_lt in Hlen. rewrite Hlen.
  apply String.eqb_neq in Hne, Hns. rewrite Hne, Hns. cbn [orb].
  rewrite (first_lot_size_cell _ _ Hcell), Hint. cbn [bind].
  destruct (Z.eqb_spec n 0); [lia|reflexivity].
Qed.

(** What a row leaves in the dictionary. *)
Lemma parse_row_get (lot_sizes lot_sizes' : lot_dict) (row : list string)
    (symbol : string) (n : Z) :
  parse_row lot_sizes row = Ok lot_sizes' ->
  dict_get lot_sizes' symbol = Some n ->
  dict_get lot_sizes symbol = Some n \/ gives row symbol n.
Proof.
  unfold parse_row.
  destruct (1 <? List.length row)%nat eqn:Hlen;
    [|intros H; inversion H; subst; auto].
  destruct (String.eqb_spec (PyStr.strip (nth 1 row ""%string)) "") as [E1|E1];
    [intros H; inversion H; subst; auto|].
  destruct (String.eqb_spec (PyStr.strip (nth 1 row ""%string)) "Symbol")
    as [E2|E2]; [intros H; inversion H; subst; auto|].
  cbn [orb]. intros H. apply bind_Ok in H. destruct H as (lot & Hlot & H).
  destruct lot as [m|]; [|inversion H; subst; auto].
  destruct (Z.eqb_spec m 0) as [E0|E0]; inversion H; subst; clear H; auto.
  rewrite dict_get_set.
  destruct (String.eqb_spec (PyStr.strip (nth 1 row ""%string)) symbol)
    as [Es|Es]; [|auto].
  intros Hn. inversion Hn; subst m. right.
  destruct (first_lot_size_Some _ _ Hlot) as (value & Hcell & Hint).
  apply Nat.ltb_lt in Hlen.
  repeat split; try assumption; try congruence.
  exists value. repeat split; try assumption.
  destruct Hcell as (_ & _ & _ & _ & _ & Hd & _).
  pose proof (int_of_digits_nonneg _ _ Hd Hint). lia.
Qed.

(** A row with another symbol leaves the lot size of a symbol alone. *)
Lemma parse_row_other (lot_sizes lot_sizes' : lot_dict) (row : list string)
    (symbol : string) :
  parse_row lot_sizes row = Ok lot_sizes' ->
  symbol_of row <> Some symbol ->
  dict_get lot_sizes' symbol = dict_get lot_sizes symbol.
Proof.
  unfold parse_row, symbol_of.
  destruct (1 <? List.length row)%nat;
    [|intros H; inversion H; subst; auto].
  destruct (_ || _); [intros H; inversion H; subst; auto|].
  intros H Hs. apply bind_Ok in H. destruct H as (lot & Hlot & H).
  destruct lot as [m|]; [|inversion H; subst; auto].
  destruct (m =? 0); inversion H; subst; clear H; auto.
  rewrite dict_get_set.
  destruct (String.eqb_spec (PyStr.strip (nth 1 row ""%string)) symbol)
    as [Es|Es]; [congruence|reflexivity].
Qed.

(** What the rows leave in the dictionary. *)
Lemma parse_rows_get (rows : list (list string)) :
  forall lot_sizes lot_sizes' o symbol n,
    parse_rows lot_sizes rows = (lot_sizes', o) ->
    dict_get lot_sizes' symbol = Some n ->
    dict_get lot_sizes symbol = Some n \/
    exists row, In row rows /\ gives row symbol n.
Proof.
  induction rows as [|row rows IH]; cbn [parse_rows];
    intros lot_sizes lot_sizes' o symbol n H Hn.
  - inversion H; subst. auto.
  - destruct (parse_row lot_sizes row) as [d1|e] eqn:Hr.
    + destruct (IH _ _ _ _ _ H Hn) as [H1|(r & Hin & Hg)].
      * destruct (parse_row_get _ _ _ _ _ Hr H1) as [H0|Hg]; [auto|].
        right. exists row. split; [left; reflexivity|exact Hg].
      * right. exists r. split; [right; exact Hin|exact Hg].
    + inversion H; subst. auto.
Qed.

Lemma parse_rows_app (rows1 rows2 : list (list string)) :
  forall lot_sizes,
    snd (parse_rows lot_sizes rows1) = Done ->
    parse_rows lot_sizes (rows1 ++ rows2)
    = parse_rows (fst (parse_rows lot_sizes rows1)) rows2.
Proof.
  induction rows1 as [|row rows1 IH]; cbn [parse_rows app]; intros d H.
  - reflexivity.
  - destruct (parse_row d row) as [d1|e]; [apply IH, H|discriminate].
Qed.

Lemma parse_rows_other (rows : list (list string)) (symbol : string) :
  forall lot_sizes,
    Forall (fun r => symbol_of r <> Some symbol) rows ->
    dict_get (fst (parse_rows lot_sizes rows)) symbol
    = dict_get lot_sizes symbol.
Proof.
  induction rows as [|row rows IH]; cbn [parse_rows]; intros d H.
  - reflexivity.
  - inversion H; subst.
    destruct (parse_row d row) as [d1|e] eqn:Hr; [|reflexivity].
    rewrite IH by assumption. exact (parse_row_other _ _ _ _ Hr H2).
Qed.

Lemma parse_rows_Done_cons (lot_sizes : lot_dict) (row : list string)
    (rows : list (list string)) :
  snd (parse_rows lot_sizes (row :: rows)) = Done ->
  exists d1, parse_row lot_sizes row = Ok d1 /\
             snd (parse_rows d1 rows) = Done.
Proof.
  cbn [parse_rows]. destruct (parse_row lot_sizes row) as [d1|e];
    [eauto|discriminate].
Qed.

End LotSizeFacts.

(** ** The cache directory: lemmas *)

Module CacheFacts.

Import NseApiCache Views.

Lemma parse_rows_Done_app (rows1 rows2 : list (list string)) :
  forall lot_sizes,
    snd (parse_rows lot_sizes (rows1 ++ rows2)) = Done ->
    snd (parse_rows lot_sizes rows1) = Done.
Proof.
  induction rows1 as [|row rows1 IH]; cbn [parse_rows app]; intros d H.
  - reflexivity.
  - destruct (parse_row d row) as [d1|e]; [apply IH, H|discriminate].
Qed.

Lemma In_insert_desc (x y : string * Z) (sorted : listing) :
  In y (insert_desc x sorted) <-> y = x \/ In y sorted.
Proof.
  induction sorted as [|z rest IH]; cbn [insert_desc].
  - cbn [In]. intuition congruence.
  - destruct (snd z <? snd x); cbn [In]; [intuition congruence|].
    rewrite IH. intuition congruence.
Qed.

Lemma In_sort_desc (x : string * Z) (files : listing) :
  In x (sort_desc files) <-> In x files.
Proof.
  unfold sort_desc.
  assert (G : forall l acc,
            In x (fold_left (fun sorted y => insert_desc y sorted) l acc)
            <-> In x l \/ In x acc).
  { induction l as [|y l IH]; intros acc; cbn [fold_left In].
    - tauto.
    - rewrite IH, In_insert_desc. intuition congruence. }
  rewrite G. cbn [In]. tauto.
Qed.

(** The times of a sorted list do not increase. *)
Lemma insert_desc_sorted (x : string * Z) (sorted : listing) :
  ForallOrdPairs (fun a b => snd b <= snd a) sorted ->
  ForallOrdPairs (fun a b => snd b <= snd a) (insert_desc x sorted).
Proof.
  induction 1 as [|z rest Hz Hrest IH]; cbn [insert_desc].
  - constructor; constructor.
  - destruct (Z.ltb_spec (snd z) (snd x)) as [L|L].
    + constructor; [|constructor; assumption].
      constructor; [lia|].
      rewrite Forall_forall in *. intros b Hb. specialize (Hz b Hb). lia.
    + constructor; [|exact IH].
      rewrite Forall_forall in *. intros b Hb.
      apply In_insert_desc in Hb. destruct Hb as [->|Hb]; [lia|auto].
Qed.

Lemma sort_desc_sorted (files : listing) :
  ForallOrdPairs (fun a b => snd b <= snd a) (sort_desc files).
Proof.
  unfold sort_desc.
  assert (G : forall l acc,
            ForallOrdPairs (fun a b => snd b <= snd a) acc ->
            ForallOrdPairs (fun a b => snd b <= snd a)
              (fold_left (fun sorted y => insert_desc y sorted) l acc)).
  { induction l as [|y l IH]; intros acc H; cbn [fold_left]; [exact H|].
    apply IH, insert_desc_sorted, H. }
  apply G. constructor.
Qed.

(** The first file of the sorted list is a most recent one. *)
Lemma sort_desc_head (files : listing) (x : string * Z) (rest : listing) :
  sort_desc files = x :: rest ->
  In x files /\ forall y, In y files -> snd y <= snd x.
Proof.
  intros E. split.
  - apply In_sort_desc. rewrite E. left. reflexivity.
  - intros y Hy. apply In_sort_desc in Hy. rewrite E in Hy.
    pose proof (sort_desc_sorted files) as S. rewrite E in S.
    inversion S as [|a l Ha Hl]; subst.
    destruct Hy as [->|Hy]; [lia|].
    rewrite Forall_forall in Ha. exact (Ha _ Hy).
Qed.

Lemma sort_desc_nil (files : listing) : sort_desc files = [] -> files = [].
Proof.
  intros E. destruct files as [|x files]; [reflexivity|].
  assert (H : In x (sort_desc (x :: files))).
  { apply In_sort_desc. left. reflexivity. }
  rewrite E in H. destruct H.
Qed.

(** A name is listed once. *)
Lemma NoDup_fst_In {A B : Type} (l : list (A * B)) (k : A) (v1 v2 : B) :
  NoDup (map fst l) -> In (k, v1) l -> In (k, v2) l -> v1 = v2.
Proof.
  induction l as [|[k0 v0] l IH]; cbn [map fst In]; [tauto|].
  intros H H1 H2. inversion H as [|? ? Hnin Hnd]; subst.
  destruct H1 as [E1|H1]; destruct H2 as [E2|H2].
  - congruence.
  - inversion E1; subst. destruct Hnin.
    apply in_map_iff. exists (k, v2). auto.
  - inversion E2; subst. destruct Hnin.
    apply in_map_iff. exists (k, v1). auto.
  - apply IH; assumption.
Qed.

(** The file chosen in the cache directory is not older than the cutoff. *)
Lemma select_cache_fresh (today_exists dir_exists : bool) (files : listing)
    (cutoff_date : Z) (f : string) :
  select_cache today_exists dir_exists files cutoff_date = Cached f ->
  exists t, In (f, t) files /\ (cutoff_date <= t)%Z.
Proof.
  unfold select_cache.
  destruct today_exists; [discriminate|].
  destruct dir_exists; [|discriminate]. cbn [negb].
  destruct (sort_desc (recent_cache_files files cutoff_date))
    as [|[f0 t0] rest] eqn:E; [discriminate|].
  intros H. inversion H; subst f0. clear H.
  destruct (sort_desc_head _ _ _ E) as [Hin _].
  unfold recent_cache_files in Hin. apply filter_In in Hin.
  destruct Hin as [Hin Hok]. cbn [fst snd] in Hok.
  apply andb_prop in Hok. destruct Hok as [_ Ht]. apply Z.leb_le in Ht.
  eauto.
Qed.

End CacheFacts.

(** ** Covered call: how a pass and a symbol end *)

Module CoveredCallPassFacts.

Import NseApi StreamlitApp Strategy2 Rows Views.
Local Open Scope string_scope.
Local Open Scope float_scope.

(** The rows of a pass, however it ended: one for each qualifying entry the
    pass got through, in their order; all of them when it ran to its end,
    those before the entry that raised otherwise. *)
Lemma covered_calls_split (cfg : Config) (sym : string)
    (current_price : float) (lot_size : Z) (options : list OptionEntry)
    (rs : list Opportunity) (o : outcome) :
  covered_calls_of_options cfg sym current_price lot_size options = (rs, o) ->
  exists reached,
    rows_of cfg sym current_price lot_size reached rs /\
    match o with
    | Done => reached = filter (qualifies cfg current_price) options
    | Raised e =>
        exists opt rest,
          filter (qualifies cfg current_price) options
          = (reached ++ opt :: rest)%list /\
          covered_call_of cfg sym current_price lot_size opt = Raise e
    end.
Proof.
  unfold covered_calls_of_options, rows_of. revert rs o.
  induction options as [|opt options IH]; intros rs o H.
  - inversion H. exists []. split; [constructor|reflexivity].
  - cbn [for_each filter] in *.
    destruct (qualifies cfg current_price opt) eqn:Hq.
    + destruct (covered_call_of cfg sym current_price lot_size opt)
        as [row|e] eqn:Hc; cbn [appending] in H.
      * destruct (Strategy2Facts.covered_call_of_qualified _ _ _ _ _ _ Hq Hc)
          as (r & -> & _).
        destruct (for_each _ options) as [rs' o'] eqn:Hf.
        inversion H; subst rs o; clear H.
        destruct (IH rs' o' eq_refl) as (reached & HF & Ho).
        exists (opt :: reached). split; [constructor; assumption|].
        destruct o' as [|e].
        -- rewrite Ho. reflexivity.
        -- destruct Ho as (x & rest & -> & Hx). exists x, rest. auto.
      * inversion H; subst rs o; clear H.
        exists []. split; [constructor|].
        exists opt, (filter (qualifies cfg current_price) options).
        split; [reflexivity|].
        exact Hc.
    + rewrite (Strategy2Facts.covered_call_of_skip _ _ _ _ _ Hq) in H.
      cbn [appending] in H.
      destruct (for_each _ options) as [rs' o'] eqn:Hf.
      inversion H; subst rs o; clear H.
      exact (IH rs' o' eq_refl).
Qed.

(** What a month of the evaluator leaves, by the way it ended. *)
Lemma month_body_done (cfg : Config) (sym : string) (current_price : float)
    (lot_size : Z) (fetch : string -> result (list OptionEntry))
    (month : string) :
  let body :=
    match fetch month with
    | Ok options =>
        covered_calls_of_options cfg sym current_price lot_size options
    | Raise e => ([], Raised e)
    end in
  snd body = Done ->
  month_done cfg sym current_price lot_size fetch month (fst body).
Proof.
  cbv zeta. unfold month_done.
  destruct (fetch month) as [options|e]; [|discriminate].
  destruct (covered_calls_of_options _ _ _ _ options) as [rs o] eqn:E.
  cbn [fst snd]. intros ->.
  destruct (covered_calls_split _ _ _ _ _ _ _ E) as (reached & HF & ->).
  exists options. auto.
Qed.

Lemma month_body_cut (cfg : Config) (sym : string) (current_price : float)
    (lot_size : Z) (fetch : string -> result (list OptionEntry))
    (month : string) (rs : list Opportunity) (e : exn) :
  match fetch month with
  | Ok options =>
      covered_calls_of_options cfg sym current_price lot_size options
  | Raise e => ([], Raised e)
  end = (rs, Raised e) ->
  month_cut cfg sym current_price lot_size fetch month rs e.
Proof.
  unfold month_cut.
  destruct (fetch month) as [options|e1].
  - intros E. right.
    destruct (covered_calls_split _ _ _ _ _ _ _ E)
      as (reached & HF & opt & rest & Hq & Hc).
    exists options, reached, opt, rest. auto.
  - intros E. inversion E; subst. left. auto.
Qed.

End CoveredCallPassFacts.

(** * The specification, statement by statement *)

Module Conformance.

Import NseApi StreamlitApp Rows Views.
Local Open Scope string_scope.
Local Open Scope float_scope.

(** C1. Every row of a short-straddle pass has the price of the symbol and
    two legs of the month's options at the row's strike, and its metrics are
    those of the metrics block: [C+P] is the sum of the two premiums rounded
    to two places, [Investment] is [margin * 2 * lot_size * price] cut to an
    integer, [MAX Profit] is [(call + put) * lot_size] cut to an integer and
    [MAX ROI %] is [100 * max_profit / investment], from the uncut values,
    rounded to two places.  For price 120, lot size 8000, margin 0.25 and
    premiums 3.5 and 3.2 at strike 120 the only row has C+P 6.7, investment
    480000, profit 53600 and ROI 11.17. *)
Theorem straddle_row_metrics :
  (forall cfg sym current_price lot_size options r,
     In r (fst (Strategy1.straddles_of_options
                  cfg sym current_price lot_size options)) ->
     Strategy1.Current r = current_price /\
     straddle_legs options r /\
     straddle_metrics cfg lot_size r) /\
  Strategy1.straddles_of_options default_config "PNB" 120 8000
    [pnb "CE" 120 3.5; pnb "PE" 120 3.2]
  = ([pnb_straddle], Done) /\
  Strategy1.C_plus_P pnb_straddle = 6.7 /\
  Strategy1.Investment pnb_straddle = 480000%Z /\
  Strategy1.MAX_Profit pnb_straddle = 53600%Z /\
  Strategy1.MAX_ROI_pct pnb_straddle = 11.17.
Proof.
  split.
  - intros cfg sym current_price lot_size options r H.
    apply Strategy1Facts.straddle_row_sound in H. tauto.
  - vm_compute. repeat split; reflexivity.
Qed.

(** The statement above at the row of the example. *)
Lemma straddle_row_metrics_example :
  In pnb_straddle
     (fst (Strategy1.straddles_of_options default_config "PNB" 120 8000
             [pnb "CE" 120 3.5; pnb "PE" 120 3.2])) /\
  Strategy1.Current pnb_straddle = 120 /\
  straddle_legs [pnb "CE" 120 3.5; pnb "PE" 120 3.2] pnb_straddle /\
  straddle_metrics default_config 8000 pnb_straddle.
Proof.
  assert (H : In pnb_straddle
     (fst (Strategy1.straddles_of_options default_config "PNB" 120 8000
             [pnb "CE" 120 3.5; pnb "PE" 120 3.2]))).
  { vm_compute. left. reflexivity. }
  split; [exact H|].
  exact (proj1 straddle_row_metrics _ _ _ _ _ _ H).
Defined.

(** The fields are not the exact values of the formulas: at margin 0.15,
    price 101.35 and lot size 1375 the investment is 41806.875 and the
    profit of premiums 3.55 and 3.2 is 9281.25, and the row holds 41806 and
    9281. *)
Lemma straddle_row_metrics_cut :
  map (fun r => (Strategy1.Investment r, Strategy1.MAX_Profit r))
      (fst (Strategy1.straddles_of_options margin_15 "PNB" 101.35 1375
              [pnb "CE" 100 3.55; pnb "PE" 100 3.2]))
  = [(41806%Z, 9281%Z)] /\
  0.15 * 2 * 1375 * 101.35 = 41806.875 /\
  (3.55 + 3.2) * 1375 = 9281.25.
Proof.
  vm_compute. repeat split; reflexivity.
Qed.

(** C2. Every row of a covered-call pass has the price of the symbol, and
    its metrics are those of the metrics block: [Investment] is
    [int(margin * lot_size * price)], the interest is
    [0.01 * margin * lot_size * price] rounded to two places, [MAX Profit]
    is [int((strike - price + call) * lot_size - interest)], [Safety Point]
    is [round(1.003 * price - call, 2)] and [Safety %] is
    [round((call - 0.003 * price) / price * 100, 2)].  For price 120, strike
    125, lot size 8000, margin 0.25 and premium 3.0 the only row has
    investment 240000, profit 61600, ROI 25.67, safety point 117.36 and
    safety 2.2, the interest being 2400. *)
Theorem covered_call_row_metrics :
  (forall cfg sym current_price lot_size options r,
     In r (fst (Strategy2.covered_calls_of_options
                  cfg sym current_price lot_size options)) ->
     Strategy2.Current r = current_price /\
     covered_call_metrics cfg lot_size r) /\
  Strategy2.covered_calls_of_options default_config "PNB" 120 8000
    [pnb "CE" 125 3]
  = ([pnb_covered_call], Done) /\
  interest_of default_config 8000 120 = 2400 /\
  Strategy2.Investment pnb_covered_call = 240000%Z /\
  Strategy2.MAX_Profit pnb_covered_call = 61600%Z /\
  Strategy2.MAX_ROI_pct pnb_covered_call = 25.67 /\
  Strategy2.Safety_Point pnb_covered_call = 117.36 /\
  Strategy2.Safety_pct pnb_covered_call = 2.2.
Proof.
  split.
  - intros cfg sym current_price lot_size options r H.
    apply Strategy2Facts.covered_call_row_sound in H.
    destruct H as (opt & _ & _ & Hc & _ & _ & Hm). auto.
  - vm_compute. repeat split; reflexivity.
Qed.

(** The statement above at the row of the example. *)
Lemma covered_call_row_metrics_example :
  In pnb_covered_call
     (fst (Strategy2.covered_calls_of_options default_config "PNB" 120 8000
             [pnb "CE" 125 3])) /\
  Strategy2.Current pnb_covered_call = 120 /\
  covered_call_metrics default_config 8000 pnb_covered_call.
Proof.
  assert (H : In pnb_covered_call
     (fst (Strategy2.covered_calls_of_options default_config "PNB" 120 8000
             [pnb "CE" 125 3]))).
  { vm_compute. left. reflexivity. }
  split; [exact H|].
  exact (proj1 covered_call_row_metrics _ _ _ _ _ _ H).
Defined.

(** The row of the example has not the profit 63760 and the ROI 26.57: the
    interest is 2400, not 240, and the row holds 61600 and 25.67. *)
Lemma covered_call_example_values :
  map (fun r => (Strategy2.MAX_Profit r, Strategy2.MAX_ROI_pct r))
      (fst (Strategy2.covered_calls_of_options default_config "PNB" 120 8000
              [pnb "CE" 125 3]))
  = [(61600%Z, 25.67)] /\
  (61600 =? 63760)%Z = false /\
  (25.67 =? 26.57) = false /\
  (interest_of default_config 8000 120 =? 240) = false.
Proof.
  vm_compute. repeat split; reflexivity.
Qed.

(** C3. A row is emitted only when every premium used in it is not zero and
    its strike is in the band of the strategy around the price: between
    [atm_lower * price] and [atm_upper * price] for a straddle, between
    [0.999 * price] and [atm_upper * price] for a covered call. *)
Theorem rows_pass_the_filters :
  forall cfg sym current_price lot_size options,
    (forall r,
       In r (fst (Strategy1.straddles_of_options
                    cfg sym current_price lot_size options)) ->
       (Strategy1.CALL r =? 0) = false /\
       (Strategy1.PUT r =? 0) = false /\
       between (atm_lower cfg * current_price) (Strategy1.Strike r)
               (atm_upper cfg * current_price) = true) /\
    (forall r,
       In r (fst (Strategy2.covered_calls_of_options
                    cfg sym current_price lot_size options)) ->
       (Strategy2.CALL r =? 0) = false /\
       between (0.999 * current_price) (Strategy2.Strike r)
               (atm_upper cfg * current_price) = true).
Proof.
  intros cfg sym current_price lot_size options. split; intros r H.
  - apply Strategy1Facts.straddle_row_sound in H. tauto.
  - apply Strategy2Facts.covered_call_row_sound in H.
    destruct H as (opt & _ & Hq & _ & -> & -> & _).
    unfold qualifies in Hq.
    apply andb_prop in Hq. destruct Hq as [Hq Hp].
    apply andb_prop in Hq. destruct Hq as [_ Hb].
    apply negb_true_iff in Hp. auto.
Qed.

(** The statement above at the rows of the two examples. *)
Lemma rows_pass_the_filters_example :
  ((Strategy1.CALL pnb_straddle =? 0) = false /\
   (Strategy1.PUT pnb_straddle =? 0) = false /\
   between (atm_lower default_config * 120) (Strategy1.Strike pnb_straddle)
           (atm_upper default_config * 120) = true) /\
  ((Strategy2.CALL pnb_covered_call =? 0) = false /\
   between (0.999 * 120) (Strategy2.Strike pnb_covered_call)
           (atm_upper default_config * 120) = true).
Proof.
  pose proof (rows_pass_the_filters default_config "PNB" 120 8000
                [pnb "CE" 120 3.5; pnb "PE" 120 3.2; pnb "CE" 125 3])
    as [H1 H2].
  split.
  - apply H1. vm_compute. left. reflexivity.
  - apply H2. vm_compute. right. left. reflexivity.
Defined.

(** A premium below zero is not filtered out: a call at -1 makes a
    covered-call row, and a put at -0.5 makes a straddle row. *)
Lemma negative_premium_rows :
  map Strategy2.CALL
      (fst (Strategy2.covered_calls_of_options default_config "PNB" 120 8000
              [pnb "CE" 125 (-1)]))
  = [-1] /\
  map (fun r => (Strategy1.CALL r, Strategy1.PUT r))
      (fst (Strategy1.straddles_of_options default_config "PNB" 120 8000
              [pnb "CE" 120 3.5; pnb "PE" 120 (-0.5)]))
  = [(3.5, -0.5)] /\
  (0 <? -1) = false /\ (0 <? -0.5) = false.
Proof.
  vm_compute. repeat split; reflexivity.
Qed.

(** C6. The two safety fields of a short-straddle row are symmetric around
    the strike up to their roundings: when both are finite, their sum
    differs from twice the strike by at most a cent and a rounding error of
    the floats, [0.01 + (|strike| + |call + put| + 1) / 2^50], all taken as
    exact values. *)
Theorem safety_range_nearly_symmetric :
  forall cfg sym current_price lot_size options r,
    In r (fst (Strategy1.straddles_of_options
                 cfg sym current_price lot_size options)) ->
    Binary64.is_finite (Strategy1.Short_Safety r) ->
    Binary64.is_finite (Strategy1.Long_Safety r) ->
    (Qabs (Binary64.value (Strategy1.Short_Safety r)
           + Binary64.value (Strategy1.Long_Safety r)
           - 2 * Binary64.value (Strategy1.Strike r))
     <= (1 # 100)
        + (Qabs (Binary64.value (Strategy1.Strike r))
           + Qabs (Binary64.value (Strategy1.CALL r + Strategy1.PUT r)) + 1)
          / inject_Z (2 ^ 50))%Q.
Proof.
  intros cfg sym current_price lot_size options r H Fs Fl.
  apply Strategy1Facts.straddle_row_sound in H.
  destruct H as (_ & _ & _ & _ & _ & lot & _ & _ & _ & _ & _ & _ & Hs & Hl).
  rewrite Hs in Fs |- *. rewrite Hl in Fl |- *.
  unfold Binary64.value.
  apply SafetySumFacts.units_to_values.
  apply SafetySumFacts.safety_sum_units; assumption.
Qed.

(** The statement above at the row of the worked example. *)
Lemma safety_range_nearly_symmetric_example :
  (Qabs (Binary64.value (Strategy1.Short_Safety pnb_straddle)
         + Binary64.value (Strategy1.Long_Safety pnb_straddle)
         - 2 * Binary64.value (Strategy1.Strike pnb_straddle))
   <= (1 # 100)
      + (Qabs (Binary64.value (Strategy1.Strike pnb_straddle))
         + Qabs (Binary64.value (Strategy1.CALL pnb_straddle
                                 + Strategy1.PUT pnb_straddle)) + 1)
        / inject_Z (2 ^ 50))%Q.
Proof.
  apply (safety_range_nearly_symmetric default_config "PNB" 120 8000%Z
           [pnb "CE" 120 3.5; pnb "PE" 120 3.2] pnb_straddle).
  - vm_compute. left. reflexivity.
  - reflexivity.
  - reflexivity.
Defined.

(** The two fields do not always add up to twice the strike.  At strike
    10.1 with premiums 0.5 and 0.7 they are 8.9 and 11.3, whose sum in
    binary64 is 20.200000000000003 and not 20.2; at strike 100.004 with
    premiums 1.5 and 1.5 they are 97.0 and 103.0, whose sum is 200 and not
    200.008; and at strike 8e307 with premiums of 5e307 the long safety is
    an infinity. *)
Lemma safety_range_not_symmetric :
  map (fun r => (Strategy1.Short_Safety r, Strategy1.Long_Safety r,
                 Strategy1.Short_Safety r + Strategy1.Long_Safety r
                 =? 2 * Strategy1.Strike r))
      (fst (Strategy1.straddles_of_options default_config "PNB" 10 8000
              [pnb "CE" 10.1 0.5; pnb "PE" 10.1 0.7]))
  = [(8.9, 11.3, false)] /\
  map (fun r => (Strategy1.Short_Safety r, Strategy1.Long_Safety r,
                 Strategy1.Short_Safety r + Strategy1.Long_Safety r
                 =? 2 * Strategy1.Strike r))
      (fst (Strategy1.straddles_of_options default_config "PNB" 100 8000
              [pnb "CE" 100.004 1.5; pnb "PE" 100.004 1.5]))
  = [(97, 103, false)] /\
  map (fun r => (Strategy1.Short_Safety r, Strategy1.Long_Safety r))
      (fst (Strategy1.straddles_of_options default_config "PNB" 8e307 1
              [pnb "CE" 8e307 5e307; pnb "PE" 8e307 5e307]))
  = [(-2.0000000000000002e307, infinity)].
Proof.
  vm_compute. repeat split; reflexivity.
Qed.

(** C7. The [MAX ROI %] of a covered-call row is
    [100 * profit / investment] rounded to two places, where the profit is
    the float [(strike - price + call) * lot_size - interest], not yet cut to
    an integer, and the investment is the integer of the row. *)
Theorem covered_call_roi :
  forall cfg sym current_price lot_size options r,
    In r (fst (Strategy2.covered_calls_of_options
                 cfg sym current_price lot_size options)) ->
    exists lot divisor : float,
      PyFloat.of_int lot_size = Ok lot /\
      PyFloat.of_int (Strategy2.Investment r) = Ok divisor /\
      PyFloat.to_int (profit_of cfg lot r) = Ok (Strategy2.MAX_Profit r) /\
      Strategy2.MAX_ROI_pct r
      = PyFloat.round2 (100 * profit_of cfg lot r / divisor).
Proof.
  intros cfg sym current_price lot_size options r H.
  apply Strategy2Facts.covered_call_row_sound in H.
  destruct H as (opt & _ & _ & _ & _ & _ & lot & divisor & Hlot & _ & Hp
                 & Hd & _ & Hroi & _).
  exists lot, divisor. auto.
Qed.

(** The statement above at the row of the example. *)
Lemma covered_call_roi_example :
  exists lot divisor : float,
    PyFloat.of_int 8000 = Ok lot /\
    PyFloat.of_int (Strategy2.Investment pnb_covered_call) = Ok divisor /\
    PyFloat.to_int (profit_of default_config lot pnb_covered_call)
    = Ok (Strategy2.MAX_Profit pnb_covered_call) /\
    Strategy2.MAX_ROI_pct pnb_covered_call
    = PyFloat.round2
        (100 * profit_of default_config lot pnb_covered_call / divisor).
Proof.
  apply (covered_call_roi default_config "PNB" 120 8000 [pnb "CE" 125 3]).
  vm_compute. left. reflexivity.
Defined.

(** The ROI is not the one of the integers of the row.  At price 100, lot
    size 25 and premium 3.55 at strike 100 the profit is 82.5: the row
    holds the profit 82, the investment 625 and the ROI 13.2, and
    [100 * 82 / 625] is 13.12. *)
Lemma covered_call_roi_of_uncut_profit :
  map (fun r => (Strategy2.Investment r, Strategy2.MAX_Profit r,
                 Strategy2.MAX_ROI_pct r))
      (fst (Strategy2.covered_calls_of_options default_config "PNB" 100 25
              [pnb "CE" 100 3.55]))
  = [(625%Z, 82%Z, 13.2)] /\
  PyFloat.round2 (100 * 82 / 625) = 13.12.
Proof.
  vm_compute. split; reflexivity.
Qed.

(** C10. The covered-call pass makes its rows entry by entry, with no
    grouping by strike: it holds exactly one row for each qualifying Call
    entry it got through, in the order of the entries.  A pass that ran to
    its end got through all of them, so that two entries at the same strike
    and month make two rows; a pass that an exception left got through those
    before the qualifying entry whose metrics raised it. *)
Theorem covered_call_row_per_entry :
  forall cfg sym current_price lot_size options rs o,
    Strategy2.covered_calls_of_options cfg sym current_price lot_size options
    = (rs, o) ->
    exists reached,
      Forall2 (fun opt r =>
                 Strategy2.covered_call_of cfg sym current_price lot_size opt
                 = Ok (Some r))
              reached rs /\
      List.length rs = List.length reached /\
      match o with
      | Done => reached = filter (qualifies cfg current_price) options
      | Raised e =>
          exists opt rest,
            filter (qualifies cfg current_price) options
            = (reached ++ opt :: rest)%list /\
            Strategy2.covered_call_of cfg sym current_price lot_size opt
            = Raise e
      end.
Proof.
  intros cfg sym current_price lot_size options rs o H.
  destruct (CoveredCallPassFacts.covered_calls_split _ _ _ _ _ _ _ H)
    as (reached & HF & Ho).
  exists reached. split; [exact HF|]. split; [|exact Ho].
  symmetry. exact (Forall2_length HF).
Qed.

(** The statement above for two entries at the same strike and month: two
    rows. *)
Lemma covered_call_row_per_entry_twice :
  exists reached,
    Forall2 (fun opt r =>
               Strategy2.covered_call_of default_config "PNB" 120 8000 opt
               = Ok (Some r))
            reached [pnb_covered_call; pnb_covered_call] /\
    List.length [pnb_covered_call; pnb_covered_call] = List.length reached /\
    reached = filter (qualifies default_config 120)
                     [pnb "CE" 125 3; pnb "PE" 125 2; pnb "CE" 125 3].
Proof.
  apply (covered_call_row_per_entry default_config "PNB" 120 8000
           [pnb "CE" 125 3; pnb "PE" 125 2; pnb "CE" 125 3]
           [pnb_covered_call; pnb_covered_call] Done).
  vm_compute. reflexivity.
Defined.

(** A qualifying Call entry need not make a row.  At price 0.5 with a lot
    size of 1 the investment [int(0.25 * 1 * 0.5)] is 0, the division of the
    ROI raises, and the call at strike 0.5 with premium 0.05 makes no row. *)
Lemma qualifying_entry_without_row :
  qualifies default_config 0.5 (pnb "CE" 0.5 0.05) = true /\
  Strategy2.covered_calls_of_options default_config "PNB" 0.5 1
    [pnb "CE" 0.5 0.05]
  = ([], Raised ZeroDivisionError).
Proof.
  vm_compute. split; reflexivity.
Qed.

(** C4. With a price that compares equal to zero each evaluator skips the
    symbol: no row and no error.  With a lot size of zero neither evaluator
    makes a row, and none reports the input: a month in which nothing gets
    to the metrics block passes silently, and otherwise the first pair or
    entry that gets there raises [ZeroDivisionError] at the division by the
    zero investment, or [ValueError] at the cast to an int when the
    investment (for the covered call, also the profit) is not a number. *)
Theorem zero_price_or_lot_size :
  forall cfg sym current_price lot_size fetch months options,
    ((current_price =? 0) = true ->
     Strategy1.evaluate_short_straddle
       cfg sym current_price lot_size fetch months = ([], Done) /\
     Strategy2.evaluate_covered_call
       cfg sym current_price lot_size fetch months = ([], Done)) /\
    (lot_size = 0%Z ->
     fst (Strategy1.evaluate_short_straddle
            cfg sym current_price lot_size fetch months) = [] /\
     fst (Strategy2.evaluate_covered_call
            cfg sym current_price lot_size fetch months) = [] /\
     Strategy1.straddles_of_options cfg sym current_price lot_size options
     = ([], if existsb priced_pair
                 (Strategy1.group_by_strike cfg current_price options)
            then Raised (if margin cfg * 2 * 0 * current_price =? 0
                         then ZeroDivisionError else ValueError)
            else Done) /\
     Strategy2.covered_calls_of_options cfg sym current_price lot_size options
     = ([], match find (qualifies cfg current_price) options with
            | Some opt =>
                Raised (if is_nan (margin cfg * 0 * current_price)
                           || is_nan ((strike opt - current_price
                                       + last_price opt) * 0
                                      - interest_of cfg 0 current_price)
                        then ValueError else ZeroDivisionError)
            | None => Done
            end)).
Proof.
  intros cfg sym current_price lot_size fetch months options. split.
  - intros Hp.
    unfold Strategy1.evaluate_short_straddle, Strategy2.evaluate_covered_call.
    rewrite Hp. auto.
  - intros ->. repeat split.
    + apply EvaluatorFacts.no_In_nil. intros r Hr.
      apply EvaluatorFacts.evaluate_short_straddle_In in Hr.
      destruct Hr as (_ & month & opts & _ & _ & Hr).
      exact (EvaluatorFacts.straddle_lot_zero _ _ _ _ _ Hr).
    + apply EvaluatorFacts.no_In_nil. intros r Hr.
      apply EvaluatorFacts.evaluate_covered_call_In in Hr.
      destruct Hr as (_ & month & opts & _ & _ & Hr).
      exact (EvaluatorFacts.covered_call_lot_zero _ _ _ _ _ Hr).
    + unfold Strategy1.straddles_of_options.
      rewrite (for_each_first_raise _ priced_pair
                 (fun _ => if margin cfg * 2 * 0 * current_price =? 0
                           then ZeroDivisionError else ValueError));
        [|intros item; apply ZeroLotFacts.straddle_of_lot_zero].
      rewrite existsb_find.
      destruct (find priced_pair _); reflexivity.
    + unfold Strategy2.covered_calls_of_options.
      apply (for_each_first_raise _ (qualifies cfg current_price)
               (fun opt =>
                  if is_nan (margin cfg * 0 * current_price)
                     || is_nan ((strike opt - current_price + last_price opt)
                                * 0 - interest_of cfg 0 current_price)
                  then ValueError else ZeroDivisionError)).
      intros opt. apply ZeroLotFacts.covered_call_of_lot_zero.
Qed.

(** The statement above for PNB: at the price 0 with the lot size 8000, and
    at the price 120 with the lot size 0. *)
Lemma zero_price_or_lot_size_example :
  (Strategy1.evaluate_short_straddle default_config "PNB" 0 8000
     two_months ["Dec"] = ([], Done) /\
   Strategy2.evaluate_covered_call default_config "PNB" 0 8000
     two_months ["Dec"] = ([], Done)) /\
  (fst (Strategy1.evaluate_short_straddle default_config "PNB" 120 0
          two_months ["Dec"]) = [] /\
   fst (Strategy2.evaluate_covered_call default_config "PNB" 120 0
          two_months ["Dec"]) = [] /\
   Strategy1.straddles_of_options default_config "PNB" 120 0
     [pnb "CE" 120 3.5; pnb "PE" 120 3.2]
   = ([], Raised ZeroDivisionError) /\
   Strategy2.covered_calls_of_options default_config "PNB" 120 0
     [pnb "CE" 120 3.5; pnb "PE" 120 3.2]
   = ([], Raised ZeroDivisionError)).
Proof.
  split.
  - apply (proj1 (zero_price_or_lot_size default_config "PNB" 0 8000
                    two_months ["Dec"] [])).
    reflexivity.
  - apply (proj2 (zero_price_or_lot_size default_config "PNB" 120 0
                    two_months ["Dec"]
                    [pnb "CE" 120 3.5; pnb "PE" 120 3.2])).
    reflexivity.
Defined.

(** Neither evaluator reports an invalid input.  With a price of zero both
    return no row and no error; with a lot size of zero both divide by the
    zero investment, and the [ZeroDivisionError] leaves the [try] block; at
    an infinite price it is the [ValueError] of [int] on a NaN; and when no
    entry qualifies nothing is raised at all. *)
Lemma zero_inputs_not_reported :
  Strategy1.evaluate_short_straddle default_config "PNB" 0 8000
    (fun _ => Ok [pnb "CE" 120 3.5; pnb "PE" 120 3.2]) ["Dec"]
  = ([], Done) /\
  Strategy2.evaluate_covered_call default_config "PNB" 0 8000
    (fun _ => Ok [pnb "CE" 125 3]) ["Dec"]
  = ([], Done) /\
  Strategy1.evaluate_short_straddle default_config "PNB" 120 0
    (fun _ => Ok [pnb "CE" 120 3.5; pnb "PE" 120 3.2]) ["Dec"]
  = ([], Raised ZeroDivisionError) /\
  Strategy2.evaluate_covered_call default_config "PNB" 120 0
    (fun _ => Ok [pnb "CE" 125 3]) ["Dec"]
  = ([], Raised ZeroDivisionError) /\
  Strategy2.evaluate_covered_call default_config "PNB" infinity 0
    (fun _ => Ok [pnb "CE" infinity 3]) ["Dec"]
  = ([], Raised ValueError) /\
  Strategy2.evaluate_covered_call default_config "PNB" 120 0
    (fun _ => Ok [pnb "PE" 125 3]) ["Dec"]
  = ([], Done).
Proof.
  vm_compute. repeat split; reflexivity.
Qed.

(** C5. The strike field of a record that [get_options_data] selects, text
    or absent, is stripped of surrounding whitespace before it is parsed.  A
    field that is absent, or empty once stripped, gives the strike 0; a
    field that parses gives its value, and the entry is in the list
    returned; a field that does not parse makes [get_options_data] raise
    [ValueError], and no entry at all is returned. *)
Theorem strike_field_parsing :
  forall self sym expiry_month items item,
    get_derivatives_data self sym = Some items ->
    In item items ->
    selected expiry_month item = true ->
    let strike_str := PyStr.strip (get (strikePrice item) "0") in
    (strikePrice item = None \/ strike_str = "" ->
     parse_strike item = Ok 0) /\
    (strike_str <> "" ->
     parse_strike item = PyParse.to_float strike_str) /\
    (forall k options,
       parse_strike item = Ok k ->
       get_options_data self sym expiry_month = Ok options ->
       exists opt, In opt options /\ strike opt = k) /\
    (forall e,
       strike_str <> "" -> PyParse.to_float strike_str = Raise e ->
       e = ValueError /\
       get_options_data self sym expiry_month = Raise ValueError).
Proof.
  intros self sym expiry_month items item Hdata Hin Hsel strike_str.
  assert (Hne : strike_str <> "" ->
                parse_strike item = PyParse.to_float strike_str).
  { intros Hs. unfold parse_strike. fold strike_str.
    destruct (String.eqb strike_str "") eqn:E; [|reflexivity].
    apply NseApiFacts.eqb_empty in E. contradiction. }
  destruct (NseApiFacts.option_of_item_selected sym _ _ Hsel) as [Hr Ho].
  split; [|split; [exact Hne|split]].
  - intros [H|H].
    + unfold parse_strike. rewrite H. reflexivity.
    + unfold parse_strike. fold strike_str. rewrite H. reflexivity.
  - intros k options Hk Hget.
    destruct (Ho k Hk) as (opt & Hopt & Hs).
    exists opt. split; [|exact Hs].
    unfold get_options_data in Hget. rewrite Hdata in Hget.
    exact (NseApiFacts.options_of_items_complete _ _ _ _ _ _ Hin Hopt Hget).
  - intros e Hs He.
    pose proof (NseApiFacts.to_float_Raise _ _ He) as ->.
    split; [reflexivity|].
    unfold get_options_data. rewrite Hdata.
    destruct (NseApiFacts.options_of_items_Raise sym expiry_month items item
                ValueError Hin) as (e' & He').
    { apply Hr. rewrite (Hne Hs). exact He. }
    rewrite He'. f_equal.
    exact (OptionChainFacts.options_of_items_ValueError _ _ _ _ He').
Qed.

(** The statement above for a record whose strike is [     120.00]. *)
Lemma strike_field_parsing_example :
  let item := raw "CE" "     120.00" 3.5 in
  let strike_str := PyStr.strip (get (strikePrice item) "0") in
  (strikePrice item = None \/ strike_str = "" ->
   parse_strike item = Ok 0) /\
  (strike_str <> "" ->
   parse_strike item = PyParse.to_float strike_str) /\
  (forall k options,
     parse_strike item = Ok k ->
     get_options_data (session [item]) "PNB" (Some "Dec") = Ok options ->
     exists opt, In opt options /\ strike opt = k) /\
  (forall e,
     strike_str <> "" -> PyParse.to_float strike_str = Raise e ->
     e = ValueError /\
     get_options_data (session [item]) "PNB" (Some "Dec")
     = Raise ValueError).
Proof.
  apply (strike_field_parsing
           (session [raw "CE" "     120.00" 3.5]) "PNB" (Some "Dec")
           [raw "CE" "     120.00" 3.5]).
  - reflexivity.
  - left. reflexivity.
  - reflexivity.
Defined.

(** A strike that does not parse is not read as 0: [float] raises, and the
    entries of the well-formed records are lost with it. *)
Lemma unparsable_strike_raises :
  parse_strike (raw "CE" "12O.00" 3.5) = Raise ValueError /\
  get_options_data (session [raw "CE" " 120.00 " 3.5; raw "PE" "12O.00" 3.2])
                   "PNB" (Some "Dec")
  = Raise ValueError.
Proof.
  vm_compute. split; reflexivity.
Qed.

(** Text outside ASCII is read as Python reads it: [strip] removes a
    no-break space, and [float] reads the digits of another script. *)
Lemma strike_text_outside_ascii :
  parse_strike (raw "CE" strike_after_nbsp 3.5) = Ok 120 /\
  parse_strike (raw "CE" strike_arabic_indic 3.5) = Ok 120.
Proof.
  vm_compute. split; reflexivity.
Qed.

(** C8. With the price held fixed, the safety point of a covered-call row
    does not increase with the premium: of two rows at the same price, the
    one with the larger premium has a safety point that is smaller or
    equal. *)
Theorem safety_point_antitone :
  forall cfg1 cfg2 sym1 sym2 current_price lot_size1 lot_size2
         options1 options2 r1 r2,
    In r1 (fst (Strategy2.covered_calls_of_options
                  cfg1 sym1 current_price lot_size1 options1)) ->
    In r2 (fst (Strategy2.covered_calls_of_options
                  cfg2 sym2 current_price lot_size2 options2)) ->
    (Strategy2.CALL r1 <=? Strategy2.CALL r2) = true ->
    (Strategy2.Safety_Point r2 <=? Strategy2.Safety_Point r1) = true.
Proof.
  intros cfg1 cfg2 sym1 sym2 current_price lot_size1 lot_size2
         options1 options2 r1 r2 H1 H2 Hc.
  apply Strategy2Facts.covered_call_row_sound in H1, H2.
  destruct H1 as (opt1 & _ & _ & Hp1 & _ & _ & M1).
  destruct H2 as (opt2 & _ & _ & Hp2 & _ & _ & M2).
  pose proof (Strategy2Facts.safety_point_not_nan _ _ _ M1) as N1.
  pose proof (Strategy2Facts.safety_point_not_nan _ _ _ M2) as N2.
  apply Binary64Facts.ltb_false_leb; [exact N1|exact N2|].
  destruct M1 as (? & ? & _ & _ & _ & _ & _ & _ & -> & _).
  destruct M2 as (? & ? & _ & _ & _ & _ & _ & _ & -> & _).
  rewrite Hp1, Hp2. apply Binary64Facts.round2_sub_antitone. exact Hc.
Qed.

(** The statement above for the premiums 3.0 and 3.5 on PNB at 120. *)
Lemma safety_point_antitone_example :
  (Strategy2.Safety_Point
     (hd pnb_covered_call
         (fst (Strategy2.covered_calls_of_options default_config "PNB" 120
                 8000 [pnb "CE" 125 3.5])))
   <=? Strategy2.Safety_Point pnb_covered_call) = true.
Proof.
  apply (safety_point_antitone default_config default_config "PNB" "PNB"
           120 8000 8000 [pnb "CE" 125 3] [pnb "CE" 125 3.5]).
  - vm_compute. left. reflexivity.
  - vm_compute. left. reflexivity.
  - reflexivity.
Defined.

(** A larger premium need not give a smaller safety point: the premiums
    3.001 and 3.002 at the price 120 both give 117.36. *)
Lemma safety_point_not_strict :
  map (fun r => (Strategy2.CALL r, Strategy2.Safety_Point r))
      (fst (Strategy2.covered_calls_of_options default_config "PNB" 120 8000
              [pnb "CE" 125 3.001; pnb "CE" 125 3.002]))
  = [(3.001, 117.36); (3.002, 117.36)] /\
  (3.001 <? 3.002) = true /\
  (117.36 <? 117.36) = false.
Proof.
  vm_compute. repeat split; reflexivity.
Qed.

(** C9. The option type of an entry is the [optionType] of its record and
    its strike is the parsed [strikePrice], whatever they are: the entries
    have a type CE or PE and a strike that is not negative when the stock
    option records of the feed have. *)
Theorem entries_follow_the_feed :
  forall self sym expiry_month options opt,
    get_options_data self sym expiry_month = Ok options ->
    In opt options ->
    (exists items item,
       get_derivatives_data self sym = Some items /\ In item items /\
       eq_str (instrumentType item) "OPTSTK" = true /\
       option_type opt = optionType item /\
       parse_strike item = Ok (strike opt)) /\
    (feed_ok self sym ->
     (0 <=? strike opt) = true /\
     (option_type opt = Some "CE" \/ option_type opt = Some "PE")).
Proof.
  intros self sym expiry_month options opt Hget Hin.
  unfold get_options_data in Hget.
  destruct (get_derivatives_data self sym) as [items|] eqn:Hdata.
  - destruct (NseApiFacts.options_of_items_In _ _ _ _ _ Hget Hin)
      as (item & Hitem & Ho).
    apply NseApiFacts.option_of_item_Some in Ho.
    destruct Ho as (Hty & Hopt & Hk).
    split; [exists items, item; auto|].
    intros Hfeed. destruct (Hfeed items item Hdata Hitem Hty) as [Ht Hs].
    rewrite Hopt. split; [apply Hs; exact Hk|exact Ht].
  - inversion Hget; subst options. destruct Hin.
Qed.

(** The statement above for a record of the feed of PNB. *)
Lemma entries_follow_the_feed_example :
  (exists items item,
     get_derivatives_data (session [raw "CE" " 120.00 " 3.5]) "PNB"
     = Some items /\ In item items /\
     eq_str (instrumentType item) "OPTSTK" = true /\
     option_type (pnb "CE" 120 3.5) = optionType item /\
     parse_strike item = Ok (strike (pnb "CE" 120 3.5))) /\
  (feed_ok (session [raw "CE" " 120.00 " 3.5]) "PNB" ->
   (0 <=? strike (pnb "CE" 120 3.5)) = true /\
   (option_type (pnb "CE" 120 3.5) = Some "CE" \/
    option_type (pnb "CE" 120 3.5) = Some "PE")).
Proof.
  apply (entries_follow_the_feed
           (session [raw "CE" " 120.00 " 3.5]) "PNB" (Some "Dec")
           [pnb "CE" 120 3.5]).
  - vm_compute. reflexivity.
  - left. reflexivity.
Defined.

(** Nothing checks the type or the sign of the strike: a record of type XX
    with the strike -5 makes an entry of type XX with the strike -5, and a
    strike spelled nan makes an entry whose strike is NaN. *)
Lemma entries_outside_the_invariant :
  get_options_data (session [raw "XX" "-5.00" 1]) "PNB" (Some "Dec")
  = Ok [pnb "XX" (-5) 1] /\
  (0 <=? strike (pnb "XX" (-5) 1)) = false /\
  eq_str (option_type (pnb "XX" (-5) 1)) "CE" = false /\
  eq_str (option_type (pnb "XX" (-5) 1)) "PE" = false /\
  get_options_data (session [raw "CE" "nan" 1]) "PNB" (Some "Dec")
  = Ok [pnb "CE" nan 1] /\
  (0 <=? strike (pnb "CE" nan 1)) = false.
Proof.
  vm_compute. repeat split; reflexivity.
Qed.

(** X1. For a symbol whose price is not zero, the covered-call rows that
    stay in the table are those of its months in their order.  When nothing
    raises, each month gives one row for each of its qualifying Call
    entries.  When an exception leaves the [try] block, the months before
    the one that raised give theirs, that month gives the rows of the
    qualifying entries before the one whose metrics raised (none when the
    fetch raised), and the months after it give nothing. *)
Theorem covered_call_rows_prefix :
  forall cfg sym current_price lot_size fetch months rs o,
    (current_price =? 0) = false ->
    Strategy2.evaluate_covered_call cfg sym current_price lot_size fetch months
    = (rs, o) ->
    match o with
    | Done =>
        exists rows_by_month,
          Forall2 (month_done cfg sym current_price lot_size fetch)
                  months rows_by_month /\
          rs = List.concat rows_by_month
    | Raised e =>
        exists before month after rows_by_month rows,
          months = (before ++ month :: after)%list /\
          Forall2 (month_done cfg sym current_price lot_size fetch)
                  before rows_by_month /\
          month_cut cfg sym current_price lot_size fetch month rows e /\
          rs = (List.concat rows_by_month ++ rows)%list
    end.
Proof.
  intros cfg sym current_price lot_size fetch months rs o Hp.
  unfold Strategy2.evaluate_covered_call. rewrite Hp.
  set (body := fun month : string =>
                 match fetch month with
                 | Ok options =>
                     Strategy2.covered_calls_of_options
                       cfg sym current_price lot_size options
                 | Raise e => ([], Raised e)
                 end).
  assert (D : forall l,
            Forall (fun x => snd (body x) = Done) l ->
            Forall2 (month_done cfg sym current_price lot_size fetch)
                    l (map (fun x => fst (body x)) l) /\
            flat_map (fun x => fst (body x)) l
            = List.concat (map (fun x => fst (body x)) l)).
  { induction l as [|x l IH]; intros HF.
    - split; [constructor|reflexivity].
    - inversion HF as [|? ? Hx Hl]; subst.
      destruct (IH Hl) as [IH1 IH2]. split.
      + cbn [map]. constructor; [|exact IH1].
        exact (CoveredCallPassFacts.month_body_done
                 cfg sym current_price lot_size fetch x Hx).
      + cbn [flat_map map List.concat]. rewrite IH2. reflexivity. }
  intros H. destruct o as [|e].
  - destruct (for_each_done body months rs H) as [-> HF].
    destruct (D months HF) as [D1 D2].
    exists (map (fun x => fst (body x)) months). auto.
  - destruct (for_each_raised body months rs e H)
      as (before & month & after & rows & -> & HF & Hb & ->).
    destruct (D before HF) as [D1 D2].
    exists before, month, after, (map (fun x => fst (body x)) before), rows.
    repeat split; try assumption.
    + exact (CoveredCallPassFacts.month_body_cut _ _ _ _ _ _ _ _ Hb).
    + rewrite D2. reflexivity.
Qed.

(** The statement above for three months, the second of which an entry with
    an infinite premium cuts short after its first row. *)
Lemma covered_call_rows_prefix_example :
  exists before month after rows_by_month rows,
    ["Nov"; "Dec"; "Jan"] = (before ++ month :: after)%list /\
    Forall2 (month_done default_config "PNB" 120 8000 two_months)
            before rows_by_month /\
    month_cut default_config "PNB" 120 8000 two_months month rows
              OverflowError /\
    [pnb_covered_call; pnb_covered_call] = (List.concat rows_by_month ++ rows)%list.
Proof.
  apply (covered_call_rows_prefix default_config "PNB" 120 8000 two_months
           ["Nov"; "Dec"; "Jan"] [pnb_covered_call; pnb_covered_call]
           (Raised OverflowError)).
  - reflexivity.
  - vm_compute. reflexivity.
Defined.

End Conformance.

(** * Further properties of the code *)

(** ** Properties of [get_options_data] *)

Module OptionChain.

Import NseApi StreamlitApp Rows Views.
Local Open Scope string_scope.
Local Open Scope float_scope.

(** X2. The list [get_options_data] returns holds one entry for each
    record it selects (a stock option, of the month asked for when one is
    asked for), in the order of the feed; the entry has the symbol asked
    for, the record's expiry date, option type and parsed strike, and 0 for
    a price, volume or open interest the record lacks. *)
Theorem options_follow_selected_records :
  forall self sym expiry_month items options,
    get_derivatives_data self sym = Some items ->
    get_options_data self sym expiry_month = Ok options ->
    Forall2 (fun item opt =>
               exists k, parse_strike item = Ok k /\
                         opt = entry_of sym item k)
            (filter (selected expiry_month) items) options.
Proof.
  intros self sym expiry_month items options Hdata H.
  unfold get_options_data in H. rewrite Hdata in H.
  apply OptionChainFacts.options_of_items_Forall2. exact H.
Qed.

(** The statement above for a feed of a call, a future and a put. *)
Lemma options_follow_selected_records_example :
  Forall2 (fun item opt =>
             exists k, parse_strike item = Ok k /\
                       opt = entry_of "PNB" item k)
          (filter (selected (Some "Dec"))
                  [raw "CE" " 120.00 " 3.5; pnb_future; raw "PE" "120" 3.2])
          [pnb "CE" 120 3.5; pnb "PE" 120 3.2].
Proof.
  apply (options_follow_selected_records
           (session [raw "CE" " 120.00 " 3.5; pnb_future; raw "PE" "120" 3.2])
           "PNB" (Some "Dec")).
  - reflexivity.
  - vm_compute. reflexivity.
Defined.

(** X3. On a feed whose records hold the strike and the expiry date as
    text, or not at all, [get_options_data] raises exactly when the strike
    of a record it selects does not parse, and then it raises [ValueError]:
    a strike that is no number in a record that is not a stock option, or is
    of another month than the one asked for, does no harm. *)
Theorem options_raise_iff_selected_strike_bad :
  forall self sym expiry_month items,
    get_derivatives_data self sym = Some items ->
    (forall e, get_options_data self sym expiry_month = Raise e ->
               e = ValueError) /\
    (get_options_data self sym expiry_month = Raise ValueError <->
     Exists (fun item => selected expiry_month item = true /\
                         parse_strike item = Raise ValueError) items).
Proof.
  intros self sym expiry_month items Hdata.
  unfold get_options_data. rewrite Hdata. split.
  - apply OptionChainFacts.options_of_items_ValueError.
  - rewrite <- OptionChainFacts.options_of_items_Raise_iff. split.
    + eauto.
    + intros [e H].
      rewrite (OptionChainFacts.options_of_items_ValueError _ _ _ _ H) in H.
      exact H.
Qed.

(** The statement above for a feed whose future has the strike [-]. *)
Lemma options_raise_iff_selected_strike_bad_example :
  (forall e,
     get_options_data (session [raw "CE" "120" 3.5; pnb_future]) "PNB"
                      (Some "Dec") = Raise e -> e = ValueError) /\
  (get_options_data (session [raw "CE" "120" 3.5; pnb_future]) "PNB"
                    (Some "Dec") = Raise ValueError <->
   Exists (fun item => selected (Some "Dec") item = true /\
                       parse_strike item = Raise ValueError)
          [raw "CE" "120" 3.5; pnb_future]).
Proof.
  apply (options_raise_iff_selected_strike_bad
           (session [raw "CE" "120" 3.5; pnb_future]) "PNB" (Some "Dec")).
  reflexivity.
Defined.

(** X4. In a date of the form day-month-year the month is the second
    field and the expiry shown is day-month; a date without a dash has no
    month and is shown as it is. *)
Theorem expiry_date_fields :
  forall d m y : string,
    PyStr.contains dash d = false -> PyStr.contains dash m = false ->
    month_of (d ++ "-" ++ m ++ "-" ++ y) = m /\
    format_expiry (d ++ "-" ++ m ++ "-" ++ y) = d ++ "-" ++ m /\
    month_of d = "" /\
    format_expiry d = d.
Proof.
  intros d m y Hd Hm. unfold dash in Hd, Hm.
  assert (S1 : PyStr.split "-" (d ++ "-" ++ m ++ "-" ++ y)
               = d :: m :: PyStr.split "-" y).
  { change (d ++ "-" ++ m ++ "-" ++ y)
      with (d ++ String "-" (m ++ String "-" y)).
    rewrite (OptionChainFacts.split_app "-" d _ Hd).
    rewrite (OptionChainFacts.split_app "-" m _ Hm). reflexivity. }
  assert (C1 : PyStr.contains "-" (d ++ "-" ++ m ++ "-" ++ y) = true).
  { rewrite OptionChainFacts.contains_app.
    change ("-" ++ m ++ "-" ++ y) with (String "-" (m ++ "-" ++ y)).
    cbn [PyStr.contains]. rewrite Ascii.eqb_refl. apply orb_true_r. }
  repeat split.
  - unfold month_of. rewrite C1, S1. reflexivity.
  - unfold format_expiry. rewrite S1.
    destruct (String.eqb_spec (d ++ "-" ++ m ++ "-" ++ y) "") as [E|_].
    + rewrite E in C1. discriminate.
    + reflexivity.
  - unfold month_of. rewrite Hd. reflexivity.
  - unfold format_expiry.
    rewrite (OptionChainFacts.split_no_sep "-" d Hd).
    destruct (String.eqb_spec d "") as [->|_]; reflexivity.
Qed.

(** The statement above for 30-Dec-2025. *)
Lemma expiry_date_fields_example :
  month_of ("30" ++ "-" ++ "Dec" ++ "-" ++ "2025") = "Dec" /\
  format_expiry ("30" ++ "-" ++ "Dec" ++ "-" ++ "2025") = "30" ++ "-" ++ "Dec" /\
  month_of "30" = "" /\
  format_expiry "30" = "30".
Proof.
  apply (expiry_date_fields "30" "Dec" "2025"); reflexivity.
Defined.

(** X5. When a month is asked for, every entry returned is of this month:
    it is the second dash-separated field of its expiry date; and every
    entry carries the symbol asked for. *)
Theorem options_are_of_the_month_asked :
  forall self sym m options opt,
    m <> "" ->
    get_options_data self sym (Some m) = Ok options ->
    In opt options ->
    symbol opt = sym /\ expiry_month opt = m /\
    month_of (expiry_date opt) = m.
Proof.
  intros self sym m options opt Hm H Hin.
  unfold get_options_data in H.
  destruct (get_derivatives_data self sym) as [items|];
    [|inversion H; subst; destruct Hin].
  apply OptionChainFacts.options_of_items_Forall2 in H.
  destruct (ListFacts.Forall2_In_r _ _ _ _ H Hin) as (item & Hi & k & _ & ->).
  apply filter_In in Hi. destruct Hi as [_ Hs].
  unfold selected in Hs. apply andb_prop in Hs. destruct Hs as [_ Hs].
  apply orb_prop in Hs. destruct Hs as [Hs|Hs].
  - apply String.eqb_eq in Hs. contradiction.
  - apply String.eqb_eq in Hs. cbn [symbol expiry_month expiry_date entry_of].
    auto.
Qed.

(** The statement above for the call of the feed of PNB. *)
Lemma options_are_of_the_month_asked_example :
  symbol (pnb "CE" 120 3.5) = "PNB" /\
  expiry_month (pnb "CE" 120 3.5) = "Dec" /\
  month_of (expiry_date (pnb "CE" 120 3.5)) = "Dec".
Proof.
  apply (options_are_of_the_month_asked
           (session [raw "CE" " 120.00 " 3.5; raw "PE" "120" 3.2])
           "PNB" "Dec" [pnb "CE" 120 3.5; pnb "PE" 120 3.2]).
  - discriminate.
  - vm_compute. reflexivity.
  - left. reflexivity.
Defined.

(** X17. Asking for the empty month is asking for no month: the entries of
    all the months are returned. *)
Theorem empty_month_is_no_filter :
  forall self sym,
    get_options_data self sym (Some "") = get_options_data self sym None.
Proof.
  intros self sym. unfold get_options_data.
  destruct (get_derivatives_data self sym) as [items|]; [|reflexivity].
  induction items as [|item items IH]; [reflexivity|].
  cbn [options_of_items]. rewrite IH. f_equal.
Qed.

End OptionChain.

(** ** Properties of the two tables *)

Module Tables.

Import NseApi StreamlitApp Rows Views.
Local Open Scope string_scope.
Local Open Scope float_scope.

(** X6. The rows of the straddle pass over a month have strikes that
    differ from one another: a strike gives at most one row, however many
    entries the month has at this strike. *)
Theorem straddle_rows_differ_in_strike :
  forall cfg sym current_price lot_size options,
    ForallOrdPairs
      (fun r1 r2 => (Strategy1.Strike r1 =? Strategy1.Strike r2) = false)
      (fst (Strategy1.straddles_of_options
              cfg sym current_price lot_size options)).
Proof.
  intros cfg sym current_price lot_size options.
  unfold Strategy1.straddles_of_options.
  destruct (GroupingFacts.group_by_strike_grouped cfg current_price options)
    as (I1 & _).
  refine (PassFacts.for_each_appending_pairs _ _ _ _ _ I1).
  intros [k1 p1] [k2 p2] r1 r2 Hk H1 H2. cbn [fst] in Hk.
  apply Strategy1Facts.straddle_of_Some in H1, H2.
  destruct H1 as (_ & _ & _ & _ & _ & _ & -> & _).
  destruct H2 as (_ & _ & _ & _ & _ & _ & -> & _).
  exact Hk.
Qed.

(** X7. When the month has several entries of the same type at a strike,
    the row of this strike is made of the last of them: its premiums and
    volumes are those of the last call and of the last put stored under
    the strike, and its expiry is the one of this call. *)
Theorem straddle_row_of_the_last_entries :
  forall cfg sym current_price lot_size options r,
    In r (fst (Strategy1.straddles_of_options
                 cfg sym current_price lot_size options)) ->
    exists ce pe,
      last_such (stored_under cfg current_price (Strategy1.Strike r) "CE")
                options = Some ce /\
      last_such (stored_under cfg current_price (Strategy1.Strike r) "PE")
                options = Some pe /\
      Strategy1.CALL r = last_price ce /\
      Strategy1.PUT r = last_price pe /\
      Strategy1.CALL_Vol r = volume ce /\
      Strategy1.PUT_Vol r = volume pe /\
      Strategy1.Expiry r = format_expiry (expiry_date ce).
Proof.
  intros cfg sym current_price lot_size options r H.
  unfold Strategy1.straddles_of_options in H.
  apply for_each_In in H. destruct H as ([k p] & Hitem & H).
  apply appending_In in H. apply Strategy1Facts.straddle_of_Some in H.
  destruct H as (ce & pe & Ece & Epe & _ & _ & Hk & He & Hc & Hp & Hcv & Hpv
                 & _).
  destruct (GroupingFacts.group_by_strike_grouped cfg current_price options)
    as (_ & I2 & _).
  rewrite Forall_forall in I2. destruct (I2 _ Hitem) as (_ & Lce & Lpe).
  cbn [fst snd] in Lce, Lpe. subst k.
  exists ce, pe. rewrite <- Lce, <- Lpe. auto 10.
Qed.

(** The statement above for a month with two calls at 120: the row has
    the premium 3.5 of the second. *)
Lemma straddle_row_of_the_last_entries_example :
  exists ce pe,
    last_such (stored_under default_config 120
                 (Strategy1.Strike pnb_straddle) "CE")
              [pnb "CE" 120 3.4; pnb "PE" 120 3.2; pnb "CE" 120 3.5]
    = Some ce /\
    last_such (stored_under default_config 120
                 (Strategy1.Strike pnb_straddle) "PE")
              [pnb "CE" 120 3.4; pnb "PE" 120 3.2; pnb "CE" 120 3.5]
    = Some pe /\
    Strategy1.CALL pnb_straddle = last_price ce /\
    Strategy1.PUT pnb_straddle = last_price pe /\
    Strategy1.CALL_Vol pnb_straddle = volume ce /\
    Strategy1.PUT_Vol pnb_straddle = volume pe /\
    Strategy1.Expiry pnb_straddle = format_expiry (expiry_date ce).
Proof.
  apply (straddle_row_of_the_last_entries default_config "PNB" 120 8000).
  vm_compute. left. reflexivity.
Defined.

(** X8. Every row of the short-straddle table is a row of one of the
    selected stocks and one of the selected months: it carries the symbol
    of the stock and its price, which is not zero; the stock has a lot
    size; and its legs and metrics are those of the entries that
    [get_options_data] returned for this stock and month. *)
Theorem straddle_table_rows :
  forall cfg fetcher selected_stocks selected_months r,
    In r (Strategy1.all_opportunities
            cfg fetcher selected_stocks selected_months) ->
    exists sym month lot_size options,
      In sym selected_stocks /\ In month selected_months /\
      Strategy1.Symbol r = sym /\
      Strategy1.Current r = get_stock_price fetcher sym /\
      (Strategy1.Current r =? 0) = false /\
      get_lot_size fetcher sym = Ok lot_size /\
      get_options_data fetcher sym (Some month) = Ok options /\
      straddle_legs options r /\
      straddle_metrics cfg lot_size r.
Proof.
  intros cfg fetcher selected_stocks selected_months r H.
  apply PassFacts.all_opportunities_In in H.
  destruct H as (sym & month & lot_size & options & Hs & Hm & Hlot & Hp & Ho
                 & H).
  pose proof (PassFacts.straddle_row_symbol _ _ _ _ _ _ H) as Hsym.
  apply Strategy1Facts.straddle_row_sound in H.
  destruct H as (Hcur & Hlegs & _ & _ & _ & Hmet).
  exists sym, month, lot_size, options. rewrite Hcur. auto 10.
Qed.

(** The statement above for the feed of PNB. *)
Lemma straddle_table_rows_example :
  exists sym month lot_size options,
    In sym ["PNB"] /\ In month ["Dec"] /\
    Strategy1.Symbol pnb_straddle = sym /\
    Strategy1.Current pnb_straddle
    = get_stock_price
        (session [raw "CE" " 120.00 " 3.5; raw "PE" "120" 3.2]) sym /\
    (Strategy1.Current pnb_straddle =? 0) = false /\
    get_lot_size (session [raw "CE" " 120.00 " 3.5; raw "PE" "120" 3.2]) sym
    = Ok lot_size /\
    get_options_data (session [raw "CE" " 120.00 " 3.5; raw "PE" "120" 3.2])
                     sym (Some month) = Ok options /\
    straddle_legs options pnb_straddle /\
    straddle_metrics default_config lot_size pnb_straddle.
Proof.
  apply (straddle_table_rows default_config
           (session [raw "CE" " 120.00 " 3.5; raw "PE" "120" 3.2])
           ["PNB"] ["Dec"]).
  vm_compute. left. reflexivity.
Defined.

(** X9. Every row of the covered-call table is a row of one of the
    selected stocks and one of the selected months: it carries the symbol
    of the stock and its price, which is not zero; the stock has a lot
    size; and the row is made of a qualifying entry that
    [get_options_data] returned for this stock and month. *)
Theorem covered_call_table_rows :
  forall cfg fetcher selected_stocks selected_months r,
    In r (Strategy2.all_opportunities2
            cfg fetcher selected_stocks selected_months) ->
    exists sym month lot_size options opt,
      In sym selected_stocks /\ In month selected_months /\
      Strategy2.Symbol r = sym /\
      Strategy2.Current r = get_stock_price fetcher sym /\
      (Strategy2.Current r =? 0) = false /\
      get_lot_size fetcher sym = Ok lot_size /\
      get_options_data fetcher sym (Some month) = Ok options /\
      In opt options /\
      qualifies cfg (Strategy2.Current r) opt = true /\
      Strategy2.Strike r = strike opt /\
      Strategy2.CALL r = last_price opt /\
      covered_call_metrics cfg lot_size r.
Proof.
  intros cfg fetcher selected_stocks selected_months r H.
  apply PassFacts.all_opportunities2_In in H.
  destruct H as (sym & month & lot_size & options & Hs & Hm & Hlot & Hp & Ho
                 & H).
  pose proof (PassFacts.covered_call_row_symbol _ _ _ _ _ _ H) as Hsym.
  apply Strategy2Facts.covered_call_row_sound in H.
  destruct H as (opt & Hin & Hq & Hcur & Hk & Hc & Hmet).
  exists sym, month, lot_size, options, opt. rewrite Hcur. auto 15.
Qed.

(** The statement above for the feed of PNB. *)
Lemma covered_call_table_rows_example :
  exists sym month lot_size options opt,
    In sym ["PNB"] /\ In month ["Dec"] /\
    Strategy2.Symbol pnb_covered_call = sym /\
    Strategy2.Current pnb_covered_call
    = get_stock_price (session [raw "CE" "125.00" 3]) sym /\
    (Strategy2.Current pnb_covered_call =? 0) = false /\
    get_lot_size (session [raw "CE" "125.00" 3]) sym = Ok lot_size /\
    get_options_data (session [raw "CE" "125.00" 3]) sym (Some month)
    = Ok options /\
    In opt options /\
    qualifies default_config (Strategy2.Current pnb_covered_call) opt = true /\
    Strategy2.Strike pnb_covered_call = strike opt /\
    Strategy2.CALL pnb_covered_call = last_price opt /\
    covered_call_metrics default_config lot_size pnb_covered_call.
Proof.
  apply (covered_call_table_rows default_config
           (session [raw "CE" "125.00" 3]) ["PNB"] ["Dec"]).
  vm_compute. left. reflexivity.
Defined.

(** X10. The covered-call pass depends on the qualifying entries alone:
    the entries that are not calls, are outside the range or have a zero
    premium change neither the rows nor the way the pass ends; none of them
    can raise. *)
Theorem covered_call_pass_reads_qualifying_entries :
  forall cfg sym current_price lot_size options,
    Strategy2.covered_calls_of_options cfg sym current_price lot_size
      (filter (qualifies cfg current_price) options)
    = Strategy2.covered_calls_of_options
        cfg sym current_price lot_size options.
Proof.
  intros cfg sym current_price lot_size options.
  unfold Strategy2.covered_calls_of_options.
  induction options as [|opt options IH]; [reflexivity|].
  cbn [filter]. destruct (qualifies cfg current_price opt) eqn:Hq.
  - cbn [for_each]. rewrite IH. reflexivity.
  - cbn [for_each].
    rewrite (Strategy2Facts.covered_call_of_skip _ _ _ _ _ Hq).
    cbn [appending]. rewrite IH.
    destruct (for_each _ options) as [rs o]. reflexivity.
Qed.

End Tables.

(** ** The safety range of a straddle *)

Module SafetyRange.

Import NseApi StreamlitApp Rows Views.
Local Open Scope string_scope.
Local Open Scope float_scope.

(** X11. In a short-straddle row whose two premiums add up to a sum that
    is not negative, the short safety is at most the long safety. *)
Theorem short_safety_below_long_safety :
  forall cfg sym current_price lot_size options r,
    In r (fst (Strategy1.straddles_of_options
                 cfg sym current_price lot_size options)) ->
    (0 <=? Strategy1.CALL r + Strategy1.PUT r) = true ->
    (Strategy1.Short_Safety r <=? Strategy1.Long_Safety r) = true.
Proof.
  intros cfg sym current_price lot_size options r H Hc.
  apply Strategy1Facts.straddle_row_sound in H.
  destruct H as (_ & _ & Hband & _ & _ & lot & _ & _ & _ & Hprofit & _ & _
                 & -> & ->).
  apply Binary64Facts.to_int_finite in Hprofit.
  apply Binary64Facts.mul_finite in Hprofit. destruct Hprofit as [Fc _].
  unfold between in Hband. apply andb_prop in Hband. destruct Hband as [Hlo _].
  pose proof (FloatAddFacts.leb_number_r _ _ Hlo) as Nk.
  destruct (FloatAddFacts.sub_le_add _ _ Nk Fc Hc) as (N1 & N2 & L).
  destruct (Binary64Facts.round2_mono _ _ N1 N2 L) as (R1 & R2 & M).
  apply FloatAddFacts.leb_of_ulps; assumption.
Qed.

(** The statement above for the row of the worked example. *)
Lemma short_safety_below_long_safety_example :
  (Strategy1.Short_Safety pnb_straddle
   <=? Strategy1.Long_Safety pnb_straddle) = true.
Proof.
  apply (short_safety_below_long_safety default_config "PNB" 120 8000
           [pnb "CE" 120 3.5; pnb "PE" 120 3.2]).
  - vm_compute. left. reflexivity.
  - reflexivity.
Defined.

End SafetyRange.

(** ** Properties of the lot-size cache *)

Module LotSizeCache.

Import NseApi NseApiCache Views.
Local Open Scope string_scope.

(** X12. A lot size that [get_lot_size] returns was read from a row of the
    CSV after the header: the symbol is the stripped second cell of the
    row, and the lot size is the first of its month cells that is all
    digits once stripped.  It is never zero or negative. *)
Theorem lot_size_comes_from_a_row :
  forall today_exists dir_exists files cutoff_date read lot_sizes feed sym n,
    _load_lot_sizes today_exists dir_exists files cutoff_date read
    = Loaded lot_sizes ->
    get_lot_size (fetcher_of feed lot_sizes) sym = Ok n ->
    (0 < n)%Z /\
    exists rows row,
      read (select_cache today_exists dir_exists files cutoff_date)
      = Rows rows /\
      In row (tl rows) /\ gives row sym n.
Proof.
  intros today_exists dir_exists files cutoff_date read lot_sizes feed sym n
         Hload Hget.
  unfold _load_lot_sizes, parse_lot_sizes in Hload.
  unfold get_lot_size, fetcher_of in Hget. cbn [NseApi.lot_sizes] in Hget.
  destruct (dict_get lot_sizes sym) as [m|] eqn:Hm; [|discriminate].
  inversion Hget; subst m. clear Hget.
  destruct (read (select_cache today_exists dir_exists files cutoff_date))
    as [| |rows] eqn:Hread; try discriminate.
  destruct (parse_rows [] (tl rows)) as [d o] eqn:Hp. cbn [fst] in Hload.
  destruct d as [|kv d]; [discriminate|]. inversion Hload; subst lot_sizes.
  destruct (LotSizeFacts.parse_rows_get _ _ _ _ _ _ Hp Hm)
    as [H0|(row & Hin & Hg)]; [discriminate|].
  split.
  - destruct Hg as (_ & _ & _ & _ & value & _ & _ & Hpos). exact Hpos.
  - exists rows, row. auto.
Qed.

(** The statement above for the lot size of BHEL in the sample file. *)
Lemma lot_size_comes_from_a_row_example :
  (0 < 2625)%Z /\
  exists rows row,
    Rows lot_csv = Rows rows /\
    In row (tl rows) /\ gives row "BHEL" 2625.
Proof.
  apply (lot_size_comes_from_a_row true true cache_listing 400
           (fun _ => Rows lot_csv)
           [("PNB", 8000%Z); ("BHEL", 2625%Z)] (fun _ => None)).
  - vm_compute. reflexivity.
  - reflexivity.
Defined.

(** X13. When a symbol has several rows, the last row that gives it a lot
    size wins: if no row after it has the symbol, and no cell stops the
    parsing, [get_lot_size] returns the lot size of this row. *)
Theorem last_row_of_a_symbol_wins :
  forall header before row after sym n feed,
    snd (parse_rows [] (before ++ row :: after)) = Done ->
    gives row sym n ->
    Forall (fun r => symbol_of r <> Some sym) after ->
    exists lot_sizes,
      parse_lot_sizes (Rows (header :: before ++ row :: after))
      = Loaded lot_sizes /\
      get_lot_size (fetcher_of feed lot_sizes) sym = Ok n.
Proof.
  intros header before row after sym n feed Hdone Hg Hafter.
  unfold parse_lot_sizes. cbn [tl].
  pose proof (CacheFacts.parse_rows_Done_app _ _ _ Hdone) as Hb.
  rewrite (LotSizeFacts.parse_rows_app _ _ _ Hb).
  cbn [parse_rows].
  rewrite (LotSizeFacts.parse_row_gives _ _ _ _ Hg).
  set (d1 := dict_set (fst (parse_rows [] before)) sym n).
  assert (Hget : dict_get (fst (parse_rows d1 after)) sym = Some n).
  { rewrite (LotSizeFacts.parse_rows_other _ _ _ Hafter). unfold d1.
    rewrite LotSizeFacts.dict_get_set, String.eqb_refl. reflexivity. }
  destruct (fst (parse_rows d1 after)) as [|kv d] eqn:E; [discriminate|].
  exists (kv :: d). split; [reflexivity|].
  unfold get_lot_size, fetcher_of. cbn [NseApi.lot_sizes]. rewrite Hget.
  reflexivity.
Qed.

(** The statement above for the two rows of PNB in the sample file. *)
Lemma last_row_of_a_symbol_wins_example :
  exists lot_sizes,
    parse_lot_sizes
      (Rows (lot_csv_header :: lot_csv_before ++ lot_csv_row :: lot_csv_after))
    = Loaded lot_sizes /\
    get_lot_size (fetcher_of (fun _ => None) lot_sizes) "PNB" = Ok 8000%Z.
Proof.
  apply (last_row_of_a_symbol_wins lot_csv_header lot_csv_before lot_csv_row
           lot_csv_after "PNB" 8000%Z).
  - vm_compute. reflexivity.
  - unfold gives, lot_csv_row. cbn [List.length nth skipn].
    split; [lia|]. split; [reflexivity|].
    split; [discriminate|]. split; [discriminate|].
    exists "8000". split.
    + exists [" "], " 8000 ", []. repeat split. constructor; [|constructor].
      reflexivity.
    + split; [reflexivity|lia].
  - repeat constructor. discriminate.
Defined.

(** X14. The cache file that [_load_lot_sizes] falls back on, when the one
    of today is missing, is a lot-size file of the cache directory that is
    not older than the cutoff, and no such file of the directory is more
    recent. *)
Theorem cached_file_is_fresh_and_latest :
  forall today_exists dir_exists files cutoff_date f,
    select_cache today_exists dir_exists files cutoff_date = Cached f ->
    today_exists = false /\ dir_exists = true /\
    is_lot_file f = true /\
    exists t,
      In (f, t) files /\ (cutoff_date <= t)%Z /\
      forall f' t',
        In (f', t') files -> is_lot_file f' = true ->
        (cutoff_date <= t')%Z -> (t' <= t)%Z.
Proof.
  intros today_exists dir_exists files cutoff_date f. unfold select_cache.
  destruct today_exists; [discriminate|].
  destruct dir_exists; [|discriminate]. cbn [negb].
  destruct (sort_desc (recent_cache_files files cutoff_date))
    as [|[f0 t0] rest] eqn:E; [discriminate|].
  intros H. inversion H; subst f0. clear H.
  destruct (CacheFacts.sort_desc_head _ _ _ E) as [Hin Hmax].
  unfold recent_cache_files in Hin. apply filter_In in Hin.
  destruct Hin as [Hin Hok]. cbn [fst snd] in Hok.
  apply andb_prop in Hok. destruct Hok as [Hname Ht]. apply Z.leb_le in Ht.
  repeat split; try assumption.
  exists t0. repeat split; try assumption.
  intros f' t' Hin' Hname' Ht'.
  apply (Hmax (f', t')). unfold recent_cache_files. apply filter_In.
  split; [exact Hin'|]. cbn [fst snd]. rewrite Hname'.
  apply Z.leb_le in Ht'. rewrite Ht'. reflexivity.
Qed.

(** The statement above for the sample directory. *)
Lemma cached_file_is_fresh_and_latest_example :
  false = false /\ true = true /\
  is_lot_file "fo_mktlots_2025-12-20.csv" = true /\
  exists t,
    In ("fo_mktlots_2025-12-20.csv", t) cache_listing /\ (400 <= t)%Z /\
    forall f' t',
      In (f', t') cache_listing -> is_lot_file f' = true ->
      (400 <= t')%Z -> (t' <= t)%Z.
Proof.
  apply (cached_file_is_fresh_and_latest false true cache_listing 400).
  reflexivity.
Defined.

(** X15. [_load_lot_sizes] downloads the file exactly when the cache file
    of today is missing and the cache directory is missing or holds no
    lot-size file that is not older than the cutoff. *)
Theorem download_iff_no_fresh_cache :
  forall today_exists dir_exists files cutoff_date,
    select_cache today_exists dir_exists files cutoff_date = Download <->
    today_exists = false /\
    (dir_exists = false \/
     forall f t, In (f, t) files -> is_lot_file f = true ->
                 (t < cutoff_date)%Z).
Proof.
  intros today_exists dir_exists files cutoff_date. unfold select_cache.
  destruct today_exists; cbn [negb]; [split; [discriminate|intros [H _]; discriminate]|].
  destruct dir_exists; [|split; auto].
  destruct (sort_desc (recent_cache_files files cutoff_date))
    as [|[f0 t0] rest] eqn:E.
  - split; [|reflexivity]. intros _. split; [reflexivity|]. right.
    intros f t Hin Hname.
    apply CacheFacts.sort_desc_nil in E.
    destruct (Z.ltb_spec t cutoff_date) as [L|L]; [exact L|].
    assert (H : In (f, t) (recent_cache_files files cutoff_date)).
    { apply filter_In. split; [exact Hin|]. cbn [fst snd]. rewrite Hname.
      apply Z.leb_le in L. rewrite L. reflexivity. }
    rewrite E in H. destruct H.
  - split; [discriminate|]. intros [_ [H|H]]; [discriminate|].
    destruct (CacheFacts.sort_desc_head _ _ _ E) as [Hin _].
    apply filter_In in Hin. destruct Hin as [Hin Hok]. cbn [fst snd] in Hok.
    apply andb_prop in Hok. destruct Hok as [Hname Ht]. apply Z.leb_le in Ht.
    specialize (H _ _ Hin Hname). lia.
Qed.

(** X16. [_cleanup_old_cache] removes nothing but lot-size files older
    than the cutoff: never a file of another name, and never the cache
    file that [_load_lot_sizes] would fall back on at the same cutoff. *)
Theorem cleanup_removes_only_stale_lot_files :
  forall today_exists dir_exists files cutoff_date f,
    NoDup (map fst files) ->
    In f (_cleanup_old_cache dir_exists files cutoff_date) ->
    is_lot_file f = true /\
    (exists t, In (f, t) files /\ (t < cutoff_date)%Z) /\
    select_cache today_exists dir_exists files cutoff_date <> Cached f.
Proof.
  intros today_exists dir_exists files cutoff_date f Hnd H.
  unfold _cleanup_old_cache in H.
  destruct dir_exists; cbn [negb] in H; [|destruct H].
  apply in_map_iff in H. destruct H as ([f0 t] & Ef & H). cbn [fst] in Ef.
  subst f0. apply filter_In in H. destruct H as [Hin Hok].
  cbn [fst snd] in Hok. apply andb_prop in Hok. destruct Hok as [Hname Ht].
  apply Z.ltb_lt in Ht.
  split; [exact Hname|]. split; [eauto|].
  intros Hsel.
  destruct (CacheFacts.select_cache_fresh _ _ _ _ _ Hsel)
    as (t' & Hin' & Ht').
  rewrite (CacheFacts.NoDup_fst_In _ _ _ _ Hnd Hin Hin') in Ht. lia.
Qed.

(** The statement above for the oldest file of the sample directory. *)
Lemma cleanup_removes_only_stale_lot_files_example :
  is_lot_file "fo_mktlots_2025-12-01.csv" = true /\
  (exists t, In ("fo_mktlots_2025-12-01.csv", t) cache_listing /\
             (t < 400)%Z) /\
  select_cache false true cache_listing 400
  <> Cached "fo_mktlots_2025-12-01.csv".
Proof.
  apply (cleanup_removes_only_stale_lot_files false true cache_listing 400).
  - repeat constructor; cbn [In map fst]; intuition discriminate.
  - vm_compute. left. reflexivity.
Defined.

End LotSizeCache.
